(** * JsonCPP: the value core and its numeric-to-text conversion

    A shallow embedding of the error convention ([jsoncpp/except.h]), of
    the numeric-to-text functions ([jsoncpp/utils.cc], [jsoncpp/utils.h])
    and of the [Value] / [Value::CZString] implementation (the second part
    of [jsoncpp/except.cc], declared in the [value.h] part of
    [jsoncpp/utils.cc]), followed by the properties established about it.

    Conventions.
    - [int64_t] payloads are [Z], [uint64_t] and [unsigned] payloads are [N];
      narrowing casts are written out as wrap-around.
    - [double] is [SpecFloat.spec_float] at precision 53 / emax 1024 and
      [float] the same type at precision 24 / emax 128; the IEEE operations
      are those of [SpecFloat].
    - [char] is [ascii]; a [std::string] and the bytes behind a [char*] are
      [list ascii].
    - A function that can throw returns [Result]; [JSON_ASSERT] and
      [JSON_ASSERT_MESSAGE] throw a [LogicError]. *)

From Stdlib Require Import ZArith NArith PArith List Ascii String Bool Lia.
From Stdlib Require Import Floats.SpecFloat.
From Stdlib Require DecimalString.
From Equations Require Import Equations.
Import ListNotations.

Set Implicit Arguments.
Local Open Scope Z_scope.

(* ===================================================================== *)
(** * except.h : the error convention                                     *)
(* ===================================================================== *)

Module Except.

Inductive Exception :=
| RuntimeError (msg : string)
| LogicError (msg : string)
| StdLogicError (msg : string).

Inductive Result (A : Type) :=
| Ok (a : A)
| Throw (e : Exception).
Arguments Ok {A} a.
Arguments Throw {A} e.

Definition bind {A B} (r : Result A) (k : A -> Result B) : Result B :=
  match r with
  | Ok a => k a
  | Throw e => Throw e
  end.

Definition throwRuntimeError {A} (msg : string) : Result A :=
  Throw (RuntimeError msg).

Definition throwLogicError {A} (msg : string) : Result A :=
  Throw (LogicError msg).

(** [JSON_ASSERT(condition)]: the [abort()] after the throw is never
    reached. *)
Definition JSON_ASSERT (condition : bool) : Result unit :=
  if condition then Ok tt else throwLogicError "assert json failed".

Definition JSON_ASSERT_MESSAGE (condition : bool) (message : string)
  : Result unit :=
  if condition then Ok tt else throwLogicError message.

End Except.
Export Except.

Declare Scope result_scope.
Notation "x <- c1 ;; c2" := (bind c1 (fun x => c2))
  (at level 61, c1 at next level, right associativity) : result_scope.
Notation "c1 ;;; c2" := (bind c1 (fun _ => c2))
  (at level 61, right associativity) : result_scope.
Local Open Scope result_scope.

(* ===================================================================== *)
(** * Characters, strings and the C library                               *)
(* ===================================================================== *)

Definition chars : Type := list ascii.

Definition str (s : string) : chars := list_ascii_of_string s.

Definition NUL : ascii := Ascii.zero.

Module Libc.

(** [unsigned char] value of a [char], as [memcmp] compares them. *)
Definition uchar (c : ascii) : N := N_of_ascii c.

(** [strlen]: number of chars before the first NUL.  A list that holds no
    NUL stands for a buffer whose terminator follows its last char. *)
Fixpoint strlen (s : chars) : N :=
  match s with
  | [] => 0%N
  | c :: s' => if Ascii.eqb c NUL then 0%N else N.succ (strlen s')
  end.

(** The chars of a C string, up to its terminator: what
    [std::string(const char* )] copies. *)
Fixpoint c_str (s : chars) : chars :=
  match s with
  | [] => []
  | c :: s' => if Ascii.eqb c NUL then [] else c :: c_str s'
  end.

(** [memcmp(a, b, n)]: sign of the first differing byte among the first
    [n].  Reading past the end of either list is reading past the buffer,
    which the callers exclude; the model stops there with 0. *)
Fixpoint memcmp (a b : chars) (n : nat) : Z :=
  match n with
  | O => 0
  | S n' =>
      match a, b with
      | x :: a', y :: b' =>
          if (uchar x <? uchar y)%N then -1
          else if (uchar y <? uchar x)%N then 1
          else memcmp a' b' n'
      | _, _ => 0
      end
  end.

(** The greatest [int]. *)
Definition INT_MAX : Z := 2 ^ 31 - 1.

End Libc.
Export Libc.

(* ===================================================================== *)
(** * value.h : constants and enumerations                                *)
(* ===================================================================== *)

Module Limits.

(** [int64_t(~(uint64_t(-1) / 2))] and [int64_t(uint64_t(-1) / 2)]. *)
Definition minInt64 : Z := - 2 ^ 63.
Definition maxInt64 : Z := 2 ^ 63 - 1.
(** [int32_t(~(uint32_t(-1) / 2))] and [int32_t(uint32_t(-1) / 2)]. *)
Definition minInt : Z := - 2 ^ 31.
Definition maxInt : Z := 2 ^ 31 - 1.
(** [maxUInt] is declared [int32_t] and initialised with [uint32_t(-1)]:
    the stored value is -1. *)
Definition maxUInt : Z := -1.
(** [maxUInt64] is declared [int64_t] and initialised with [uint64_t(-1)]:
    the stored value is -1 as well. *)
Definition maxUInt64 : Z := -1.
Definition defaultRealPrecision : N := 17.

Inductive ValueType :=
| nullValue | intValue | uintValue | realValue
| stringValue | boolValue | arrayValue | objectValue.

(** The enumerators' values, [nullValue = 0] onwards. *)
Definition ValueType_value (t : ValueType) : Z :=
  match t with
  | nullValue => 0 | intValue => 1 | uintValue => 2 | realValue => 3
  | stringValue => 4 | boolValue => 5 | arrayValue => 6 | objectValue => 7
  end.

Definition ValueType_eqb (a b : ValueType) : bool :=
  ValueType_value a =? ValueType_value b.

Inductive PrecisionType := significantDigits | decimalPlaces.

Definition wrap_unsigned (bits : Z) (z : Z) : Z := z mod 2 ^ bits.
Definition wrap_signed (bits : Z) (z : Z) : Z :=
  (z + 2 ^ (bits - 1)) mod 2 ^ bits - 2 ^ (bits - 1).

Definition to_int32 (z : Z) : Z := wrap_signed 32 z.
Definition to_int64 (z : Z) : Z := wrap_signed 64 z.
Definition to_uint32 (z : Z) : N := Z.to_N (wrap_unsigned 32 z).
Definition to_uint64 (z : Z) : N := Z.to_N (wrap_unsigned 64 z).

End Limits.
Export Limits.

(* ===================================================================== *)
(** * IEEE-754 doubles                                                    *)
(* ===================================================================== *)

Module Ieee.

Definition double : Type := spec_float.

Definition prec64 : Z := 53.
Definition emax64 : Z := 1024.
Definition prec32 : Z := 24.
Definition emax32 : Z := 128.

(** The doubles of a well-formed program: mantissa and exponent in the
    binary64 ranges. *)
Definition valid_double (d : double) : bool := valid_binary prec64 emax64 d.

(** [static_cast<double>(n)] for an integer [n], rounded to nearest even. *)
Definition double_of_Z (n : Z) : double :=
  binary_normalize prec64 emax64 n 0 false.

(** [static_cast<float>(n)] for an integer [n]. *)
Definition float_of_Z (n : Z) : spec_float :=
  binary_normalize prec32 emax32 n 0 false.

(** [static_cast<float>(d)]. *)
Definition float_of_double (d : double) : spec_float :=
  match d with
  | S754_finite s m e => binary_round prec32 emax32 s m e
  | _ => d
  end.

(** The implicit [float] to [double] conversion (exact). *)
Definition double_of_float (f : spec_float) : double :=
  match f with
  | S754_finite s m e => binary_round prec64 emax64 s m e
  | _ => f
  end.

Definition dzero : double := S754_zero false.
Definition dmul : double -> double -> double := SFmul prec64 emax64.
Definition dadd : double -> double -> double := SFadd prec64 emax64.
Definition dlt : double -> double -> bool := SFltb.
Definition dle : double -> double -> bool := SFleb.
Definition dge (a b : double) : bool := SFleb b a.
Definition deq : double -> double -> bool := SFeqb.

Definition isfinite (d : double) : bool :=
  match d with
  | S754_zero _ | S754_finite _ _ _ => true
  | S754_infinity _ | S754_nan => false
  end.

Definition isnan (d : double) : bool :=
  match d with
  | S754_nan => true
  | _ => false
  end.

(** Conversion of a double to an integer type: the fraction is dropped
    (truncation towards zero).  The C++ conversion is undefined for NaN,
    the infinities and values outside the target type; the callers guard
    it with [InRange], and the model gives 0 for the first two. *)
Definition double_to_Z (d : double) : Z :=
  match d with
  | S754_finite s m e =>
      cond_Zopp s (if 0 <=? e then Zpos m * 2 ^ e else Zpos m / 2 ^ (- e))
  | _ => 0
  end.

(** The value returned by [modf(d, &integral_part)]: the fractional part
    of [d], with the sign of [d]. *)
Definition modf (d : double) : double :=
  match d with
  | S754_zero s | S754_infinity s => S754_zero s
  | S754_nan => S754_nan
  | S754_finite s m e =>
      if 0 <=? e then S754_zero s
      else binary_normalize prec64 emax64
             (cond_Zopp s (Zpos m mod 2 ^ (- e))) e s
  end.

(** [std::fpclassify]. *)
Inductive fp_class := FP_NAN | FP_INFINITE | FP_ZERO | FP_SUBNORMAL | FP_NORMAL.

Definition fpclassify (d : double) : fp_class :=
  match d with
  | S754_nan => FP_NAN
  | S754_infinity _ => FP_INFINITE
  | S754_zero _ => FP_ZERO
  | S754_finite _ m _ =>
      if Zpos (digits2_pos m) =? prec64 then FP_NORMAL else FP_SUBNORMAL
  end.

End Ieee.
Export Ieee.

(* ===================================================================== *)
(** * The C library's [printf] conversions of a double                    *)
(* ===================================================================== *)

Module Printf.

(** The conversions ["%.*f"] and ["%.*g"] of a finite double, as the C
    standard describes them: the exact value of the double, rounded to
    the requested number of digits (to nearest, ties to even), in the "C"
    locale.  They stand for the C library wherever a text has to be
    computed from a concrete double. *)

Definition dec (n : Z) : chars :=
  str (DecimalString.NilZero.string_of_uint (N.to_uint (Z.to_N n))).

Definition sign_text (s : bool) : chars := if s then str "-" else [].

Definition round_half_even (num den : Z) : Z :=
  let q := num / den in
  match (2 * (num mod den) ?= den) with
  | Lt => q
  | Gt => q + 1
  | Eq => if Z.even q then q else q + 1
  end.

(** A positive finite double [m * 2^e] as a fraction. *)
Definition fraction_of (m : positive) (e : Z) : Z * Z :=
  if 0 <=? e then (Zpos m * 2 ^ e, 1) else (Zpos m, 2 ^ (- e)).

(** [num / den * 10^k], rounded to an integer. *)
Definition scaled (num den : Z) (k : Z) : Z :=
  if 0 <=? k then round_half_even (num * 10 ^ k) den
  else round_half_even num (den * 10 ^ (- k)).

Definition pad_zeros (width : nat) (s : chars) : chars :=
  repeat "0"%char (width - List.length s) ++ s.

Definition digit (r : Z) : ascii := ascii_of_N (48 + Z.to_N r).

(** The [count] lowest decimal digits of [n]. *)
Fixpoint low_digits (count : nat) (n : Z) : chars :=
  match count with
  | O => []
  | S count' => low_digits count' (n / 10) ++ [digit (n mod 10)]
  end.

(** The digits of [n / 10^p], then a point and the [p] lowest digits of
    [n] when [p] is not zero. *)
Definition fixed_text (p : N) (n : Z) : chars :=
  dec (n / 10 ^ Z.of_N p) ++
  (if (p =? 0)%N then [] else "."%char :: low_digits (N.to_nat p) n).

(** ["%.*f"]: fixed notation with [p] digits after the point. *)
Definition printf_f (p : N) (d : double) : chars :=
  match d with
  | S754_zero s => sign_text s ++ fixed_text p 0
  | S754_finite s m e =>
      let (num, den) := fraction_of m e in
      sign_text s ++ fixed_text p (scaled num den (Z.of_N p))
  | S754_infinity s => sign_text s ++ str "inf"
  | S754_nan => str "nan"
  end.

(** The least [j], counted from [j], with [den <= num * 10^j]. *)
Fixpoint first_scale (fuel : nat) (num den j : Z) : Z :=
  match fuel with
  | O => j
  | S fuel' =>
      if den <=? num * 10 ^ j then j else first_scale fuel' num den (j + 1)
  end.

(** [floor (log10 (num / den))] for a positive fraction. *)
Definition decimal_exponent (num den : Z) : Z :=
  if den <=? num then Z.of_nat (List.length (dec (num / den))) - 1
  else - first_scale (Z.to_nat (Z.log2 den) + 1) num den 1.

Fixpoint strip_zeros (ds : chars) : chars :=
  match ds with
  | [] => []
  | c :: ds' =>
      match strip_zeros ds' with
      | [] => if Ascii.eqb c "0" then [] else [c]
      | kept => c :: kept
      end
  end.

(** The exponent part of ["%e"]: a sign and at least two digits. *)
Definition exponent_text (x : Z) : chars :=
  (if x <? 0 then "-"%char else "+"%char) :: pad_zeros 2 (dec (Z.abs x)).

(** The significand [n], of [q + 1] digits, in the style of ["%g"]:
    one digit, then the others behind a point unless they are all zero. *)
Definition significand_text (n : Z) : chars :=
  match dec n with
  | [] => []
  | d :: ds =>
      match strip_zeros ds with
      | [] => [d]
      | kept => d :: "."%char :: kept
      end
  end.

(** ["%.*g"] without the [#] flag. *)
Definition printf_g (p : N) (d : double) : chars :=
  let P := Z.max 1 (Z.of_N p) in
  match d with
  | S754_zero s => sign_text s ++ str "0"
  | S754_finite s m e =>
      let (num, den) := fraction_of m e in
      let x0 := decimal_exponent num den in
      let n0 := scaled num den (P - 1 - x0) in
      let (n, x) := if 10 ^ P <=? n0 then (10 ^ (P - 1), x0 + 1) else (n0, x0) in
      sign_text s ++
      (if (x <? P) && (-4 <=? x) then
         let q := P - 1 - x in
         dec (n / 10 ^ q) ++
         match strip_zeros (low_digits (Z.to_nat q) n) with
         | [] => []
         | kept => "."%char :: kept
         end
       else significand_text n ++ "e"%char :: exponent_text x)
  | S754_infinity s => sign_text s ++ str "inf"
  | S754_nan => str "nan"
  end.

(** The text of the two formats [valueToString] uses, for a precision
    that is not negative. *)
Definition format_text (format : string) (precision : N) (d : double)
  : chars :=
  if String.eqb format "%.*f" then printf_f precision d
  else if String.eqb format "%.*g" then printf_g precision d
  else [].

(** The precision that a conversion works with when ["%.*"] has read
    the [int] [precision]: a negative one is taken as if the precision
    were omitted, and an omitted precision is 6. *)
Definition precision_read (precision : Z) : N :=
  if precision <? 0 then 6%N else Z.to_N precision.

(** What [snprintf] makes of a format, of the [int] read by ["%.*"] and
    of a double.  The reference conversion itself never ends with an
    error; a C library may, and some do for a precision close to
    [INT_MAX] whatever the length of the text. *)
Definition format_double (format : string) (precision : Z) (d : double)
  : option chars :=
  Some (format_text format (precision_read precision) d).

End Printf.

(* ===================================================================== *)
(** * utils.cc : integers to text                                         *)
(* ===================================================================== *)

Module Utils.

(** The stack buffer [char buffer[3 * 64 / 8 + 1]] together with the
    [char*& current] cursor, kept as an offset from [buffer]. *)
Record CharBuf := { data : chars; current : Z }.

Definition buffer_size : Z := 3 * 64 / 8 + 1.

Definition fresh_buffer : CharBuf :=
  {| data := repeat "?"%char (Z.to_nat buffer_size); current := buffer_size |}.

Fixpoint poke (l : chars) (i : nat) (c : ascii) : chars :=
  match l, i with
  | [], _ => []
  | _ :: l', O => c :: l'
  | x :: l', S i' => x :: poke l' i' c
  end.

(** [*--current = c].  A store outside the array is not modelled (the
    array is left as it is); [valueToString] never gets there. *)
Definition store_before (c : ascii) (b : CharBuf) : CharBuf :=
  let cur := current b - 1 in
  {| data := if (0 <=? cur) then poke (data b) (Z.to_nat cur) c else data b;
     current := cur |}.

(** The chars from the cursor to the end of the array. *)
Definition tail_of (b : CharBuf) : chars :=
  skipn (Z.to_nat (current b)) (data b).

(** [return current;] as a [std::string]: the chars from the cursor to the
    terminator. *)
Definition string_at (b : CharBuf) : chars := c_str (tail_of b).

Definition inspect {A} (a : A) : {b : A | a = b} := exist _ a eq_refl.

(** [static_cast<char>(value % 10U + static_cast<unsigned>('0'))]. *)
Definition digit_char (value : N) : ascii :=
  ascii_of_N (value mod 10 + N_of_ascii "0")%N.

(** The [do { ... } while (value != 0)] loop of [uintToString]. *)
Equations? uintToString_loop (value : N) (b : CharBuf) : CharBuf
  by wf (N.size_nat value) lt :=
  uintToString_loop value b with inspect (value / 10)%N => {
    | exist _ 0%N _ => store_before (digit_char value) b
    | exist _ (Npos q) e =>
        uintToString_loop (Npos q) (store_before (digit_char value) b) }.
Proof.
  destruct value as [| p]; [discriminate e |].
  assert (H : (q~0 <= p)%positive).
  { pose proof (N.Div0.mul_div_le (Npos p) 10) as H.
    rewrite e in H. lia. }
  apply Pos.lt_eq_cases in H. simpl.
  destruct H as [H | H].
  - apply Pos.size_nat_monotone in H. simpl in H. lia.
  - rewrite <- H. simpl. lia.
Qed.

(** [static void uintToString(uint64_t value, char*& current)]:
    [*--current = 0;] and then the loop. *)
Definition uintToString (value : N) (b : CharBuf) : CharBuf :=
  uintToString_loop value (store_before NUL b).

(** [std::string valueToString(int64_t value)]. *)
Definition valueToString_int64 (value : Z) : Result chars :=
  let b := fresh_buffer in
  let b :=
    if value =? minInt64 then
      store_before "-"%char (uintToString (to_uint64 (maxInt64 + 1)) b)
    else if value <? 0 then
      store_before "-"%char (uintToString (to_uint64 (- value)) b)
    else
      uintToString (to_uint64 value) b in
  JSON_ASSERT (0 <=? current b) ;;;
  Ok (string_at b).

(** [std::string valueToString(uint64_t value)]. *)
Definition valueToString_uint64 (value : N) : Result chars :=
  let b := uintToString value fresh_buffer in
  JSON_ASSERT (0 <=? current b) ;;;
  Ok (string_at b).

Definition valueToString_int32 (value : Z) : Result chars :=
  valueToString_int64 value.

Definition valueToString_uint32 (value : N) : Result chars :=
  valueToString_uint64 value.

Definition valueToString_bool (value : bool) : chars :=
  if value then str "true" else str "false".

(** ** utils.h : the two buffer clean-ups *)

(** Iterators into a [std::string] are offsets from [begin()]. *)
Definition erase (buf : chars) (first last : nat) : chars :=
  firstn first buf ++ skipn last buf.

Definition find (buf : chars) (c : ascii) : bool :=
  existsb (Ascii.eqb c) buf.

(** [if ( *begin == ',') *begin = '.';] *)
Definition fix_char (c : ascii) : ascii :=
  if Ascii.eqb c "," then "."%char else c.

(** [fixNumericLocale(begin, end)]: every [','] becomes ['.']; the returned
    iterator is [end].  The argument [begin] is the offset of the first
    char of [buf]. *)
Fixpoint fixNumericLocale (buf : chars) (begin : nat) : chars * nat :=
  match buf with
  | [] => ([], begin)
  | c :: rest =>
      let (rest', it) := fixNumericLocale rest (S begin) in
      (fix_char c :: rest', it)
  end.

(** [fixZerosInTheEnd(begin, end, precision)], by recursion on [end]:
    one unfolding is one turn of [for (; begin != end; --end)]. *)
Fixpoint fixZerosInTheEnd (buf : chars) (begin end_ : nat) (precision : N)
  : nat :=
  if Nat.eqb begin end_ then end_
  else
    match end_ with
    | O => end_
    | S end1 =>
        if negb (Ascii.eqb (nth end1 buf NUL) "0") then end_
        else if negb (Nat.eqb begin end1)
                && negb (Nat.eqb begin (end1 - 1))
                && Ascii.eqb (nth (end1 - 1) buf NUL) "."
        then (if negb (N.eqb precision 0) then end_ else end_ - 2)%nat
        else fixZerosInTheEnd buf begin end1 precision
    end.

(** ** utils.cc : doubles to text *)

Section RealToString.

(** What [snprintf] makes of a format, of the [int] that ["%.*"] reads
    as the precision and of a double: the text of the conversion, or
    nothing when the conversion ends with an error.  The C library is not
    part of the repository; what is proved below holds for every such
    function, and [Printf.format_double] is the one used to evaluate
    [valueToString] on concrete doubles. *)
Variable format_double : string -> Z -> double -> option chars.

Definition resize (buf : chars) (n : nat) : chars :=
  firstn n buf ++ repeat NUL (n - List.length buf).

(** The [int] that [snprintf] returns: the length of the whole text, or
    a negative number when the conversion ended with an error, which it
    does at the latest when the text has more than [INT_MAX] chars, its
    length then being no [int]. *)
Definition snprintf_int (result : option chars) : Z :=
  match result with
  | Some text =>
      if Z.of_nat (List.length text) <=? INT_MAX
      then Z.of_nat (List.length text) else -1
  | None => -1
  end.

(** What a successful [snprintf] leaves in a buffer: at most [size - 1]
    chars of the text and a terminator. *)
Definition store_text (buffer text : chars) : chars :=
  let size := List.length buffer in
  let written := firstn (size - 1) text ++ (if Nat.eqb size 0 then [] else [NUL]) in
  written ++ skipn (List.length written) buffer.

(** [snprintf(&*buffer.begin(), buffer.size(), ...)], [result] being what
    the C library makes of the conversion.  After an error the buffer is
    not read again, and is left as it was here. *)
Definition snprintf (buffer : chars) (result : option chars) : chars * Z :=
  (match result with
   | Some text => if 0 <=? snprintf_int result then store_text buffer text
                  else buffer
   | None => buffer
   end,
   snprintf_int result).

(** The [while (true)] loop around [snprintf]; each turn makes the same
    call and gets the same answer from the C library. *)
Equations? print_loop (result : option chars) (buffer : chars) : Result chars
  by wf (if Nat.ltb (Z.to_nat (snprintf_int result)) (List.length buffer)
         then 0 else 1)%nat lt :=
  print_loop result buffer with inspect (snprintf buffer result) => {
    | exist _ (buffer1, len) _ with inspect (0 <=? len) => {
      | exist _ false _ => throwLogicError "assert json failed"
      | exist _ true _ with inspect (Nat.leb (List.length buffer1) (Z.to_nat len)) => {
        | exist _ true _ => print_loop result (resize buffer1 (Z.to_nat len + 1))
        | exist _ false _ => Ok (resize buffer1 (Z.to_nat len)) } } }.
Proof.
  set (buffer1 := match result with
                  | Some text =>
                      if 0 <=? snprintf_int result then store_text buffer text
                      else buffer
                  | None => buffer
                  end) in *.
  assert (Hsame : List.length buffer1 = List.length buffer).
  { subst buffer1. destruct result as [text |]; [| reflexivity].
    destruct (0 <=? snprintf_int (Some text)); [| reflexivity].
    unfold store_text.
    rewrite ?length_app, ?length_skipn, ?length_app, ?length_firstn.
    destruct (Nat.eqb_spec (List.length buffer) 0); simpl; lia. }
  rewrite Hsame in e1. apply Nat.leb_le in e1.
  unfold resize. rewrite length_app, length_firstn, repeat_length, Hsame.
  destruct (Nat.ltb_spec (Z.to_nat (snprintf_int result)) (List.length buffer));
    [lia |].
  destruct (Nat.ltb_spec (Z.to_nat (snprintf_int result))
              (Nat.min (Z.to_nat (snprintf_int result) + 1) (List.length buffer) +
               (Z.to_nat (snprintf_int result) + 1 - List.length buffer))); lia.
Qed.

Definition reps : list (list chars) :=
  [ [ str "NaN"; str "-Infinity"; str "Infinity" ];
    [ str "null"; str "-1e+9999"; str "1e+9999" ] ].

(** [std::string valueToString(double value, bool useSpecialFloats,
    unsigned int precision, PrecisionType precisionType)].  The
    [unsigned int] precision is handed to ["%.*"], which reads an [int]:
    the same 32 bits, negative from 2^31 on. *)
Definition valueToString_double (value : double) (useSpecialFloats : bool)
  (precision : N) (precisionType : PrecisionType) : Result chars :=
  if negb (isfinite value) then
    Ok (nth (if isnan value then 0 else if dlt value (double_of_Z 0) then 1 else 2)%nat
          (nth (if useSpecialFloats then 0 else 1)%nat reps []) [])
  else
    buffer <- print_loop
                (format_double
                   (match precisionType with
                    | significantDigits => "%.*g"
                    | decimalPlaces => "%.*f"
                    end)%string (to_int32 (Z.of_N precision)) value)
                (repeat NUL 36) ;;
    let (buffer, it) := fixNumericLocale buffer 0 in
    let buffer := erase buffer it (List.length buffer) in
    let buffer :=
      if negb (find buffer ".") && negb (find buffer "e")
      then buffer ++ str ".0" else buffer in
    let buffer :=
      match precisionType with
      | decimalPlaces =>
          erase buffer (fixZerosInTheEnd buffer 0 (List.length buffer) precision)
            (List.length buffer)
      | significantDigits => buffer
      end in
    Ok buffer.

(** [valueToString(double, unsigned precision, PrecisionType)], whose
    arguments default to [defaultRealPrecision] and [significantDigits]. *)
Definition valueToString_double3 (value : double) (precision : N)
  (precisionType : PrecisionType) : Result chars :=
  valueToString_double value false precision precisionType.

End RealToString.

End Utils.

(* ===================================================================== *)
(** * The value implementation : string buffers                           *)
(* ===================================================================== *)

Module Json.

Definition orR (a b : Result bool) : Result bool :=
  x <- a ;; if x then Ok true else b.

Definition andR (a b : Result bool) : Result bool :=
  x <- a ;; if x then b else Ok false.

Definition is_null {A} (p : option A) : bool :=
  match p with None => true | Some _ => false end.

(** The chars behind a pointer that has been checked not to be null. *)
Definition deref (p : option chars) : chars :=
  match p with Some s => s | None => [] end.

Section Allocation.

(** Whether [new char[n]] hands back a non-null pointer. *)
Variable new_chars : N -> bool.

(** [duplicateStringValue(value, length)]: the new buffer, terminator
    included. *)
Definition duplicateStringValue (value : chars) (length : N) : Result chars :=
  let length :=
    if (Z.to_N maxInt <=? length)%N then (Z.to_N maxInt - 1)%N else length in
  if negb (new_chars (length + 1)%N) then
    throwRuntimeError
      "in Json::Value::duplicateStringValue(): Failed to allocate string value buffer"
  else
    Ok (firstn (N.to_nat length) value ++ [NUL]).

(** What [v_string] points to: either a buffer laid out as
    [{ unsigned length; char chars[length]; char 0 }] or a plain
    NUL-terminated C string. *)
Inductive StringBuffer :=
| Prefixed (length : N) (bytes : chars)
| Terminated (bytes : chars).

(** [duplicateAndPrefixStringValue(value, length)], with
    [sizeof(unsigned) = 4]. *)
Definition duplicateAndPrefixStringValue (value : chars) (length : N)
  : Result StringBuffer :=
  JSON_ASSERT_MESSAGE (length <=? Z.to_N maxInt - 4 - 1)%N
    "in Json::Value::duplicateAndPrefixStringValue(): length too big for prefixing" ;;;
  let actualLength := (4 + length + 1)%N in
  if negb (new_chars actualLength) then
    throwRuntimeError
      "in Json::Value::duplicateAndPrefixStringValue(): Failed to allocate string value buffer"
  else
    Ok (Prefixed length (firstn (N.to_nat length) value ++ [NUL])).

(** [decodePrefixedString(isPrefixed, prefixed, &length, &value)].  The
    flag and the layout of the buffer agree in every [Value] the
    constructors build; the two other cases reinterpret memory and are
    given an empty result. *)
Definition decodePrefixedString (isPrefixed : bool) (prefixed : StringBuffer)
  : N * chars :=
  match isPrefixed, prefixed with
  | false, Terminated bytes => (N.modulo (strlen bytes) (2 ^ 32), bytes)
  | true, Prefixed length bytes => (length, bytes)
  | _, _ => (0%N, [])
  end.

(* ===================================================================== *)
(** * Value::CZString                                                     *)
(* ===================================================================== *)

Inductive DuplicationPolicy := noDuplication | duplicate | duplicateOnCopy.

Definition DuplicationPolicy_value (p : DuplicationPolicy) : N :=
  match p with noDuplication => 0 | duplicate => 1 | duplicateOnCopy => 2 end%N.

(** [m_cstr] and the 32-bit word shared by [m_index] and the bit-fields of
    [m_storage], laid out as the usual ABIs do: [policy] in the two low
    bits, [length] in the thirty bits above them. *)
Record CZString := { m_cstr : option chars; m_word : N }.

Definition m_index (k : CZString) : N := m_word k.
Definition storage_policy (k : CZString) : N := N.land (m_word k) 3.
Definition storage_length (k : CZString) : N := N.shiftr (m_word k) 2.
Definition storage_word (policy length : N) : N :=
  N.lor policy (N.shiftl length 2).

(** [CZString(uint32_t index)]. *)
Definition CZString_index (index : N) : CZString :=
  {| m_cstr := None; m_word := index |}.

(** [CZString(char const* str, unsigned length, DuplicationPolicy allocate)]. *)
Definition CZString_name (str : option chars) (length : N)
  (allocate : DuplicationPolicy) : CZString :=
  {| m_cstr := str;
     m_word := storage_word (N.land (DuplicationPolicy_value allocate) 3)
                 (N.land length 1073741823 (* 0x3fffffff *)) |}.

(** [CZString(CZString const& other)]. *)
Definition CZString_copy (other : CZString) : Result CZString :=
  cstr <- (if negb (storage_policy other =? DuplicationPolicy_value noDuplication)%N
              && negb (is_null (m_cstr other))
           then s <- duplicateStringValue (deref (m_cstr other)) (storage_length other) ;;
                Ok (Some s)
           else Ok (m_cstr other)) ;;
  let policy :=
    if negb (is_null (m_cstr other)) then
      if (storage_policy other =? DuplicationPolicy_value noDuplication)%N
      then N.land (DuplicationPolicy_value noDuplication) 3
      else N.land (DuplicationPolicy_value duplicate) 3
    else N.land (storage_policy other) 3 in
  Ok {| m_cstr := cstr; m_word := storage_word policy (storage_length other) |}.

(** [CZString(CZString&& other)]: the new key and what is left in [other]. *)
Definition CZString_move (other : CZString) : CZString * CZString :=
  ({| m_cstr := m_cstr other; m_word := m_index other |},
   {| m_cstr := None; m_word := m_word other |}).

(** [bool CZString::operator<(CZString const& other) const].  The
    statement after the [if]/[else], [return m_storage.length <
    other.m_storage.length;], cannot be reached. *)
Definition CZString_lt (this other : CZString) : Result bool :=
  if is_null (m_cstr this) then Ok (m_index this <? m_index other)%N
  else
    let min_len := N.min (storage_length this) (storage_length other) in
    JSON_ASSERT (negb (is_null (m_cstr this)) && negb (is_null (m_cstr other))) ;;;
    let ret := memcmp (deref (m_cstr this)) (deref (m_cstr other))
                 (N.to_nat min_len) in
    if ret <? 0 then Ok true else Ok false.

(** [bool CZString::operator==(CZString const& other) const]. *)
Definition CZString_eq (this other : CZString) : Result bool :=
  if is_null (m_cstr this) then Ok (m_index this =? m_index other)%N
  else if negb (storage_length this =? storage_length other)%N then Ok false
  else
    JSON_ASSERT (negb (is_null (m_cstr this)) && negb (is_null (m_cstr other))) ;;;
    let ret := memcmp (deref (m_cstr this)) (deref (m_cstr other))
                 (N.to_nat (storage_length this)) in
    Ok (ret =? 0).

Definition CZString_length (k : CZString) : N := storage_length k.
Definition CZString_data (k : CZString) : option chars := m_cstr k.
Definition isStaticString (k : CZString) : bool :=
  (storage_policy k =? DuplicationPolicy_value noDuplication)%N.

End Allocation.

(* ===================================================================== *)
(** * Value                                                               *)
(* ===================================================================== *)

(** [Comments]: a [std::unique_ptr] to the array of the three comment
    strings. *)
Definition Comments : Type := option (list chars).

(** [m_bits.value_type] and the union [m_value] are one tagged payload:
    the constructor is the tag and carries the active member; the
    [allocated] bit of [m_bits] travels with [v_string].  [ObjectValues] is
    the [std::map<CZString, Value>], kept as the list of its entries in
    key order. *)
Inductive Value :=
| mkValue (payload : Payload) (m_comments : Comments) (m_start m_limit : Z)
with Payload :=
| NullP
| IntP (v_int : Z)
| UIntP (v_uint : N)
| RealP (v_real : double)
| StringP (allocated : bool) (v_string : option StringBuffer)
| BoolP (v_bool : bool)
| ArrayP (v_map : list (CZString * Value))
| ObjectP (v_map : list (CZString * Value)).

Definition ObjectValues : Type := list (CZString * Value).

Definition payload (v : Value) : Payload :=
  match v with mkValue p _ _ _ => p end.
Definition m_comments (v : Value) : Comments :=
  match v with mkValue _ c _ _ => c end.
Definition m_start (v : Value) : Z :=
  match v with mkValue _ _ s _ => s end.
Definition m_limit (v : Value) : Z :=
  match v with mkValue _ _ _ l => l end.

(** [ValueType Value::type() const]. *)
Definition type (v : Value) : ValueType :=
  match payload v with
  | NullP => nullValue
  | IntP _ => intValue
  | UIntP _ => uintValue
  | RealP _ => realValue
  | StringP _ _ => stringValue
  | BoolP _ => boolValue
  | ArrayP _ => arrayValue
  | ObjectP _ => objectValue
  end.

(** The tagged payload right after its tag has been set, before the
    constructor stores the member: the bits of the union are whatever the
    storage held, and the model takes them to be zero. *)
Definition unset_payload (type : ValueType) (allocated : bool) : Payload :=
  match type with
  | nullValue => NullP
  | intValue => IntP 0
  | uintValue => UIntP 0
  | realValue => RealP dzero
  | stringValue => StringP allocated None
  | boolValue => BoolP false
  | arrayValue => ArrayP []
  | objectValue => ObjectP []
  end.

(** Modelled from the spec: [Value::initBasic(type, allocated)] is declared
    in value.h and called by every constructor, but its body is not among
    the sources.  Following the data model ("an optional comment string
    ... stored in a lazily-allocated side structure", "a half-open source
    byte-offset range [start, limit) ... defaulting to (0,0)") it sets the
    variant tag and the allocated bit, leaves no comments and sets both
    offsets to 0. *)
Definition initBasic (type : ValueType) (allocated : bool) : Value :=
  mkValue (unset_payload type allocated) None 0 0.

(** [m_value.member = ...] on a value whose tag is that of the member. *)
Definition store (this : Value) (p : Payload) : Value :=
  mkValue p (m_comments this) (m_start this) (m_limit this).

(** [Value(ValueType type)], [emptyString] being the static [""]. *)
Definition Value_of_type (t : ValueType) : Value :=
  let this := initBasic t false in
  match t with
  | nullValue => this
  | intValue => store this (IntP 0)
  | uintValue => store this (UIntP 0) (* [v_int = 0] under the uint tag *)
  | realValue => store this (RealP dzero)
  | stringValue => store this (StringP false (Some (Terminated [NUL])))
  | arrayValue => store this (ArrayP [])
  | objectValue => store this (ObjectP [])
  | boolValue => store this (BoolP false)
  end.

(** [Value(int64_t)], [Value(uint64_t)], [Value(double)], [Value(bool)];
    the 32-bit constructors store the same members. *)
Definition Value_of_int64 (value : Z) : Value :=
  store (initBasic intValue false) (IntP value).
Definition Value_of_uint64 (value : N) : Value :=
  store (initBasic uintValue false) (UIntP value).
Definition Value_of_double (value : double) : Value :=
  store (initBasic realValue false) (RealP value).
Definition Value_of_bool (value : bool) : Value :=
  store (initBasic boolValue false) (BoolP value).

(** [Value(const StaticString& value)]. *)
Definition Value_of_static (value : option chars) : Value :=
  store (initBasic stringValue false)
    (StringP false (option_map Terminated value)).

Section Strings.

Variable new_chars : N -> bool.

(** [Value(const char* begin, const char* end)] and
    [Value(const std::string& value)]. *)
Definition Value_of_string (value : chars) : Result Value :=
  let this := initBasic stringValue true in
  s <- duplicateAndPrefixStringValue new_chars value
         (to_uint32 (Z.of_nat (List.length value))) ;;
  Ok (store this (StringP true (Some s))).

(** [Value(const char* value)]: the chars up to the terminator. *)
Definition Value_of_cstr (value : option chars) : Result Value :=
  let this := initBasic stringValue true in
  JSON_ASSERT_MESSAGE (negb (is_null value))
    "Null Value Passed to Value Constructor" ;;;
  s <- duplicateAndPrefixStringValue new_chars (deref value)
         (to_uint32 (Z.of_N (strlen (deref value)))) ;;
  Ok (store this (StringP true (Some s))).

End Strings.

(** [void Value::swapPayload(Value& other)]: the pair is [this] and
    [other] after the call. *)
Definition swapPayload (this other : Value) : Value * Value :=
  (mkValue (payload other) (m_comments this) (m_start this) (m_limit this),
   mkValue (payload this) (m_comments other) (m_start other) (m_limit other)).

(** [void Value::swap(Value& other)]. *)
Definition swap (this other : Value) : Value * Value :=
  let (this, other) := swapPayload this other in
  let (this, other) :=
    (mkValue (payload this) (m_comments other) (m_start this) (m_limit this),
     mkValue (payload other) (m_comments this) (m_start other) (m_limit other)) in
  let (this, other) :=
    (mkValue (payload this) (m_comments this) (m_start other) (m_limit this),
     mkValue (payload other) (m_comments other) (m_start this) (m_limit other)) in
  (mkValue (payload this) (m_comments this) (m_start this) (m_limit other),
   mkValue (payload other) (m_comments other) (m_start other) (m_limit this)).

(** [Value(Value&& other)]: the constructed value and what is left in
    [other]. *)
Definition Value_move (other : Value) : Value * Value :=
  let this := initBasic nullValue false in
  swap this other.

(** [Value& operator=(Value&& other)], which is [other.swap( *this)]: the
    pair is [this] and [other] after the assignment. *)
Definition Value_move_assign (this other : Value) : Value * Value :=
  let (other, this) := swap other this in
  (this, other).

(** ** Ordering *)

(** [std::lexicographical_compare] over two ranges; [lt x y] is
    [*first1 < *first2] and [gt x y] is [*first2 < *first1]. *)
Definition lexicographical_compare {A} (lt gt : A -> A -> Result bool)
  : list A -> list A -> Result bool :=
  fix go (l1 l2 : list A) {struct l1} : Result bool :=
    match l1, l2 with
    | x :: l1', y :: l2' =>
        b <- lt x y ;;
        if b then Ok true
        else b' <- gt x y ;;
             if b' then Ok false else go l1' l2'
    | [], _ :: _ => Ok true
    | _, [] => Ok false
    end.

(** [operator<] of [std::pair<const CZString, Value>]:
    [x.first < y.first || (!(y.first < x.first) && x.second < y.second)]. *)
Definition pair_lt (second_lt : Value -> Value -> Result bool)
  (x y : CZString * Value) : Result bool :=
  orR (CZString_lt (fst x) (fst y))
      (andR (b <- CZString_lt (fst y) (fst x) ;; Ok (negb b))
            (second_lt (snd x) (snd y))).

(** [y < x] for the same pairs, [second_gt a b] standing for [b < a]. *)
Definition pair_gt (second_gt : Value -> Value -> Result bool)
  (x y : CZString * Value) : Result bool :=
  orR (CZString_lt (fst y) (fst x))
      (andR (b <- CZString_lt (fst x) (fst y) ;; Ok (negb b))
            (second_gt (snd x) (snd y))).

(** The [stringValue] case shared, word for word, by [operator<] and
    [operator==].  [JSON_ASSERT(this_str && other_str)] is reached with
    both decoded pointers derived from non-null ones. *)
Definition string_less (this_alloc : bool) (this_string : option StringBuffer)
  (other_alloc : bool) (other_string : option StringBuffer) : Result bool :=
  match this_string, other_string with
  | Some this_buf, Some other_buf =>
      let (this_len, this_str) := decodePrefixedString this_alloc this_buf in
      let (other_len, other_str) := decodePrefixedString other_alloc other_buf in
      let min_len := N.min this_len other_len in
      JSON_ASSERT true ;;;
      let comp := memcmp this_str other_str (N.to_nat min_len) in
      if comp <? 0 then Ok true
      else if 0 <? comp then Ok false
      else Ok (this_len <? other_len)%N
  | _, _ => Ok (negb (is_null other_string))
  end.

(** The [arrayValue] / [objectValue] case shared by both operators:
    sizes first, then [operator<] of the two maps. *)
Definition map_less (lt gt : Value -> Value -> Result bool)
  (this_map other_map : ObjectValues) : Result bool :=
  let this_size := List.length this_map in
  let other_size := List.length other_map in
  if negb (Nat.eqb this_size other_size) then Ok (Nat.ltb this_size other_size)
  else lexicographical_compare (pair_lt lt) (pair_gt gt) this_map other_map.

(** The same comparison of two maps, written by recursion on the second
    map and with the members of the second map in front: [gt y x] is
    [x.second < y.second] and [lt y x] is [y.second < x.second]. *)
Definition lexicographical_compare_snd {A} (lt gt : A -> A -> Result bool)
  : list A -> list A -> Result bool :=
  fix go (l1 l2 : list A) {struct l2} : Result bool :=
    match l1, l2 with
    | x :: l1', y :: l2' =>
        b <- lt x y ;;
        if b then Ok true
        else b' <- gt x y ;;
             if b' then Ok false else go l1' l2'
    | [], _ :: _ => Ok true
    | _, [] => Ok false
    end.

Definition map_less_snd (gt lt : Value -> Value -> Result bool)
  (this_map other_map : ObjectValues) : Result bool :=
  let this_size := List.length this_map in
  let other_size := List.length other_map in
  if negb (Nat.eqb this_size other_size) then Ok (Nat.ltb this_size other_size)
  else lexicographical_compare_snd
         (fun x y => pair_gt gt y x) (fun x y => pair_lt lt y x)
         this_map other_map.

(** [bool Value::operator<(const Value& other) const], together with
    [operator>], which the source defines as [other < *this]; the two are
    defined together because comparing two maps compares their members in
    both directions. *)
Fixpoint Value_lt (this other : Value) {struct this} : Result bool :=
  let typeDelta := ValueType_value (type this) - ValueType_value (type other) in
  if negb (typeDelta =? 0) then Ok (typeDelta <? 0)
  else
    match this, other with
    | mkValue NullP _ _ _, _ => Ok false
    | mkValue (IntP a) _ _ _, mkValue (IntP b) _ _ _ => Ok (a <? b)
    | mkValue (UIntP a) _ _ _, mkValue (UIntP b) _ _ _ => Ok (a <? b)%N
    | mkValue (RealP a) _ _ _, mkValue (RealP b) _ _ _ => Ok (dlt a b)
    | mkValue (BoolP a) _ _ _, mkValue (BoolP b) _ _ _ => Ok (negb a && b)
    | mkValue (StringP ta ts) _ _ _, mkValue (StringP oa os) _ _ _ =>
        string_less ta ts oa os
    | mkValue (ArrayP tm) _ _ _, mkValue (ArrayP om) _ _ _
    | mkValue (ObjectP tm) _ _ _, mkValue (ObjectP om) _ _ _ =>
        map_less Value_lt Value_gt tm om
    | _, _ => Ok false
    end
with Value_gt (this other : Value) {struct this} : Result bool :=
  let typeDelta := ValueType_value (type other) - ValueType_value (type this) in
  if negb (typeDelta =? 0) then Ok (typeDelta <? 0)
  else
    match other, this with
    | mkValue NullP _ _ _, _ => Ok false
    | mkValue (IntP a) _ _ _, mkValue (IntP b) _ _ _ => Ok (a <? b)
    | mkValue (UIntP a) _ _ _, mkValue (UIntP b) _ _ _ => Ok (a <? b)%N
    | mkValue (RealP a) _ _ _, mkValue (RealP b) _ _ _ => Ok (dlt a b)
    | mkValue (BoolP a) _ _ _, mkValue (BoolP b) _ _ _ => Ok (negb a && b)
    | mkValue (StringP oa os) _ _ _, mkValue (StringP ta ts) _ _ _ =>
        string_less oa os ta ts
    | mkValue (ArrayP om) _ _ _, mkValue (ArrayP tm) _ _ _
    | mkValue (ObjectP om) _ _ _, mkValue (ObjectP tm) _ _ _ =>
        map_less_snd Value_gt Value_lt om tm
    | _, _ => Ok false
    end.

(** [bool Value::operator==(const Value& other) const]. *)
Definition Value_eq (this other : Value) : Result bool :=
  if negb (ValueType_eqb (type this) (type other)) then Ok false
  else
    match payload this, payload other with
    | NullP, _ => Ok true
    | IntP a, IntP b => Ok (a <? b)
    | UIntP a, UIntP b => Ok (a <? b)%N
    | RealP a, RealP b => Ok (dlt a b)
    | BoolP a, BoolP b => Ok (negb a && b)
    | StringP ta ts, StringP oa os => string_less ta ts oa os
    | ArrayP tm, ArrayP om
    | ObjectP tm, ObjectP om => map_less Value_lt Value_gt tm om
    | _, _ => Ok false
    end.

(** [bool Value::operator!=(const Value& other) const]. *)
Definition Value_ne (this other : Value) : Result bool :=
  b <- Value_eq this other ;; Ok (negb b).

(** [int Value::compare(const Value& other) const]. *)
Definition compare (this other : Value) : Result Z :=
  lt <- Value_lt this other ;;
  if lt then Ok (-1)
  else gt <- Value_gt this other ;;
       if gt then Ok 1 else Ok 0.

(** [bool Value::operator<=(const Value& other) const]. *)
Definition Value_le (this other : Value) : Result bool :=
  b <- Value_lt other this ;; Ok (negb b).

(** [bool Value::operator>=(const Value& other) const]. *)
Definition Value_ge (this other : Value) : Result bool :=
  b <- Value_lt this other ;; Ok (negb b).

(** ** Predicates and conversions *)

(** [integerToDouble(uint64_t value)]. *)
Definition integerToDouble_u64 (value : N) : double :=
  dadd (dmul (double_of_Z (to_int64 (Z.of_N (value / 2)))) (double_of_Z 2))
       (double_of_Z (to_int64 (Z.of_N (N.land value 1)))).

(** [template <typename T> integerToDouble(T value)]. *)
Definition integerToDouble (value : Z) : double := double_of_Z value.

(** [InRange(d, min, max)]; every use in the file passes signed integers. *)
Definition InRange (d : double) (min max : Z) : bool :=
  dge d (integerToDouble min) && dle d (integerToDouble max).

(** [IsIntegral(d)]: [modf(d, &integral_part) == 0.0]. *)
Definition IsIntegral (d : double) : bool := deq (modf d) dzero.

Definition isNull (v : Value) : bool := ValueType_eqb (type v) nullValue.
Definition isBool (v : Value) : bool := ValueType_eqb (type v) boolValue.
Definition isString (v : Value) : bool := ValueType_eqb (type v) stringValue.
Definition isArray (v : Value) : bool := ValueType_eqb (type v) arrayValue.
Definition isObject (v : Value) : bool := ValueType_eqb (type v) objectValue.

(** [bool Value::isInt() const]. *)
Definition isInt (v : Value) : bool :=
  match payload v with
  | IntP v_int => (minInt <=? v_int) && (v_int <=? maxInt)
  | UIntP v_uint => (v_uint <=? to_uint32 maxInt)%N
  | RealP v_real =>
      dge v_real (double_of_Z minInt) && dle v_real (double_of_Z maxInt)
      && IsIntegral v_real
  | _ => false
  end.

(** [bool Value::isUInt() const].  [maxUInt] is the [int32_t] -1: against
    a [uint64_t] it converts to 2^64 - 1, against a double to -1.0. *)
Definition isUInt (v : Value) : bool :=
  match payload v with
  | IntP v_int => (0 <=? v_int) && (to_uint64 v_int <=? to_uint64 maxUInt)%N
  | UIntP v_uint => (v_uint <=? to_uint64 maxUInt)%N
  | RealP v_real =>
      dge v_real (double_of_Z 0) && dle v_real (double_of_Z maxUInt)
      && IsIntegral v_real
  | _ => false
  end.

(** [bool Value::isDouble() const] and [isNumeric]. *)
Definition isDouble (v : Value) : bool :=
  ValueType_eqb (type v) intValue || ValueType_eqb (type v) uintValue
  || ValueType_eqb (type v) realValue.

Definition isNumeric (v : Value) : bool := isDouble v.

(** [int32_t Value::asInt() const]. *)
Definition asInt (v : Value) : Result Z :=
  match payload v with
  | IntP v_int =>
      JSON_ASSERT_MESSAGE (isInt v) "LargestInt out of Int range" ;;;
      Ok (to_int32 v_int)
  | UIntP v_uint =>
      JSON_ASSERT_MESSAGE (isInt v) "LargestInt out of Int range" ;;;
      Ok (to_int32 (Z.of_N v_uint))
  | RealP v_real =>
      JSON_ASSERT_MESSAGE (InRange v_real minInt maxInt) "double out of Int range" ;;;
      Ok (to_int32 (double_to_Z v_real))
  | NullP => Ok 0
  | BoolP v_bool => Ok (if v_bool then 1 else 0)
  | _ => throwLogicError "Type is not convertible to Int"
  end.

(** [double Value::asDouble() const]; the [uintValue] case goes through
    [static_cast<float>]. *)
Definition asDouble (v : Value) : Result double :=
  match payload v with
  | IntP v_int => Ok (double_of_Z v_int)
  | UIntP v_uint =>
      Ok (double_of_float (float_of_double (integerToDouble_u64 v_uint)))
  | RealP v_real => Ok v_real
  | NullP => Ok dzero
  | BoolP v_bool => Ok (if v_bool then double_of_Z 1 else dzero)
  | _ => throwLogicError "Type is not convertible to Double"
  end.

(** [bool Value::asBool() const]. *)
Definition asBool (v : Value) : Result bool :=
  match payload v with
  | IntP v_int => Ok (negb (v_int =? 0))
  | UIntP v_uint => Ok (negb (v_uint =? 0)%N)
  | RealP v_real =>
      Ok (match fpclassify v_real with
          | FP_ZERO | FP_NAN => false
          | _ => true
          end)
  | NullP => Ok false
  | BoolP v_bool => Ok v_bool
  | _ => throwLogicError "Type is not convertible to Bool"
  end.

(** [static constexpr double maxUInt64AsDouble = 18446744073709551615.0]:
    the literal is rounded to the nearest double, 2^64. *)
Definition maxUInt64AsDouble : double := double_of_Z 18446744073709551615.

(** [bool Value::isInt64() const].  The [uintValue] case reads the member
    [v_int] of the union and compares it with a [uint64_t], which converts
    it back to unsigned. *)
Definition isInt64 (v : Value) : bool :=
  match payload v with
  | IntP _ => true
  | UIntP v_uint =>
      (to_uint64 (to_int64 (Z.of_N v_uint)) <=? to_uint64 maxInt64)%N
  | RealP v_real =>
      dge v_real (double_of_Z minInt64) && dlt v_real (double_of_Z maxInt64)
      && IsIntegral v_real
  | _ => false
  end.

(** [bool Value::isUInt64() const]. *)
Definition isUInt64 (v : Value) : bool :=
  match payload v with
  | IntP v_int => 0 <=? v_int
  | UIntP _ => true
  | RealP v_real =>
      dge v_real (double_of_Z 0) && dle v_real maxUInt64AsDouble
      && IsIntegral v_real
  | _ => false
  end.

(** [bool Value::isIntegral() const]. *)
Definition isIntegral (v : Value) : bool :=
  match payload v with
  | IntP _ | UIntP _ => true
  | RealP v_real =>
      dge v_real (double_of_Z 0) && dle v_real maxUInt64AsDouble
      && IsIntegral v_real
  | _ => false
  end.

(** [uint32_t Value::asUInt() const]. *)
Definition asUInt (v : Value) : Result N :=
  match payload v with
  | IntP v_int =>
      JSON_ASSERT_MESSAGE (isUInt v) "LargestInt out of UInt range" ;;;
      Ok (to_uint32 v_int)
  | UIntP v_uint =>
      JSON_ASSERT_MESSAGE (isUInt v) "LargestInt out of UInt range" ;;;
      Ok (to_uint32 (Z.of_N v_uint))
  | RealP v_real =>
      JSON_ASSERT_MESSAGE (InRange v_real 0 maxUInt) "double out of Int range" ;;;
      Ok (to_uint32 (double_to_Z v_real))
  | NullP => Ok 0%N
  | BoolP v_bool => Ok (if v_bool then 1 else 0)%N
  | _ => throwLogicError "Type is not convertible to UInt"
  end.

(** [int64_t Value::asInt64() const]. *)
Definition asInt64 (v : Value) : Result Z :=
  match payload v with
  | IntP v_int => Ok (to_int64 v_int)
  | UIntP v_uint =>
      JSON_ASSERT_MESSAGE (isInt64 v) "LargestInt out of Int64 range" ;;;
      Ok (to_int64 (Z.of_N v_uint))
  | RealP v_real =>
      JSON_ASSERT_MESSAGE (InRange v_real minInt64 maxInt64)
        "double out of Int range" ;;;
      Ok (to_int64 (double_to_Z v_real))
  | NullP => Ok 0
  | BoolP v_bool => Ok (if v_bool then 1 else 0)
  | _ => throwLogicError "Type is not convertible to Int64"
  end.

(** [uint64_t Value::asUInt64() const]. *)
Definition asUInt64 (v : Value) : Result N :=
  match payload v with
  | IntP v_int =>
      JSON_ASSERT_MESSAGE (isUInt64 v) "LargestInt out of UInt64 range" ;;;
      Ok (to_uint64 v_int)
  | UIntP v_uint => Ok (to_uint64 (Z.of_N v_uint))
  | RealP v_real =>
      JSON_ASSERT_MESSAGE (InRange v_real 0 maxUInt64) "double out of Int range" ;;;
      Ok (to_uint64 (double_to_Z v_real))
  | NullP => Ok 0%N
  | BoolP v_bool => Ok (if v_bool then 1 else 0)%N
  | _ => throwLogicError "Type is not convertible to UInt64"
  end.

Definition asLargestInt (v : Value) : Result Z := asInt64 v.

Definition asLargestUInt (v : Value) : Result N := asUInt64 v.

(** [float Value::asFloat() const]. *)
Definition asFloat (v : Value) : Result spec_float :=
  match payload v with
  | IntP v_int => Ok (float_of_Z v_int)
  | UIntP v_uint => Ok (float_of_double (integerToDouble_u64 v_uint))
  | RealP v_real => Ok (float_of_double v_real)
  | NullP => Ok (float_of_double dzero)
  | BoolP v_bool => Ok (if v_bool then float_of_Z 1 else float_of_Z 0)
  | _ => throwLogicError "Type is not convertible to Float"
  end.

Section Text.

Variable format_double : string -> Z -> double -> option chars.

(** [std::string Value::asString() const].  A [stringValue] whose pointer
    is null reaches [return nullptr;], the construction of a
    [std::string] from a null pointer. *)
Definition asString (v : Value) : Result chars :=
  match payload v with
  | NullP => Ok []
  | StringP allocated None =>
      Throw (StdLogicError "basic_string: construction from null is not valid")
  | StringP allocated (Some buf) =>
      let (this_len, this_str) := decodePrefixedString allocated buf in
      Ok (firstn (N.to_nat this_len) this_str)
  | BoolP v_bool => Ok (if v_bool then str "true" else str "false")
  | IntP v_int => Utils.valueToString_int64 v_int
  | UIntP v_uint => Utils.valueToString_uint64 v_uint
  | RealP v_real =>
      Utils.valueToString_double3 format_double v_real defaultRealPrecision
        significantDigits
  | _ => throwLogicError "Type is not convertible to string"
  end.

Definition is_empty {A} (l : list A) : bool :=
  match l with [] => true | _ => false end.

(** [bool Value::isConvertibleTo(ValueType other) const]. *)
Definition isConvertibleTo (v : Value) (other : ValueType) : Result bool :=
  match other with
  | nullValue =>
      orR (andR (Ok (isNumeric v)) (d <- asDouble v ;; Ok (deq d dzero)))
     (orR (Ok (match payload v with BoolP b => negb b | _ => false end))
     (orR (andR (Ok (ValueType_eqb (type v) stringValue))
                (s <- asString v ;; Ok (is_empty s)))
     (orR (Ok (match payload v with ArrayP m => is_empty m | _ => false end))
     (orR (Ok (match payload v with ObjectP m => is_empty m | _ => false end))
          (Ok (ValueType_eqb (type v) nullValue))))))
  | intValue =>
      Ok (isInt v
          || match payload v with
             | RealP v_real => InRange v_real minInt maxInt
             | _ => false
             end
          || ValueType_eqb (type v) boolValue
          || ValueType_eqb (type v) nullValue)
  | uintValue =>
      Ok (isUInt v
          || match payload v with
             | RealP v_real => InRange v_real 0 maxUInt
             | _ => false
             end
          || ValueType_eqb (type v) boolValue
          || ValueType_eqb (type v) nullValue)
  | realValue =>
      Ok (isNumeric v || ValueType_eqb (type v) boolValue
          || ValueType_eqb (type v) nullValue)
  | boolValue =>
      Ok (isNumeric v || ValueType_eqb (type v) boolValue
          || ValueType_eqb (type v) nullValue)
  | stringValue =>
      Ok (isNumeric v || ValueType_eqb (type v) boolValue
          || ValueType_eqb (type v) stringValue
          || ValueType_eqb (type v) nullValue)
  | arrayValue =>
      Ok (ValueType_eqb (type v) arrayValue || ValueType_eqb (type v) nullValue)
  | objectValue =>
      Ok (ValueType_eqb (type v) objectValue || ValueType_eqb (type v) nullValue)
  end.

End Text.

(** ** Access to the chars of a string *)

(** [const char* Value::asCString() const]: the chars behind the returned
    pointer, or [None] for a null pointer. *)
Definition asCString (v : Value) : Result (option chars) :=
  JSON_ASSERT_MESSAGE (ValueType_eqb (type v) stringValue)
    "in Json::Value::asCString(): requires stringValue" ;;;
  match payload v with
  | StringP allocated (Some buf) =>
      let (this_len, this_str) := decodePrefixedString allocated buf in
      Ok (Some this_str)
  | _ => Ok None
  end.

(** [unsigned Value::getCStringLength() const]. *)
Definition getCStringLength (v : Value) : Result N :=
  JSON_ASSERT_MESSAGE (ValueType_eqb (type v) stringValue)
    "in Json::Value::asCString(): requires stringValue" ;;;
  match payload v with
  | StringP allocated (Some buf) =>
      let (this_len, this_str) := decodePrefixedString allocated buf in
      Ok this_len
  | _ => Ok 0%N
  end.

(** [bool Value::getString(const char** begin, const char** end) const]:
    [None] is [return false], and [Some s] is [return true] with [s] the
    chars of the range from [*begin] to [*end]. *)
Definition getString (v : Value) : option chars :=
  match payload v with
  | StringP allocated (Some buf) =>
      let (length, begin) := decodePrefixedString allocated buf in
      Some (firstn (N.to_nat length) begin)
  | _ => None
  end.

(** ** Number of members *)

(** [uint32_t Value::size() const].  [itLast] is the entry before
    [end()], the one with the greatest key. *)
Definition size (v : Value) : N :=
  match payload v with
  | ArrayP v_map =>
      if negb (is_empty v_map) then
        match last (map (fun entry => Some (fst entry)) v_map) None with
        | Some itLast => to_uint32 (Z.of_N (m_index itLast) + 1)
        | None => 0%N
        end
      else 0%N
  | ObjectP v_map => to_uint32 (Z.of_nat (List.length v_map))
  | _ => 0%N
  end.

(** [bool Value::empty() const]. *)
Definition empty (v : Value) : bool :=
  if isNull v || isArray v || isObject v then (size v =? 0)%N else false.

(** ** Value::Comments *)

Inductive CommentPlacement :=
| commentBefore | commentAfterOnSameLine | commentAfter
| numberOfCommentPlacement.

Definition CommentPlacement_value (slot : CommentPlacement) : nat :=
  match slot with
  | commentBefore => 0
  | commentAfterOnSameLine => 1
  | commentAfter => 2
  | numberOfCommentPlacement => 3
  end.

(** [new Array()]: [numberOfCommentPlacement] empty strings. *)
Definition new_Array : list chars :=
  repeat [] (CommentPlacement_value numberOfCommentPlacement).

(** [array[slot] = comment]. *)
Fixpoint assign_slot (array : list chars) (slot : nat) (comment : chars)
  : list chars :=
  match array, slot with
  | [], _ => []
  | _ :: rest, O => comment :: rest
  | c :: rest, S slot' => c :: assign_slot rest slot' comment
  end.

(** [bool Comments::has(CommentPlacement slot) const].  A slot outside the
    array (only [numberOfCommentPlacement] is) reads past it; the model
    finds an empty string there. *)
Definition Comments_has (this : Comments) (slot : CommentPlacement) : bool :=
  match this with
  | Some array => negb (is_empty (nth (CommentPlacement_value slot) array []))
  | None => false
  end.

(** [std::string Comments::get(CommentPlacement slot) const]. *)
Definition Comments_get (this : Comments) (slot : CommentPlacement) : chars :=
  match this with
  | None => []
  | Some array => nth (CommentPlacement_value slot) array []
  end.

(** [void Comments::set(CommentPlacement slot, std::string comment)]. *)
Definition Comments_set (this : Comments) (slot : CommentPlacement)
  (comment : chars) : Comments :=
  if Nat.leb (CommentPlacement_value numberOfCommentPlacement)
       (CommentPlacement_value slot)
  then this
  else
    let array := match this with None => new_Array | Some array => array end in
    Some (assign_slot array (CommentPlacement_value slot) comment).

(** [explicit Value::operator bool() const]. *)
Definition operator_bool (v : Value) : bool := negb (isNull v).

End Json.
Export Json.

(* ===================================================================== *)
(** * Notions used to state the properties                                *)
(* ===================================================================== *)

Module Spec.

(** ** Decimal numerals *)

Definition is_digit (c : ascii) : bool :=
  (N_of_ascii "0" <=? N_of_ascii c)%N && (N_of_ascii c <=? N_of_ascii "9")%N.

Definition digit_value (c : ascii) : Z := Z.of_N (N_of_ascii c) - 48.

(** The number written by a row of digits, most significant first. *)
Definition digits_value (ds : chars) : Z :=
  fold_left (fun acc c => 10 * acc + digit_value c) ds 0.

(** The integer a decimal numeral denotes: an optional minus sign and at
    least one digit. *)
Definition decimal_value (s : chars) : option Z :=
  let body ds :=
    match ds with
    | [] => None
    | _ => if forallb is_digit ds then Some (digits_value ds) else None
    end in
  match s with
  | [] => None
  | c :: ds => if Ascii.eqb c "-" then option_map Z.opp (body ds) else body s
  end.

(** The numeral is the shortest one: no leading zero except for ["0"]
    itself, and no ["-0"]. *)
Definition canonical_decimal (s : chars) : bool :=
  match s with
  | [] => false
  | c :: rest =>
      if Ascii.eqb c "-" then
        match rest with
        | [] => false
        | d :: _ => negb (Ascii.eqb d "0")
        end
      else negb (Ascii.eqb c "0") || match rest with [] => true | _ => false end
  end.

(** ** Scalar variants *)

Definition is_scalar (t : ValueType) : bool :=
  match t with
  | intValue | uintValue | realValue | boolValue | stringValue => true
  | _ => false
  end.

(** ** Tokens for the non-finite doubles *)

Definition special_token (useSpecialFloats : bool) (value : double) : string :=
  match value, useSpecialFloats with
  | S754_nan, true => "NaN"
  | S754_infinity true, true => "-Infinity"
  | S754_infinity false, true => "Infinity"
  | S754_nan, false => "null"
  | S754_infinity true, false => "-1e+9999"
  | S754_infinity false, false => "1e+9999"
  | _, _ => ""
  end.

(** ** Name keys *)

(** The key an object member named [name] is stored under: a private,
    NUL-terminated copy of the name and its length. *)
Definition name_key (name : string) : CZString :=
  CZString_name (Some (str name ++ [NUL])) (N.of_nat (String.length name))
    duplicate.

(** ** Well-formed payloads: the ranges of the C++ types. *)
Definition wf_payload (v : Value) : Prop :=
  match payload v with
  | IntP z => minInt64 <= z <= maxInt64
  | UIntP u => (u < 2 ^ 64)%N
  | RealP d => valid_double d = true
  | _ => True
  end.

(** ** Magnitude of a double *)

(** [x] has the sign [s] and is an infinity or a finite double
    [m * 2^e] with at least [lo] binary digits above the binary point,
    that is [2^(lo - 1) <= |x|]. *)
Definition magnitude_at_least (lo : Z) (s : bool) (x : spec_float) : Prop :=
  match x with
  | S754_infinity s' => s' = s
  | S754_finite s' m e => s' = s /\ lo <= Zpos (digits2_pos m) + e
  | _ => False
  end.

Definition is_zero (d : double) : bool :=
  match d with S754_zero _ => true | _ => false end.

(** The value of a numeric payload is zero. *)
Definition numeric_is_zero (v : Value) : bool :=
  match payload v with
  | IntP z => z =? 0
  | UIntP u => (u =? 0)%N
  | RealP d => is_zero d
  | _ => false
  end.

(** ** Exact value of a double *)

(** [d] is exactly the integer [r]. *)
Definition double_is_Z (d : double) (r : Z) : Prop :=
  match d with
  | S754_zero _ => r = 0
  | S754_finite s m e =>
      if 0 <=? e then r = cond_Zopp s (Zpos m * 2 ^ e)
      else r * 2 ^ (- e) = cond_Zopp s (Zpos m)
  | _ => False
  end.

(** The 32-bit integer [r] represents the payload of [v] without loss. *)
Definition represents (v : Value) (r : Z) : Prop :=
  match payload v with
  | IntP z => r = z
  | UIntP u => r = Z.of_N u
  | RealP d => double_is_Z d r
  | BoolP b => r = if b then 1 else 0
  | NullP => r = 0
  | _ => False
  end.

Definition fits_int32 (r : Z) : Prop := minInt <= r <= maxInt.

Definition fits_int64 (r : Z) : Prop := minInt64 <= r <= maxInt64.

(** ** The shape of fixed notation *)

(** What ["%.*f"] prints for a finite double is
    [sign ++ int_part ++ sep :: frac_part], or [sign ++ int_part] when the
    precision is zero: an optional minus sign, at least one digit and,
    when the precision is not zero, a decimal separator (['.'], or [',']
    in some locales) followed by exactly [precision] digits. *)
Definition fixed_parts (precision : N) (sign int_part : chars) (sep : ascii)
  (frac_part : chars) : Prop :=
  (sign = [] \/ sign = ["-"%char]) /\
  int_part <> [] /\
  forallb is_digit int_part = true /\
  (sep = "."%char \/ sep = ","%char) /\
  forallb is_digit frac_part = true /\
  List.length frac_part = N.to_nat precision.

Definition fixed_text_of (precision : N) (sign int_part : chars) (sep : ascii)
  (frac_part : chars) : chars :=
  sign ++ int_part ++ (if (precision =? 0)%N then [] else sep :: frac_part).

(** The number of decimals that ["%.*f"] prints when [valueToString]
    hands it the [unsigned] [precision]: ["%.*"] reads an [int], which is
    [precision] itself up to 2^31 - 1 and is negative from 2^31 on, where
    the conversion goes on as if no precision were given, with 6. *)
Definition decimals_read (precision : N) : N :=
  Printf.precision_read (to_int32 (Z.of_N precision)).

Fixpoint drop_zeros (ds : chars) : chars :=
  match ds with
  | c :: ds' => if Ascii.eqb c "0" then drop_zeros ds' else ds
  | [] => []
  end.

(** The digits after the point, without their trailing zeros... *)
Definition strip_trailing_zeros (ds : chars) : chars :=
  rev (drop_zeros (rev ds)).

(** ... but with one zero kept when nothing else is left. *)
Definition kept_fraction (ds : chars) : chars :=
  match strip_trailing_zeros ds with
  | [] => ["0"%char]
  | kept => kept
  end.

(** ** Keys of one kind *)

(** Every array of the value, at any depth, is keyed by indices (no
    pointer) and every object by names (a pointer), as the containers of
    a value are. *)
Fixpoint keys_wf (v : Value) : bool :=
  match v with
  | mkValue (ArrayP v_map) _ _ _ =>
      forallb (fun entry => is_null (m_cstr (fst entry)) && keys_wf (snd entry))
        v_map
  | mkValue (ObjectP v_map) _ _ _ =>
      forallb (fun entry =>
                 negb (is_null (m_cstr (fst entry))) && keys_wf (snd entry))
        v_map
  | _ => true
  end.

(** Two comparisons, one in each direction, that both return and are not
    both true. *)
Definition one_way (ab ba : Result bool) : Prop :=
  exists r r', ab = Ok r /\ ba = Ok r' /\ r && r' = false.

(** ** Comment arrays *)

(** The array behind a [Comments], when there is one, has its three
    slots. *)
Definition Comments_wf (this : Comments) : Prop :=
  match this with
  | None => True
  | Some array =>
      List.length array = CommentPlacement_value numberOfCommentPlacement
  end.

(** ** Outcome of a call *)

(** The call returned, rather than raised. *)
Definition returns {A} (r : Result A) : bool :=
  match r with Ok _ => true | Throw _ => false end.

(** ** The order of byte strings *)

(** The lexicographic order of two byte strings, each byte taken as an
    [unsigned char]; a strict prefix comes first. *)
Fixpoint bytes_lt (a b : chars) : bool :=
  match a, b with
  | _, [] => false
  | [], _ :: _ => true
  | x :: a', y :: b' =>
      (uchar x <? uchar y)%N || ((uchar x =? uchar y)%N && bytes_lt a' b')
  end.

End Spec.
Export Spec.

(* ===================================================================== *)
(** * Integers to text                                                    *)
(* ===================================================================== *)

Section IntegerText.

Import Utils.

Lemma poke_length l i c : List.length (poke l i c) = List.length l.
Proof.
  revert i; induction l as [| x l IH]; intros [| i]; simpl; auto.
Qed.

Lemma skipn_poke l i c :
  (i < List.length l)%nat -> skipn i (poke l i c) = c :: skipn (S i) l.
Proof.
  revert i; induction l as [| x l IH]; intros [| i] H; simpl in *; try lia.
  - reflexivity.
  - apply IH. lia.
Qed.

Lemma store_before_tail c b :
  1 <= current b <= Z.of_nat (List.length (data b)) ->
  tail_of (store_before c b) = c :: tail_of b /\
  current (store_before c b) = current b - 1 /\
  List.length (data (store_before c b)) = List.length (data b).
Proof.
  intros H. unfold tail_of, store_before; simpl.
  destruct (Z.leb_spec 0 (current b - 1)); [| lia].
  rewrite poke_length, skipn_poke by lia.
  replace (S (Z.to_nat (current b - 1))) with (Z.to_nat (current b)) by lia.
  auto.
Qed.

Lemma poke_or_same_length c b :
  List.length (data (store_before c b)) = List.length (data b).
Proof.
  unfold store_before; simpl.
  destruct (0 <=? current b - 1); [apply poke_length | reflexivity].
Qed.

Lemma uintToString_loop_length value b :
  List.length (data (uintToString_loop value b)) = List.length (data b).
Proof.
  funelim (uintToString_loop value b).
  - apply poke_or_same_length.
  - rewrite H. apply poke_or_same_length.
Qed.

Lemma digit_char_spec v :
  is_digit (digit_char v) = true /\
  digit_value (digit_char v) = Z.of_N (v mod 10).
Proof.
  assert (H : (v mod 10 < 10)%N) by (apply N.mod_lt; lia).
  unfold digit_char, is_digit, digit_value.
  generalize dependent (v mod 10)%N. intros r H.
  rewrite N_ascii_embedding
    by (change (N_of_ascii "0") with 48%N; lia).
  change (N_of_ascii "0") with 48%N. change (N_of_ascii "9") with 57%N.
  split; [| lia].
  apply andb_true_iff; split; apply N.leb_le; lia.
Qed.

Lemma digits_value_app ds c :
  digits_value (ds ++ [c]) = 10 * digits_value ds + digit_value c.
Proof. unfold digits_value. rewrite fold_left_app. reflexivity. Qed.

(** The loop writes the digits of [value] in front of what the buffer
    held, as long as [k] slots are free and [value] has at most [k]
    digits. *)
Lemma uintToString_loop_spec value b :
  forall k, (0 < k)%nat ->
    Z.of_N value < 10 ^ Z.of_nat k ->
    Z.of_nat k <= current b <= Z.of_nat (List.length (data b)) ->
    exists ds,
      tail_of (uintToString_loop value b) = ds ++ tail_of b /\
      current (uintToString_loop value b) = current b - Z.of_nat (List.length ds) /\
      (1 <= List.length ds <= k)%nat /\
      forallb is_digit ds = true /\
      digits_value ds = Z.of_N value /\
      (hd "0"%char ds = "0"%char -> value = 0%N /\ ds = ["0"%char]).
Proof.
  funelim (uintToString_loop value b); intros k Hk Hv Hb.
  - (* last digit *)
    clear Heqcall.
    destruct (store_before_tail (digit_char value) b) as (Ht & Hc & _); [lia |].
    destruct (digit_char_spec value) as (Hd & Hval).
    assert (Hsmall : (value mod 10 = value)%N).
    { apply N.mod_small. apply (N.div_small_iff value 10); [lia | exact e]. }
    exists [digit_char value]. simpl.
    split; [exact Ht |].
    split; [lia |].
    split; [lia |].
    split; [rewrite Hd; reflexivity |].
    split; [unfold digits_value; simpl; rewrite Hval, Hsmall; lia |].
    intros H0. rewrite H0 in Hval |- *.
    unfold digit_value in Hval. simpl in Hval.
    split; [lia | reflexivity].
  - (* more digits to come *)
    clear Heqcall.
    destruct (store_before_tail (digit_char value) b) as (Ht & Hc & Hl); [lia |].
    destruct (digit_char_spec value) as (Hd & Hval).
    assert (Hdiv : (value = 10 * N.pos q + value mod 10)%N).
    { rewrite <- e. apply N.div_mod. lia. }
    assert (Hmod : (value mod 10 < 10)%N) by (apply N.mod_lt; lia).
    generalize dependent (value mod 10)%N. intros r Hval Hdiv Hmod.
    destruct k as [| [| k']]; [lia | |].
    { change (10 ^ Z.of_nat 1) with 10 in Hv. lia. }
    specialize (H (S k')).
    destruct H as (ds & Hds & Hcur & Hlen & Hdig & Hvalq & Hhd).
    + lia.
    + replace (Z.of_nat (S (S k'))) with (Z.of_nat (S k') + 1) in Hv by lia.
      rewrite Z.pow_add_r in Hv by lia. lia.
    + rewrite Hc, Hl. lia.
    + exists (ds ++ [digit_char value]).
      rewrite Hds, Ht, Hcur, Hc, <- app_assoc, length_app. simpl.
      split; [reflexivity |].
      split; [lia |].
      split; [lia |].
      split; [rewrite forallb_app, Hdig; simpl; rewrite Hd; reflexivity |].
      split; [rewrite digits_value_app, Hvalq, Hval; lia |].
      destruct ds as [| d ds']; [simpl in Hlen; lia |].
      simpl in *. intros Hzero. destruct (Hhd Hzero) as [Hq _]. discriminate Hq.
Qed.

Lemma c_str_digits ds rest :
  forallb is_digit ds = true -> c_str (ds ++ NUL :: rest) = ds.
Proof.
  induction ds as [| c ds IH]; simpl; intros H.
  - reflexivity.
  - apply andb_true_iff in H as [Hc Hds].
    destruct (Ascii.eqb_spec c NUL) as [-> | _]; [discriminate Hc |].
    rewrite IH by exact Hds. reflexivity.
Qed.

(** [uintToString] on the fresh 25-char buffer: the digits of any 64-bit
    value fit, with room left for a sign. *)
Lemma uintToString_fresh value :
  (value < 2 ^ 64)%N ->
  exists ds,
    tail_of (uintToString value fresh_buffer) = ds ++ [NUL] /\
    1 <= current (uintToString value fresh_buffer)
      <= Z.of_nat (List.length (data (uintToString value fresh_buffer))) /\
    ds <> [] /\
    forallb is_digit ds = true /\
    digits_value ds = Z.of_N value /\
    (hd "0"%char ds = "0"%char -> value = 0%N /\ ds = ["0"%char]).
Proof.
  intros Hv. unfold uintToString.
  destruct (store_before_tail NUL fresh_buffer) as (Ht & Hc & Hl).
  { vm_compute. split; discriminate. }
  set (b := store_before NUL fresh_buffer) in *.
  change (tail_of fresh_buffer) with (@nil ascii) in Ht.
  change (current fresh_buffer) with 25 in Hc.
  change (List.length (data fresh_buffer)) with 25%nat in Hl.
  destruct (@uintToString_loop_spec value b 20%nat) as
    (ds & Hds & Hcur & Hlen & Hdig & Hval & Hhd).
  - lia.
  - change (10 ^ Z.of_nat 20) with 100000000000000000000.
    change (2 ^ 64)%N with 18446744073709551616%N in Hv. lia.
  - rewrite Hc, Hl. lia.
  - exists ds. rewrite Hds, Ht, Hcur, Hc.
    split; [reflexivity |].
    split.
    { rewrite uintToString_loop_length, Hl. lia. }
    split; [destruct ds; [simpl in Hlen; lia | discriminate] |].
    auto.
Qed.

Lemma digits_not_minus c ds :
  forallb is_digit (c :: ds) = true -> Ascii.eqb c "-" = false.
Proof.
  simpl. intros H. apply andb_true_iff in H as [Hc _].
  destruct (Ascii.eqb_spec c "-") as [-> | _]; [discriminate Hc | reflexivity].
Qed.

Lemma decimal_value_digits ds :
  ds <> [] -> forallb is_digit ds = true ->
  decimal_value ds = Some (digits_value ds).
Proof.
  intros Hne Hd. destruct ds as [| c ds]; [contradiction |].
  unfold decimal_value. rewrite (digits_not_minus _ _ Hd), Hd. reflexivity.
Qed.

Lemma decimal_value_minus ds :
  ds <> [] -> forallb is_digit ds = true ->
  decimal_value ("-"%char :: ds) = Some (- digits_value ds).
Proof.
  intros Hne Hd. destruct ds as [| c ds]; [contradiction |].
  unfold decimal_value. rewrite Ascii.eqb_refl, Hd. reflexivity.
Qed.

Lemma canonical_digits ds :
  ds <> [] -> forallb is_digit ds = true ->
  (hd "0"%char ds = "0"%char -> ds = ["0"%char]) ->
  canonical_decimal ds = true.
Proof.
  intros Hne Hd Hhd. destruct ds as [| c ds]; [contradiction |].
  unfold canonical_decimal. rewrite (digits_not_minus _ _ Hd).
  destruct (Ascii.eqb_spec c "0") as [-> | _]; [| reflexivity].
  injection (Hhd eq_refl) as ->. reflexivity.
Qed.

Lemma canonical_minus ds :
  ds <> [] -> hd "0"%char ds <> "0"%char ->
  canonical_decimal ("-"%char :: ds) = true.
Proof.
  intros Hne Hhd. destruct ds as [| c ds]; [contradiction |].
  unfold canonical_decimal. rewrite Ascii.eqb_refl.
  simpl in Hhd. destruct (Ascii.eqb_spec c "0"); [contradiction | reflexivity].
Qed.

(** A negative value: the digits of its magnitude behind a minus sign. *)
Lemma signed_text (magnitude : N) (n : Z) :
  (magnitude < 2 ^ 64)%N -> n = - Z.of_N magnitude -> n < 0 ->
  let b := store_before "-"%char (uintToString magnitude fresh_buffer) in
  exists s, (JSON_ASSERT (0 <=? current b) ;;; Ok (string_at b)) = Ok s /\
            decimal_value s = Some n /\ canonical_decimal s = true.
Proof.
  intros Hm Hn Hneg b.
  destruct (uintToString_fresh Hm) as (ds & Ht & Hc & Hne & Hd & Hv & Hhd).
  destruct (store_before_tail "-"%char (uintToString magnitude fresh_buffer))
    as (Ht' & Hc' & _); [exact Hc |].
  fold b in Ht', Hc'.
  exists ("-"%char :: ds).
  assert (Hs : c_str ("-"%char :: ds ++ [NUL]) = "-"%char :: ds).
  { simpl. rewrite c_str_digits by exact Hd. reflexivity. }
  unfold string_at. rewrite Ht', Ht, Hc', Hs.
  destruct (Z.leb_spec 0 (current (uintToString magnitude fresh_buffer) - 1));
    [| lia].
  split; [reflexivity |].
  split.
  - rewrite decimal_value_minus, Hv by assumption. f_equal. lia.
  - apply canonical_minus; [exact Hne |].
    intros H0. destruct (Hhd H0) as [Hz _]. lia.
Qed.

(** C9. For every signed 64-bit integer [n], [valueToString(n)] returns
    (without tripping its assertion) the decimal numeral of [n]: a text
    that denotes exactly [n] and is in shortest form, with a minus sign
    for the negative values.  The most negative integer goes through the
    unsigned magnitude [uint64_t(maxInt64) + 1]. *)
Theorem valueToString_int64_exact (n : Z) :
  minInt64 <= n <= maxInt64 ->
  exists s,
    valueToString_int64 n = Ok s /\
    decimal_value s = Some n /\
    canonical_decimal s = true.
Proof.
  unfold minInt64, maxInt64. intros Hn. unfold valueToString_int64.
  change (2 ^ 63) with 9223372036854775808 in Hn.
  destruct (Z.eqb_spec n minInt64) as [Hmin | Hmin].
  - apply signed_text.
    + vm_compute. reflexivity.
    + subst n. vm_compute. reflexivity.
    + subst n. vm_compute. reflexivity.
  - unfold minInt64 in Hmin. change (2 ^ 63) with 9223372036854775808 in Hmin.
    destruct (Z.ltb_spec n 0) as [Hneg | Hpos].
    + assert (Hu : Z.of_N (to_uint64 (- n)) = - n).
      { unfold to_uint64, wrap_unsigned. rewrite Z2N.id by (apply Z.mod_pos_bound; lia).
        apply Z.mod_small. change (2 ^ 64) with 18446744073709551616. lia. }
      apply signed_text; [| lia | lia].
      change (2 ^ 64)%N with 18446744073709551616%N. lia.
    + assert (Hu : Z.of_N (to_uint64 n) = n).
      { unfold to_uint64, wrap_unsigned. rewrite Z2N.id by (apply Z.mod_pos_bound; lia).
        apply Z.mod_small. change (2 ^ 64) with 18446744073709551616. lia. }
      destruct (@uintToString_fresh (to_uint64 n))
        as (ds & Ht & Hc & Hne & Hd & Hv & Hhd).
      { change (2 ^ 64)%N with 18446744073709551616%N. lia. }
      exists ds. unfold string_at. rewrite Ht, c_str_digits by exact Hd.
      destruct (Z.leb_spec 0 (current (uintToString (to_uint64 n) fresh_buffer)));
        [| lia].
      split; [reflexivity |].
      split.
      * rewrite decimal_value_digits by assumption. congruence.
      * apply canonical_digits; try assumption.
        intros H0. apply (Hhd H0).
Qed.

(** The most negative integer, evaluated. *)
Example valueToString_int64_min :
  valueToString_int64 (-9223372036854775808) = Ok (str "-9223372036854775808").
Proof. vm_compute. reflexivity. Qed.

Lemma valueToString_int64_exact_witness :
  exists s,
    valueToString_int64 (-9223372036854775808) = Ok s /\
    decimal_value s = Some (-9223372036854775808) /\
    canonical_decimal s = true.
Proof.
  apply valueToString_int64_exact. unfold minInt64, maxInt64. lia.
Defined.

End IntegerText.

(* ===================================================================== *)
(** * Boolean context and the non-finite doubles                          *)
(* ===================================================================== *)

Section Simple.

Lemma ValueType_eqb_eq a b : ValueType_eqb a b = true <-> a = b.
Proof. destruct a, b; simpl; split; (reflexivity || discriminate). Qed.

(** C10. The explicit conversion of a [Value] to [bool] is true exactly
    when the value is not null; boolean false, integer zero and the empty
    string, array and object all convert to true, and only a null value
    converts to false. *)
Theorem operator_bool_iff_not_null :
  (forall v, operator_bool v = true <-> type v <> nullValue) /\
  (forall v, operator_bool v = false <-> type v = nullValue) /\
  operator_bool (Value_of_bool false) = true /\
  operator_bool (Value_of_int64 0) = true /\
  operator_bool (Value_of_type stringValue) = true /\
  operator_bool (Value_of_type arrayValue) = true /\
  operator_bool (Value_of_type objectValue) = true /\
  operator_bool (Value_of_type nullValue) = false.
Proof.
  split; [| split; [| repeat split]].
  - intros v. unfold operator_bool, isNull.
    destruct (type v); simpl; split; intros H; congruence.
  - intros v. unfold operator_bool, isNull.
    destruct (type v); simpl; split; intros H; congruence.
Qed.

(** C8. For a non-finite double, [valueToString] returns one fixed token,
    whatever the precision and the precision type: with
    [useSpecialFloats] it is "NaN", "-Infinity" or "Infinity", without it
    "null", "-1e+9999" or "1e+9999". *)
Theorem valueToString_non_finite format_double value useSpecialFloats
    precision precisionType :
  isfinite value = false ->
  Utils.valueToString_double format_double value useSpecialFloats precision
    precisionType
  = Ok (str (special_token useSpecialFloats value)).
Proof.
  intros Hnf. unfold Utils.valueToString_double. rewrite Hnf.
  destruct value as [s | s | | s m e]; try discriminate Hnf;
    try destruct s; destruct useSpecialFloats; reflexivity.
Qed.

Lemma valueToString_non_finite_witness :
  Utils.valueToString_double Printf.format_double (S754_infinity true)
    false 17 significantDigits
  = Ok (str "-1e+9999").
Proof.
  apply (@valueToString_non_finite Printf.format_double
           (S754_infinity true) false 17%N significantDigits).
  reflexivity.
Defined.

End Simple.

(* ===================================================================== *)
(** * Moving a Value                                                      *)
(* ===================================================================== *)

Section Moves.

(** C4, as the code has it.  Move construction hands the whole state of
    the source to the new value and leaves the source null, without
    comments and with offsets (0, 0).  Move assignment exchanges the two
    values: the destination receives the state of the source, and the
    source is left holding what the destination held before. *)
Theorem move_transfers_and_exchanges (this other : Value) :
  Value_move other = (other, initBasic nullValue false) /\
  Value_move_assign this other = (other, this).
Proof. destruct this, other. split; reflexivity. Qed.

(** C4 as stated fails for move assignment: after [a = std::move(b)] with
    [a] holding 1 and [b] holding 2, [b] holds 1 and is not null. *)
Lemma move_assign_source_not_null :
  fst (Value_move_assign (Value_of_int64 1) (Value_of_int64 2))
    = Value_of_int64 2 /\
  snd (Value_move_assign (Value_of_int64 1) (Value_of_int64 2))
    = Value_of_int64 1 /\
  isNull (snd (Value_move_assign (Value_of_int64 1) (Value_of_int64 2)))
    = false.
Proof. repeat split. Qed.

End Moves.

(* ===================================================================== *)
(** * Keys                                                                *)
(* ===================================================================== *)

Section Keys.

(** C1, evaluated on the code.  "a" is a strict prefix of "ab"; the
    comparison over the shared first byte finds no difference and
    [operator<] answers false in both directions, while [operator==]
    answers false as well: the length never breaks the tie. *)
Theorem CZString_lt_prefix_not_less :
  CZString_lt (name_key "a") (name_key "ab") = Ok false /\
  CZString_lt (name_key "ab") (name_key "a") = Ok false /\
  CZString_eq (name_key "a") (name_key "ab") = Ok false.
Proof. repeat split. Qed.

(** For two name keys [operator<] is the sign test of [memcmp] over the
    shorter stored length, and nothing else. *)
Lemma CZString_lt_is_memcmp this_str other_str this_word other_word :
  CZString_lt {| m_cstr := Some this_str; m_word := this_word |}
              {| m_cstr := Some other_str; m_word := other_word |}
  = Ok (memcmp this_str other_str
          (N.to_nat (N.min (N.shiftr this_word 2) (N.shiftr other_word 2))) <? 0).
Proof.
  unfold CZString_lt, storage_length; simpl.
  destruct (memcmp _ _ _ <? 0); reflexivity.
Qed.

(** A name key keeps its length modulo 2^30 (the thirty bits of the
    field) and its policy. *)
Lemma CZString_name_storage cstr length allocate :
  storage_length (CZString_name cstr length allocate) = (length mod 2 ^ 30)%N /\
  storage_policy (CZString_name cstr length allocate)
    = DuplicationPolicy_value allocate.
Proof.
  unfold storage_length, storage_policy, CZString_name, storage_word.
  cbn [m_word].
  change 1073741823%N with (N.ones 30). rewrite N.land_ones.
  set (len := (length mod 2 ^ 30)%N).
  assert (Hp : N.land (DuplicationPolicy_value allocate) 3
               = DuplicationPolicy_value allocate)
    by (destruct allocate; reflexivity).
  rewrite Hp. split.
  - rewrite N.shiftr_lor, N.shiftr_shiftl_l by lia.
    change (2 - 2)%N with 0%N. rewrite N.shiftl_0_r.
    destruct allocate; reflexivity.
  - rewrite N.land_lor_distr_l.
    assert (Hz : N.land (N.shiftl len 2) 3 = 0%N).
    { change 3%N with (N.ones 2). rewrite N.land_ones, N.shiftl_mul_pow2.
      apply N.Div0.mod_mul. }
    rewrite Hz, N.lor_0_r. destruct allocate; reflexivity.
Qed.

End Keys.

(* ===================================================================== *)
(** * Equality of scalar values                                           *)
(* ===================================================================== *)

Section Equality.

Lemma SFltb_irrefl (x : spec_float) : SFltb x x = false.
Proof.
  unfold SFltb. destruct x as [s | s | | s m e]; simpl; try reflexivity.
  - destruct s; reflexivity.
  - destruct s; rewrite Z.compare_refl, Pos.compare_cont_refl; reflexivity.
Qed.

Lemma memcmp_refl s n : memcmp s s n = 0.
Proof.
  revert s; induction n as [| n IH]; intros [| c s]; simpl; try reflexivity.
  rewrite N.ltb_irrefl. apply IH.
Qed.

Lemma string_less_irrefl allocated v_string :
  string_less allocated v_string allocated v_string = Ok false.
Proof.
  destruct v_string as [buf |]; simpl; [| reflexivity].
  destruct (decodePrefixedString allocated buf) as [len s].
  rewrite memcmp_refl. simpl. rewrite N.ltb_irrefl. reflexivity.
Qed.

(** C2. For two values of the same scalar variant, [operator==] returns
    what [operator<] returns, not equality; when the two payloads are
    equal (as in [v == v]) it returns false.  For two null values it
    returns true. *)
Theorem Value_eq_scalar_is_less (a b : Value) :
  type a = type b ->
  (is_scalar (type a) = true ->
     Value_eq a b = Value_lt a b /\
     (payload a = payload b -> Value_eq a b = Ok false)) /\
  (type a = nullValue -> Value_eq a b = Ok true).
Proof.
  intros Ht. split.
  - intros Hs. split.
    + destruct a as [[] ? ? ?], b as [[] ? ? ?];
        try discriminate Ht; try discriminate Hs; reflexivity.
    + intros Hp. destruct a as [pa ? ? ?], b as [pb ? ? ?].
      simpl in Hp. subst pb.
      destruct pa; try discriminate Hs; unfold Value_eq; simpl.
      * rewrite Z.ltb_irrefl. reflexivity.
      * rewrite N.ltb_irrefl. reflexivity.
      * unfold dlt. rewrite SFltb_irrefl. reflexivity.
      * apply string_less_irrefl.
      * destruct v_bool; reflexivity.
  - intros Hn.
    destruct a as [[] ? ? ?], b as [[] ? ? ?];
      try discriminate Ht; try discriminate Hn; reflexivity.
Qed.

Lemma Value_eq_scalar_is_less_witness :
  Value_eq (Value_of_int64 7) (Value_of_int64 7) = Ok false /\
  Value_eq (Value_of_int64 7) (Value_of_int64 7)
    = Value_lt (Value_of_int64 7) (Value_of_int64 7) /\
  Value_eq (Value_of_type nullValue) (Value_of_type nullValue) = Ok true.
Proof.
  pose proof (@Value_eq_scalar_is_less (Value_of_int64 7) (Value_of_int64 7)
                eq_refl) as [Hs _].
  pose proof (@Value_eq_scalar_is_less (Value_of_type nullValue)
                (Value_of_type nullValue) eq_refl) as [_ Hn].
  destruct (Hs eq_refl) as [Hlt Heq].
  split; [exact (Heq eq_refl) |].
  split; [exact Hlt | exact (Hn eq_refl)].
Defined.

End Equality.

(* ===================================================================== *)
(** * Duplicating string buffers                                          *)
(* ===================================================================== *)

Section Duplication.

Variable new_chars : N -> bool.

Lemma duplicateStringValue_kept value length :
  new_chars (N.min length (2 ^ 31 - 2) + 1)%N = true ->
  duplicateStringValue new_chars value length
  = Ok (firstn (N.to_nat (N.min length (2 ^ 31 - 2))) value ++ [NUL]).
Proof.
  unfold duplicateStringValue.
  change (Z.to_N maxInt - 1)%N with 2147483646%N.
  change (Z.to_N maxInt) with 2147483647%N.
  change (2 ^ 31 - 2)%N with 2147483646%N.
  destruct (N.leb_spec 2147483647 length) as [H | H].
  - rewrite N.min_r by lia. intros ->. reflexivity.
  - rewrite N.min_l by lia. intros ->. reflexivity.
Qed.

Lemma duplicateAndPrefixStringValue_limit value length :
  new_chars (4 + length + 1)%N = true ->
  duplicateAndPrefixStringValue new_chars value length
  = if (length <=? 2 ^ 31 - 6)%N
    then Ok (Prefixed length (firstn (N.to_nat length) value ++ [NUL]))
    else Throw (LogicError
      "in Json::Value::duplicateAndPrefixStringValue(): length too big for prefixing").
Proof.
  unfold duplicateAndPrefixStringValue.
  change (Z.to_N maxInt - 4 - 1)%N with 2147483642%N.
  change (2 ^ 31 - 6)%N with 2147483642%N.
  intros Hnew.
  destruct (length <=? 2147483642)%N;
    unfold JSON_ASSERT_MESSAGE, bind, throwLogicError;
    [rewrite Hnew |]; reflexivity.
Qed.







End Duplication.



(* ===================================================================== *)
(** * Doubles to text, decimal places                                     *)
(* ===================================================================== *)

Section DecimalPlaces.

Import Utils.

Lemma resize_exact (l rest : chars) :
  resize (l ++ rest) (List.length l) = l.
Proof.
  unfold resize. rewrite firstn_app, firstn_all, Nat.sub_diag, length_app.
  simpl. replace (List.length l - (List.length l + List.length rest))%nat
    with 0%nat by lia.
  simpl. rewrite !app_nil_r. reflexivity.
Qed.

Lemma store_text_room text buffer :
  (List.length text < List.length buffer)%nat ->
  store_text buffer text = text ++ NUL :: skipn (S (List.length text)) buffer.
Proof.
  intros Hroom. unfold store_text. rewrite firstn_all2 by lia.
  destruct (Nat.eqb_spec (List.length buffer) 0); [lia |].
  rewrite <- app_assoc, length_app. simpl.
  replace (List.length text + 1)%nat with (S (List.length text)) by lia.
  reflexivity.
Qed.

Lemma store_text_length text buffer :
  List.length (store_text buffer text) = List.length buffer.
Proof.
  unfold store_text.
  rewrite ?length_app, ?length_skipn, ?length_app, ?length_firstn.
  destruct (Nat.eqb_spec (List.length buffer) 0); simpl; lia.
Qed.

(** [snprintf] reports an error when the C library does, and when the
    text has more chars than an [int] can count. *)
Lemma snprintf_int_negative result :
  snprintf_int result < 0 <->
  match result with
  | Some text => INT_MAX < Z.of_nat (List.length text)
  | None => True
  end.
Proof.
  unfold snprintf_int. destruct result as [text |]; [| split; [auto | lia]].
  destruct (Z.leb_spec (Z.of_nat (List.length text)) INT_MAX); lia.
Qed.

(** The loop ends, at the latest on its second turn: with a logic error
    when [snprintf] reports an error, and with the whole text in the
    buffer otherwise. *)
Lemma print_loop_outcome result buffer :
  print_loop result buffer
  = match result with
    | Some text =>
        if Z.of_nat (List.length text) <=? INT_MAX then Ok text
        else Throw (LogicError "assert json failed")
    | None => Throw (LogicError "assert json failed")
    end.
Proof.
  funelim (print_loop result buffer).
  - clear H Heqcall. apply Z.leb_gt in e0.
    destruct result as [text |]; [| reflexivity].
    unfold snprintf_int in e0.
    destruct (Z.leb_spec (Z.of_nat (List.length text)) INT_MAX);
      [lia | reflexivity].
  - assumption.
  - clear Heqcall H H0.
    destruct result as [text |]; [| cbv in e0; discriminate e0].
    rewrite e0 in *. unfold snprintf_int in *.
    destruct (Z.of_nat (List.length text) <=? INT_MAX); [| discriminate e0].
    rewrite Nat2Z.id in *.
    apply Nat.leb_gt in e1. rewrite store_text_length in e1.
    rewrite store_text_room by exact e1.
    rewrite (resize_exact text (NUL :: _)). reflexivity.
Qed.

Lemma print_loop_fails result buffer :
  snprintf_int result < 0 ->
  print_loop result buffer = Throw (LogicError "assert json failed").
Proof.
  intros H. apply snprintf_int_negative in H. rewrite print_loop_outcome.
  destruct result as [text |]; [| reflexivity].
  destruct (Z.leb_spec (Z.of_nat (List.length text)) INT_MAX);
    [lia | reflexivity].
Qed.

Lemma print_loop_whole text buffer :
  0 <= snprintf_int (Some text) ->
  print_loop (Some text) buffer = Ok text.
Proof.
  intros H. rewrite print_loop_outcome. unfold snprintf_int in H.
  destruct (Z.leb_spec (Z.of_nat (List.length text)) INT_MAX);
    [reflexivity | lia].
Qed.

Lemma fixNumericLocale_map buf begin :
  fixNumericLocale buf begin = (map fix_char buf, (begin + List.length buf)%nat).
Proof.
  revert begin; induction buf as [| c buf IH]; intros begin; simpl.
  - rewrite Nat.add_0_r. reflexivity.
  - rewrite IH. f_equal. lia.
Qed.

Lemma erase_nothing buf : erase buf (List.length buf) (List.length buf) = buf.
Proof.
  unfold erase. rewrite firstn_all, skipn_all. apply app_nil_r.
Qed.

Lemma erase_tail buf n : erase buf n (List.length buf) = firstn n buf.
Proof.
  unfold erase. rewrite skipn_all. apply app_nil_r.
Qed.

Lemma digit_plain c :
  is_digit c = true ->
  fix_char c = c /\ Ascii.eqb "." c = false /\ Ascii.eqb "e" c = false /\
  c <> "."%char.
Proof.
  intros H. unfold fix_char.
  destruct (Ascii.eqb_spec c ",") as [-> | _]; [discriminate H |].
  destruct (Ascii.eqb_spec "." c) as [<- | Hp]; [discriminate H |].
  destruct (Ascii.eqb_spec "e" c) as [<- | _]; [discriminate H |].
  repeat split; congruence.
Qed.

Lemma digits_plain ds :
  forallb is_digit ds = true ->
  map fix_char ds = ds /\ find ds "." = false /\ find ds "e" = false.
Proof.
  unfold find.
  induction ds as [| c ds IH]; cbn [map existsb forallb]; intros H; [auto |].
  apply andb_true_iff in H as [Hc Hds].
  destruct (digit_plain _ Hc) as (Hf & Hp & He & _).
  destruct (IH Hds) as (IHf & IHp & IHe).
  rewrite Hf, IHf, Hp, He, IHp, IHe. auto.
Qed.

Lemma sign_plain sign :
  sign = [] \/ sign = ["-"%char] ->
  map fix_char sign = sign /\ find sign "." = false /\ find sign "e" = false.
Proof. intros [-> | ->]; auto. Qed.

Lemma find_app l1 l2 c : find (l1 ++ l2) c = find l1 c || find l2 c.
Proof. unfold find. apply existsb_app. Qed.

Lemma drop_zeros_split r :
  exists k, r = repeat "0"%char k ++ drop_zeros r /\
            (drop_zeros r = [] \/
             exists c rest, drop_zeros r = c :: rest /\ c <> "0"%char).
Proof.
  induction r as [| c r (k & Hk & Hd)]; simpl.
  - exists 0%nat. auto.
  - destruct (Ascii.eqb_spec c "0") as [-> | Hc].
    + exists (S k). simpl. rewrite <- Hk. auto.
    + exists 0%nat. split; [reflexivity |]. right. eauto.
Qed.

Lemma rev_zeros k : rev (repeat "0"%char k) = repeat "0"%char k.
Proof.
  induction k as [| k IH]; simpl; [reflexivity |].
  rewrite IH. symmetry. apply repeat_cons.
Qed.

(** A fraction is what is kept of it followed by zeros only, and what is
    kept does not end in a zero. *)
Lemma strip_trailing_zeros_split ds :
  exists k, ds = strip_trailing_zeros ds ++ repeat "0"%char k /\
            (strip_trailing_zeros ds = [] \/
             exists front c, strip_trailing_zeros ds = front ++ [c] /\
                             c <> "0"%char).
Proof.
  unfold strip_trailing_zeros.
  destruct (drop_zeros_split (rev ds)) as (k & Hk & Hd).
  exists k. split.
  - rewrite <- (rev_involutive ds) at 1. rewrite Hk at 1.
    rewrite rev_app_distr, rev_zeros. reflexivity.
  - destruct Hd as [-> | (c & rest & -> & Hc)]; [left; reflexivity |].
    right. exists (rev rest), c. simpl. auto.
Qed.

Lemma nth_after (X : chars) c frac i :
  nth (List.length X + S i) (X ++ c :: frac) NUL = nth i frac NUL.
Proof. rewrite app_nth2_plus. reflexivity. Qed.

Lemma nth_at (X : chars) c frac :
  nth (List.length X) (X ++ c :: frac) NUL = c.
Proof.
  rewrite <- (Nat.add_0_r (List.length X)), app_nth2_plus. reflexivity.
Qed.

Lemma nth_zeros f k i :
  (List.length f <= i < List.length f + k)%nat ->
  nth i (f ++ repeat "0"%char k) NUL = "0"%char.
Proof.
  intros H. rewrite app_nth2 by lia. apply nth_repeat_lt. lia.
Qed.

Lemma nth_digit ds i :
  forallb is_digit ds = true -> (i < List.length ds)%nat ->
  is_digit (nth i ds NUL) = true.
Proof.
  intros Hd Hi. rewrite forallb_forall in Hd. apply Hd, nth_In, Hi.
Qed.

Lemma fixZerosInTheEnd_step buf e precision :
  fixZerosInTheEnd buf 0 (S e) precision
  = if negb (Ascii.eqb (nth e buf NUL) "0") then S e
    else if negb (Nat.eqb 0 e) && negb (Nat.eqb 0 (e - 1))
            && Ascii.eqb (nth (e - 1) buf NUL) "."
         then (if negb (N.eqb precision 0) then S e else S e - 2)%nat
         else fixZerosInTheEnd buf 0 e precision.
Proof. reflexivity. Qed.

(** The loop of [fixZerosInTheEnd] on [X.frac] with a non-zero precision:
    started anywhere in the trailing zeros it stops behind the last
    non-zero digit, or behind the first zero after the point. *)
Lemma fixZerosInTheEnd_fraction (X f : chars) k precision :
  X <> [] -> precision <> 0%N ->
  forallb is_digit f = true ->
  (f = [] \/ exists front c, f = front ++ [c] /\ c <> "0"%char) ->
  forall j, (j <= k)%nat -> (1 <= List.length f + j)%nat ->
    fixZerosInTheEnd (X ++ "."%char :: f ++ repeat "0"%char k) 0
      (List.length X + 1 + List.length f + j) precision
    = (List.length X + 1 + Nat.max (List.length f) 1)%nat.
Proof.
  intros HX Hp Hdig Hf.
  assert (Hn : (1 <= List.length X)%nat).
  { destruct X; [contradiction | simpl; lia]. }
  apply N.eqb_neq in Hp.
  induction j as [| j IH]; intros Hj Hlen.
  - (* the cursor is behind the last digit of [f] *)
    destruct Hf as [-> | (front & c & -> & Hc)]; [simpl in Hlen; lia |].
    rewrite length_app in *. simpl List.length in *.
    replace (List.length X + 1 + (List.length front + 1) + 0)%nat
      with (S (List.length X + S (List.length front))) by lia.
    rewrite fixZerosInTheEnd_step.
    rewrite nth_after, <- app_assoc, app_nth2, Nat.sub_diag by lia.
    cbn [nth app].
    destruct (Ascii.eqb_spec c "0"); [contradiction |].
    cbn [negb]. lia.
  - replace (List.length X + 1 + List.length f + S j)%nat
      with (S (List.length X + S (List.length f + j))) by lia.
    rewrite fixZerosInTheEnd_step.
    rewrite nth_after, nth_zeros by lia.
    rewrite Ascii.eqb_refl. cbn [negb].
    replace (List.length X + S (List.length f + j) - 1)%nat
      with (List.length X + (List.length f + j))%nat by lia.
    destruct (Nat.eqb_spec 0 (List.length X + S (List.length f + j))); [lia |].
    destruct (Nat.eqb_spec 0 (List.length X + (List.length f + j))); [lia |].
    cbn [negb andb].
    destruct (Nat.eq_dec (List.length f + j) 0) as [Hz | Hnz].
    + (* only the zero behind the point is left *)
      rewrite Hz, Nat.add_0_r, nth_at, Ascii.eqb_refl, Hp.
      cbn [negb]. lia.
    + replace (List.length f + j)%nat with (S (List.length f + j - 1)) at 1 by lia.
      rewrite nth_after.
      assert (Hnot : Ascii.eqb (nth (List.length f + j - 1)
                                  (f ++ repeat "0"%char k) NUL) "." = false).
      { destruct (Nat.lt_ge_cases (List.length f + j - 1) (List.length f))
          as [Hlt | Hge].
        - rewrite app_nth1 by exact Hlt.
          destruct (digit_plain _ (nth_digit _ Hdig Hlt)) as (_ & _ & _ & Hne).
          destruct (Ascii.eqb_spec (nth (List.length f + j - 1) f NUL) ".");
            [contradiction | reflexivity].
        - rewrite nth_zeros by lia. reflexivity. }
      rewrite Hnot.
      replace (List.length X + S (List.length f + j))%nat
        with (List.length X + 1 + List.length f + j)%nat by lia.
      apply IH; lia.
Qed.

(** With precision 0 the ".0" that was appended is taken off again. *)
Lemma fixZerosInTheEnd_appended (X : chars) :
  X <> [] ->
  fixZerosInTheEnd (X ++ str ".0") 0 (List.length (X ++ str ".0")) 0
  = List.length X.
Proof.
  intros HX.
  assert (Hn : (1 <= List.length X)%nat).
  { destruct X; [contradiction | simpl; lia]. }
  rewrite length_app. change (List.length (str ".0")) with 2%nat.
  change (str ".0") with ["."%char; "0"%char].
  replace (List.length X + 2)%nat with (S (List.length X + 1)) by lia.
  rewrite fixZerosInTheEnd_step.
  rewrite (nth_after X "." ["0"%char] 0). cbn [nth].
  rewrite Ascii.eqb_refl. cbn [negb].
  replace (List.length X + 1 - 1)%nat with (List.length X) by lia.
  rewrite nth_at, Ascii.eqb_refl.
  destruct (Nat.eqb_spec 0 (List.length X + 1)); [lia |].
  destruct (Nat.eqb_spec 0 (List.length X)); [lia |].
  cbn. lia.
Qed.

Lemma kept_fraction_firstn frac f k :
  frac = f ++ repeat "0"%char k ->
  strip_trailing_zeros frac = f ->
  (1 <= List.length frac)%nat ->
  firstn (Nat.max (List.length f) 1) frac = kept_fraction frac.
Proof.
  intros Hfrac Hstrip Hlen. unfold kept_fraction. rewrite Hstrip.
  destruct f as [| c f'].
  - simpl in *. subst frac. destruct k; [simpl in Hlen; lia | reflexivity].
  - rewrite Hfrac. rewrite Nat.max_l by (simpl; lia).
    rewrite firstn_app, firstn_all, Nat.sub_diag. simpl. rewrite app_nil_r.
    reflexivity.
Qed.

(** The [int] that ["%.*"] reads from an [unsigned] precision. *)
Lemma to_int32_of_unsigned precision :
  (precision < 2 ^ 32)%N ->
  to_int32 (Z.of_N precision)
  = if (precision <? 2 ^ 31)%N then Z.of_N precision
    else Z.of_N precision - 2 ^ 32.
Proof.
  intros Hp. unfold to_int32, wrap_signed.
  change (2 ^ 32)%N with 4294967296%N in Hp.
  change (2 ^ 31)%N with 2147483648%N.
  change (2 ^ (32 - 1)) with 2147483648. change (2 ^ 32) with 4294967296.
  destruct (N.ltb_spec precision 2147483648) as [H | H].
  - rewrite Z.mod_small by lia. lia.
  - rewrite <- (Z.mod_unique (Z.of_N precision + 2147483648) 4294967296 1
                  (Z.of_N precision - 2147483648)); lia.
Qed.

(** The decimals printed are none exactly when the precision is 0. *)
Lemma decimals_read_zero precision :
  (precision < 2 ^ 32)%N ->
  decimals_read precision = 0%N <-> precision = 0%N.
Proof.
  intros Hp. unfold decimals_read, Printf.precision_read.
  rewrite to_int32_of_unsigned by exact Hp.
  change (2 ^ 32)%N with 4294967296%N in Hp.
  change (2 ^ 31)%N with 2147483648%N. change (2 ^ 32) with 4294967296.
  destruct (N.ltb_spec precision 2147483648) as [H | H].
  - destruct (Z.ltb_spec (Z.of_N precision) 0); lia.
  - destruct (Z.ltb_spec (Z.of_N precision - 4294967296) 0); lia.
Qed.

(** What the clean-up steps of [valueToString] make of a text in fixed
    notation with [decimals] decimals, none exactly when the precision
    is 0. *)
Lemma decimal_places_text decimals precision sign int_part sep frac_part :
  (decimals = 0%N <-> precision = 0%N) ->
  fixed_parts decimals sign int_part sep frac_part ->
  let text := fixed_text_of decimals sign int_part sep frac_part in
  let (buffer, it) := fixNumericLocale text 0 in
  let buffer := erase buffer it (List.length buffer) in
  let buffer :=
    if negb (find buffer ".") && negb (find buffer "e")
    then buffer ++ str ".0" else buffer in
  erase buffer (fixZerosInTheEnd buffer 0 (List.length buffer) precision)
    (List.length buffer)
  = sign ++ int_part ++
    (if (precision =? 0)%N then [] else "."%char :: kept_fraction frac_part).
Proof.
  intros Hzero (Hsign & Hne & Hint & Hsep & Hfrac & Hlen) text.
  destruct (sign_plain Hsign) as (Hs1 & Hs2 & Hs3).
  destruct (digits_plain _ Hint) as (Hi1 & Hi2 & Hi3).
  destruct (digits_plain _ Hfrac) as (Hf1 & Hf2 & Hf3).
  assert (HX : sign ++ int_part <> []).
  { destruct sign; [exact Hne | discriminate]. }
  assert (Hfix : fix_char sep = "."%char) by (destruct Hsep as [-> | ->]; reflexivity).
  assert (Hsame : (decimals =? 0)%N = (precision =? 0)%N).
  { destruct (N.eqb_spec decimals 0), (N.eqb_spec precision 0); tauto. }
  assert (Hmap : map fix_char text
                 = (sign ++ int_part) ++
                   (if (precision =? 0)%N then [] else "."%char :: frac_part)).
  { unfold text, fixed_text_of. rewrite !map_app, Hs1, Hi1, <- app_assoc, Hsame.
    destruct (precision =? 0)%N; cbn [map]; [| rewrite Hfix, Hf1]; reflexivity. }
  rewrite fixNumericLocale_map. cbn [Nat.add].
  rewrite <- (length_map fix_char text), Hmap.
  set (X := sign ++ int_part) in *.
  rewrite erase_nothing. rewrite app_assoc. fold X.
  assert (HXp : find X "." = false) by (unfold X; rewrite find_app, Hs2, Hi2; reflexivity).
  assert (HXe : find X "e" = false) by (unfold X; rewrite find_app, Hs3, Hi3; reflexivity).
  destruct (N.eqb_spec precision 0) as [Hp | Hp].
  - (* precision 0: no point was printed *)
    subst precision. rewrite !app_nil_r, HXp, HXe. cbn [negb andb].
    rewrite erase_tail, fixZerosInTheEnd_appended by exact HX.
    rewrite firstn_app, firstn_all, Nat.sub_diag. simpl. rewrite app_nil_r.
    reflexivity.
  - assert (Hfind : find (X ++ "."%char :: frac_part) "." = true).
    { rewrite find_app. unfold find at 2. cbn [existsb].
      rewrite Ascii.eqb_refl, !orb_true_r. reflexivity. }
    rewrite Hfind. cbn [negb andb].
    destruct (strip_trailing_zeros_split frac_part) as (k & Hk & Hkept).
    assert (Hp' : (1 <= List.length frac_part)%nat).
    { assert (decimals <> 0%N) by tauto. lia. }
    rewrite <- (kept_fraction_firstn _ Hk eq_refl Hp').
    set (f := strip_trailing_zeros frac_part) in *.
    assert (Hfd : forallb is_digit f = true).
    { rewrite Hk, forallb_app in Hfrac. apply andb_true_iff in Hfrac. tauto. }
    rewrite erase_tail.
    assert (Hend : List.length (X ++ "."%char :: frac_part)
                   = (List.length X + 1 + List.length f + k)%nat).
    { rewrite length_app. cbn [List.length].
      rewrite Hk at 1. rewrite length_app, repeat_length. lia. }
    rewrite Hend. rewrite Hk at 1.
    rewrite fixZerosInTheEnd_fraction; try assumption; try lia.
    + replace (List.length X + 1 + Nat.max (List.length f) 1)%nat
        with (List.length X + S (Nat.max (List.length f) 1))%nat by lia.
      rewrite firstn_app_2. cbn [firstn]. reflexivity.
    + rewrite Hk, length_app, repeat_length in Hp'. lia.
Qed.

(** When [snprintf] reports an error, the assertion on its result
    fails. *)
Lemma valueToString_snprintf_error format_double value useSpecialFloats
    precision precisionType :
  isfinite value = true ->
  snprintf_int
    (format_double
       (match precisionType with
        | significantDigits => "%.*g"
        | decimalPlaces => "%.*f"
        end)%string (to_int32 (Z.of_N precision)) value) < 0 ->
  valueToString_double format_double value useSpecialFloats precision
    precisionType
  = Throw (LogicError "assert json failed").
Proof.
  intros Hfin Hneg. unfold valueToString_double. rewrite Hfin. cbn [negb].
  rewrite print_loop_fails by exact Hneg. reflexivity.
Qed.

(** Decimal places on a text in fixed notation. *)
Lemma valueToString_fixed_text format_double value useSpecialFloats
    precision decimals sign int_part sep frac_part :
  isfinite value = true ->
  (decimals = 0%N <-> precision = 0%N) ->
  fixed_parts decimals sign int_part sep frac_part ->
  format_double "%.*f"%string (to_int32 (Z.of_N precision)) value
    = Some (fixed_text_of decimals sign int_part sep frac_part) ->
  0 <= snprintf_int
         (format_double "%.*f"%string (to_int32 (Z.of_N precision)) value) ->
  exists s,
    valueToString_double format_double value useSpecialFloats precision
      decimalPlaces = Ok s /\
    s = sign ++ int_part ++
        (if (precision =? 0)%N then []
         else "."%char :: kept_fraction frac_part) /\
    (precision <> 0%N -> find s "." = true) /\
    (precision = 0%N -> find s "." = false /\ find s "e" = false).
Proof.
  intros Hfin Hzero Hparts Htext Hlen.
  pose proof (decimal_places_text Hzero Hparts) as Hclean. cbv zeta in Hclean.
  unfold valueToString_double. rewrite Hfin. cbn [negb].
  rewrite Htext in *. rewrite print_loop_whole by exact Hlen. cbn [bind].
  destruct (fixNumericLocale (fixed_text_of decimals sign int_part sep frac_part) 0)
    as [buffer it].
  rewrite Hclean.
  eexists. split; [reflexivity |]. split; [reflexivity |].
  destruct Hparts as (Hsign & Hne & Hint & Hsep & Hfrac & _).
  destruct (sign_plain Hsign) as (_ & Hs2 & Hs3).
  destruct (digits_plain _ Hint) as (_ & Hi2 & Hi3).
  split.
  - intros Hp. apply N.eqb_neq in Hp. rewrite Hp, !find_app.
    unfold find at 3. cbn [existsb]. rewrite Ascii.eqb_refl, !orb_true_r.
    reflexivity.
  - intros ->. cbn [N.eqb]. rewrite app_nil_r, !find_app, Hs2, Hs3, Hi2, Hi3.
    auto.
Qed.

(** C6, as the code has it.  [valueToString] hands its [unsigned]
    precision to ["%.*f"], which reads an [int] and prints
    [decimals_read precision] decimals.  For a finite double in
    decimal-places mode: when [snprintf] reports an error, the assertion
    on its result fails and a logic error is raised.  When it reports
    success and its text is [sign ++ int_part ++ sep :: frac_part],
    [valueToString] returns, with a precision other than 0, the integer
    part, a point and the fraction without its trailing zeros except
    that the digit right after the point always stays, so the text has a
    decimal point; and with precision 0 the integer part alone, with
    neither a decimal point nor an exponent, because the ".0" appended
    to it is taken off again. *)
Theorem valueToString_decimal_places format_double value useSpecialFloats
    precision :
  isfinite value = true ->
  (precision < 2 ^ 32)%N ->
  (snprintf_int
     (format_double "%.*f"%string (to_int32 (Z.of_N precision)) value) < 0 ->
   valueToString_double format_double value useSpecialFloats precision
     decimalPlaces
   = Throw (LogicError "assert json failed")) /\
  (forall sign int_part sep frac_part,
     fixed_parts (decimals_read precision) sign int_part sep frac_part ->
     format_double "%.*f"%string (to_int32 (Z.of_N precision)) value
       = Some (fixed_text_of (decimals_read precision) sign int_part sep
                 frac_part) ->
     0 <= snprintf_int
            (format_double "%.*f"%string (to_int32 (Z.of_N precision))
               value) ->
     exists s,
       valueToString_double format_double value useSpecialFloats precision
         decimalPlaces = Ok s /\
       s = sign ++ int_part ++
           (if (precision =? 0)%N then []
            else "."%char :: kept_fraction frac_part) /\
       (precision <> 0%N -> find s "." = true) /\
       (precision = 0%N -> find s "." = false /\ find s "e" = false)).
Proof.
  intros Hfin Hp. split.
  - apply (@valueToString_snprintf_error format_double value useSpecialFloats
             precision decimalPlaces Hfin).
  - intros sign int_part sep frac_part.
    apply valueToString_fixed_text;
      [exact Hfin | apply decimals_read_zero; exact Hp].
Qed.

(** ** The reference ["%.*f"] always prints fixed notation *)

Lemma string_of_uint_digits d :
  forallb is_digit
    (list_ascii_of_string (DecimalString.NilEmpty.string_of_uint d)) = true.
Proof. induction d; simpl; auto. Qed.

Lemma dec_digits n :
  Printf.dec n <> [] /\ forallb is_digit (Printf.dec n) = true.
Proof.
  unfold Printf.dec, str, DecimalString.NilZero.string_of_uint.
  destruct (N.to_uint (Z.to_N n)) eqn:Hd;
    try (split; [discriminate | rewrite <- Hd at 1; apply string_of_uint_digits]).
  split; [discriminate | reflexivity].
Qed.

Lemma printf_digit_spec r :
  0 <= r < 10 -> is_digit (Printf.digit r) = true.
Proof.
  intros Hr. unfold Printf.digit, is_digit.
  rewrite N_ascii_embedding by lia.
  change (N_of_ascii "0") with 48%N. change (N_of_ascii "9") with 57%N.
  apply andb_true_iff; split; apply N.leb_le; lia.
Qed.

Lemma low_digits_spec count : forall n,
  List.length (Printf.low_digits count n) = count /\
  forallb is_digit (Printf.low_digits count n) = true.
Proof.
  induction count as [| count IH]; intros n; [auto |].
  cbn [Printf.low_digits]. destruct (IH (n / 10)) as [Hl Hd].
  rewrite length_app, forallb_app, Hl, Hd. cbn [List.length forallb].
  rewrite printf_digit_spec by (apply Z.mod_pos_bound; lia).
  split; [lia | reflexivity].
Qed.

Lemma fixed_text_parts s p n :
  exists int_part frac_part,
    fixed_parts p (Printf.sign_text s) int_part "." frac_part /\
    Printf.sign_text s ++ Printf.fixed_text p n
      = fixed_text_of p (Printf.sign_text s) int_part "." frac_part.
Proof.
  exists (Printf.dec (n / 10 ^ Z.of_N p)), (Printf.low_digits (N.to_nat p) n).
  destruct (dec_digits (n / 10 ^ Z.of_N p)) as [Hne Hd].
  destruct (low_digits_spec (N.to_nat p) n) as [Hl Hf].
  split; [| reflexivity].
  unfold fixed_parts. repeat split; auto.
  destruct s; auto.
Qed.

Lemma printf_f_fixed p d :
  isfinite d = true ->
  exists sign int_part frac_part,
    fixed_parts p sign int_part "." frac_part /\
    Printf.format_text "%.*f" p d = fixed_text_of p sign int_part "." frac_part.
Proof.
  change (Printf.format_text "%.*f" p d) with (Printf.printf_f p d).
  destruct d as [s | s | | s m e]; intros Hfin; try discriminate Hfin.
  - destruct (fixed_text_parts s p 0) as (i & f & Hp & Ht). eauto.
  - unfold Printf.printf_f.
    destruct (Printf.fraction_of m e) as [num den].
    destruct (fixed_text_parts s p (Printf.scaled num den (Z.of_N p)))
      as (i & f & Hp & Ht).
    eauto.
Qed.

(** With the reference conversion, every finite double and every
    precision whose text is short enough for [snprintf] to report its
    length are covered: a nonzero precision always leaves a decimal
    point, precision 0 never does. *)
Corollary decimal_places_reference value useSpecialFloats
    precision :
  isfinite value = true ->
  (precision < 2 ^ 32)%N ->
  0 <= snprintf_int
         (Printf.format_double "%.*f" (to_int32 (Z.of_N precision)) value) ->
  exists s,
    valueToString_double Printf.format_double value useSpecialFloats precision
      decimalPlaces = Ok s /\
    find s "." = negb (precision =? 0)%N /\
    (precision = 0%N -> find s "e" = false).
Proof.
  intros Hfin Hp Hlen.
  destruct (printf_f_fixed (decimals_read precision) value Hfin)
    as (sg & i & f & Hparts & Ht).
  destruct (@valueToString_fixed_text Printf.format_double value
              useSpecialFloats precision (decimals_read precision) sg i "." f
              Hfin (decimals_read_zero Hp) Hparts)
    as (s & Hs & _ & Hpoint & Hnone).
  - unfold Printf.format_double. fold (decimals_read precision).
    rewrite Ht. reflexivity.
  - exact Hlen.
  - exists s. split; [exact Hs |].
    destruct (N.eqb_spec precision 0) as [Hz | Hnz]; cbn [negb].
    + destruct (Hnone Hz) as [H1 H2]. auto.
    + split; [apply Hpoint, Hnz | intros; contradiction].
Qed.

(** With the reference conversion and a precision of 2^31 - 2 or
    2^31 - 1, the text of a finite double has more than [INT_MAX]
    chars: [snprintf] reports an error and the assertion fails. *)
Corollary decimal_places_reference_overflow value useSpecialFloats
    precision :
  isfinite value = true ->
  (2 ^ 31 - 2 <= precision < 2 ^ 31)%N ->
  valueToString_double Printf.format_double value useSpecialFloats precision
    decimalPlaces
  = Throw (LogicError "assert json failed").
Proof.
  intros Hfin Hp.
  change (2 ^ 31 - 2)%N with 2147483646%N in Hp.
  change (2 ^ 31)%N with 2147483648%N in Hp.
  assert (Hread : decimals_read precision = precision).
  { unfold decimals_read, Printf.precision_read.
    rewrite to_int32_of_unsigned
      by (change (2 ^ 32)%N with 4294967296%N; lia).
    change (2 ^ 31)%N with 2147483648%N.
    destruct (N.ltb_spec precision 2147483648); [| lia].
    destruct (Z.ltb_spec (Z.of_N precision) 0); lia. }
  apply valueToString_snprintf_error; [exact Hfin |].
  apply snprintf_int_negative.
  unfold Printf.format_double. fold (decimals_read precision).
  rewrite Hread.
  destruct (printf_f_fixed precision value Hfin)
    as (sg & i & f & (_ & Hne & _ & _ & _ & Hlen) & ->).
  unfold fixed_text_of, INT_MAX.
  destruct (N.eqb_spec precision 0) as [Hz | _]; [lia |].
  rewrite !length_app. cbn [List.length].
  assert (1 <= List.length i)%nat by (destruct i; [contradiction | simpl; lia]).
  change (2 ^ 31 - 1) with 2147483647. lia.
Qed.

End DecimalPlaces.

(** 2.5 with three decimal places: ["2.500"] becomes ["2.5"].  And with a
    C library whose [snprintf] reports an error, a logic error. *)
Lemma valueToString_decimal_places_witness :
  (exists s,
     Utils.valueToString_double Printf.format_double
       (S754_finite false 5629499534213120 (-51)) false 3 decimalPlaces = Ok s /\
     s = [] ++ str "2" ++ "."%char :: kept_fraction (str "500") /\
     (3%N <> 0%N -> Utils.find s "." = true) /\
     (3%N = 0%N -> Utils.find s "." = false /\ Utils.find s "e" = false)) /\
  Utils.valueToString_double (fun _ _ _ => None)
    (S754_finite false 5629499534213120 (-51)) false 3 decimalPlaces
  = Throw (LogicError "assert json failed").
Proof.
  split.
  - apply (proj2 (@valueToString_decimal_places Printf.format_double
                    (S754_finite false 5629499534213120 (-51)) false 3%N
                    eq_refl eq_refl)
             [] (str "2") "."%char (str "500")).
    + unfold fixed_parts. repeat split; auto. discriminate.
    + vm_compute. reflexivity.
    + vm_compute. discriminate.
  - apply (proj1 (@valueToString_decimal_places (fun _ _ _ => None)
                    (S754_finite false 5629499534213120 (-51)) false 3%N
                    eq_refl eq_refl)).
    reflexivity.
Defined.

(** C6 as stated fails for precision 0: 5.0 is printed as ["5"], which has
    neither a decimal point nor an exponent. *)
Lemma valueToString_precision_zero_no_point :
  Utils.valueToString_double Printf.format_double (double_of_Z 5) false 0
    decimalPlaces = Ok (str "5") /\
  Utils.find (str "5") "." = false /\
  Utils.find (str "5") "e" = false.
Proof. vm_compute. repeat split. Qed.

(* ===================================================================== *)
(** * Rounding never reaches zero                                         *)
(* ===================================================================== *)

Section Digits.

Lemma digits2_pos_size m : digits2_pos m = Pos.size m.
Proof. induction m; simpl; congruence. Qed.

Lemma Zdigits2_log2 m : 0 < m -> Zdigits2 m = Z.log2 m + 1.
Proof.
  destruct m as [| p | p]; try lia. intros _. simpl.
  rewrite digits2_pos_size. destruct p; simpl; lia.
Qed.

Lemma Zdigits2_pos m : 0 < m -> 1 <= Zdigits2 m.
Proof.
  intros H. rewrite Zdigits2_log2 by exact H.
  pose proof (Z.log2_nonneg m). lia.
Qed.

Lemma Zdigits2_mono a b : 0 < a -> a <= b -> Zdigits2 a <= Zdigits2 b.
Proof.
  intros Ha Hab. rewrite !Zdigits2_log2 by lia.
  pose proof (Z.log2_le_mono a b Hab). lia.
Qed.

Lemma Zdigits2_bounds m :
  0 < m -> 2 ^ (Zdigits2 m - 1) <= m < 2 ^ Zdigits2 m.
Proof.
  intros H. rewrite Zdigits2_log2 by exact H.
  replace (Z.log2 m + 1 - 1) with (Z.log2 m) by lia.
  apply (Z.log2_spec m H).
Qed.

Lemma Zdigits2_mul_pow2 m k :
  0 < m -> 0 <= k -> Zdigits2 (m * 2 ^ k) = Zdigits2 m + k.
Proof.
  intros Hm Hk. rewrite !Zdigits2_log2 by nia.
  rewrite Z.log2_mul_pow2 by lia. lia.
Qed.

Lemma Zdigits2_div_pow2 m k :
  0 < m -> 0 <= k < Zdigits2 m ->
  0 < m / 2 ^ k /\ Zdigits2 (m / 2 ^ k) = Zdigits2 m - k.
Proof.
  intros Hm Hk.
  pose proof (Zdigits2_bounds Hm) as [Hlo Hhi].
  assert (H2k : 0 < 2 ^ k) by (apply Z.pow_pos_nonneg; lia).
  assert (Hle : 2 ^ (Zdigits2 m - 1 - k) <= m / 2 ^ k).
  { apply Z.div_le_lower_bound; [exact H2k |].
    rewrite <- Z.pow_add_r by lia.
    replace (k + (Zdigits2 m - 1 - k)) with (Zdigits2 m - 1) by lia. exact Hlo. }
  assert (Hlt : m / 2 ^ k < 2 ^ (Zdigits2 m - k)).
  { apply Z.div_lt_upper_bound; [exact H2k |].
    rewrite <- Z.pow_add_r by lia.
    replace (k + (Zdigits2 m - k)) with (Zdigits2 m) by lia. exact Hhi. }
  assert (Hpos : 0 < m / 2 ^ k).
  { assert (0 < 2 ^ (Zdigits2 m - 1 - k)) by (apply Z.pow_pos_nonneg; lia). lia. }
  split; [exact Hpos |].
  rewrite (Zdigits2_log2 Hpos).
  rewrite (Z.log2_unique (m / 2 ^ k) (Zdigits2 m - 1 - k)); [lia | lia |].
  replace (Z.succ (Zdigits2 m - 1 - k)) with (Zdigits2 m - k) by lia.
  split; assumption.
Qed.

Lemma shr_1_m mrs :
  0 <= shr_m mrs -> shr_m (shr_1 mrs) = shr_m mrs / 2.
Proof.
  destruct mrs as [m r t]. cbn [shr_m]. intros Hm.
  rewrite <- Z.div2_div.
  destruct m as [| [p | p |] | p]; try lia; reflexivity.
Qed.

Lemma iter_pos_shr_m p : forall mrs,
  0 <= shr_m mrs ->
  shr_m (iter_pos shr_1 p mrs) = shr_m mrs / 2 ^ Zpos p.
Proof.
  assert (Hnn : forall a k, 0 <= a -> 0 < k -> 0 <= a / k).
  { intros a k Ha Hk. apply Z.div_pos; assumption. }
  induction p as [p IH | p IH |]; intros mrs Hm; cbn [iter_pos].
  - assert (H1 : 0 <= shr_m (shr_1 mrs)).
    { rewrite shr_1_m by exact Hm. apply Hnn; lia. }
    assert (H2 : 0 <= shr_m (iter_pos shr_1 p (shr_1 mrs))).
    { rewrite IH by exact H1. apply Hnn; [exact H1 |].
      apply Z.pow_pos_nonneg; lia. }
    rewrite IH by exact H2. rewrite IH by exact H1. rewrite shr_1_m by exact Hm.
    rewrite !Z.div_div by (try apply Z.pow_pos_nonneg; lia).
    f_equal. change 2 with (2 ^ 1) at 1.
    rewrite <- !Z.pow_add_r by lia. f_equal. lia.
  - assert (H2 : 0 <= shr_m (iter_pos shr_1 p mrs)).
    { rewrite IH by exact Hm. apply Hnn; [exact Hm |].
      apply Z.pow_pos_nonneg; lia. }
    rewrite IH by exact H2. rewrite IH by exact Hm.
    rewrite !Z.div_div by (try apply Z.pow_pos_nonneg; lia).
    f_equal. rewrite <- Z.pow_add_r by lia. f_equal. lia.
  - rewrite shr_1_m by exact Hm. reflexivity.
Qed.

Lemma shr_record_of_loc_m m l : shr_m (shr_record_of_loc m l) = m.
Proof. destruct l as [| []]; reflexivity. Qed.

End Digits.

Section Rounding.

Variables prec emax : Z.
Hypothesis prec_pos : 0 < prec.

(** Shifting a positive mantissa to its canonical exponent keeps it
    positive and keeps the magnitude, as long as the number is not below
    the smallest subnormal. *)
Lemma shr_fexp_positive m e l :
  0 < m -> emin prec emax < Zdigits2 m + e ->
  0 < shr_m (fst (shr_fexp prec emax m e l)) /\
  Zdigits2 (shr_m (fst (shr_fexp prec emax m e l)))
    + snd (shr_fexp prec emax m e l) = Zdigits2 m + e.
Proof.
  intros Hm Hmag. unfold shr_fexp, shr.
  pose proof (Zdigits2_pos Hm) as Hd.
  set (n := fexp prec emax (Zdigits2 m + e) - e).
  assert (Hn : n < Zdigits2 m) by (unfold n, fexp; lia).
  destruct n as [| p | p] eqn:Hp; simpl fst; simpl snd;
    rewrite ?shr_record_of_loc_m; try (split; [exact Hm | reflexivity]).
  rewrite iter_pos_shr_m by (rewrite shr_record_of_loc_m; lia).
  rewrite shr_record_of_loc_m.
  destruct (@Zdigits2_div_pow2 m (Zpos p) Hm) as [Hpos Hdig]; [lia |].
  split; [exact Hpos | lia].
Qed.

Lemma round_nearest_even_ge m l :
  0 < m ->
  0 < round_nearest_even m l /\
  Zdigits2 m <= Zdigits2 (round_nearest_even m l).
Proof using Type.
  intros Hm.
  assert (H : round_nearest_even m l = m \/ round_nearest_even m l = m + 1).
  { destruct l as [| []]; simpl; auto. destruct (Z.even m); auto. }
  destruct H as [-> | ->]; split; try lia; apply Zdigits2_mono; lia.
Qed.

(** [binary_round_aux] on a positive mantissa gives a double of the
    requested sign and of at least the same magnitude. *)
Lemma binary_round_aux_magnitude s m e :
  emin prec emax < Zpos (digits2_pos m) + e ->
  magnitude_at_least (Zpos (digits2_pos m) + e) s
    (binary_round_aux prec emax s (Zpos m) e loc_Exact).
Proof.
  intros Hmag. unfold binary_round_aux.
  destruct (@shr_fexp_positive (Zpos m) e loc_Exact) as [Hp1 Hd1];
    [lia | exact Hmag |].
  destruct (shr_fexp prec emax (Zpos m) e loc_Exact) as [mrs' e'].
  simpl fst in *; simpl snd in *.
  destruct (round_nearest_even_ge (loc_of_shr_record mrs') Hp1) as [Hp2 Hd2].
  set (m2 := round_nearest_even (shr_m mrs') (loc_of_shr_record mrs')) in *.
  change (Zdigits2 (Zpos m)) with (Zpos (digits2_pos m)) in Hd1.
  destruct (@shr_fexp_positive m2 e' loc_Exact) as [Hp3 Hd3];
    [exact Hp2 | lia |].
  destruct (shr_fexp prec emax m2 e' loc_Exact) as [mrs'' e''].
  simpl fst in *; simpl snd in *.
  destruct (shr_m mrs'') as [| m3 | m3]; try lia.
  change (Zdigits2 (Zpos m3)) with (Zpos (digits2_pos m3)) in Hd3.
  destruct (e'' <=? emax - prec); cbn [magnitude_at_least];
    [split; [reflexivity | lia] | reflexivity].
Qed.

Lemma iter_xO_pow2 m d : Zpos (Pos.iter xO m d) = Zpos m * 2 ^ Zpos d.
Proof using Type.
  rewrite <- Z.shiftl_mul_pow2 by lia. unfold Z.shiftl.
  revert m. induction d as [d IH | d IH |]; intros m; simpl.
  - rewrite Pos2Z.inj_xO, IH, IH. reflexivity.
  - rewrite IH, IH. reflexivity.
  - reflexivity.
Qed.

Lemma shl_align_magnitude m e e' :
  Zpos (digits2_pos (fst (shl_align m e e'))) + snd (shl_align m e e')
  = Zpos (digits2_pos m) + e.
Proof using Type.
  unfold shl_align.
  destruct (e' - e) as [| d | d] eqn:Hd; cbn [fst snd]; try reflexivity.
  change (Zpos (digits2_pos (Pos.iter xO m d)))
    with (Zdigits2 (Zpos (Pos.iter xO m d))).
  rewrite iter_xO_pow2, Zdigits2_mul_pow2 by lia. cbn [Zdigits2]. lia.
Qed.

Lemma binary_round_magnitude s m e :
  emin prec emax < Zpos (digits2_pos m) + e ->
  magnitude_at_least (Zpos (digits2_pos m) + e) s (binary_round prec emax s m e).
Proof.
  intros Hmag. unfold binary_round.
  pose proof (shl_align_magnitude m e (fexp prec emax (Zpos (digits2_pos m) + e)))
    as Hal.
  destruct (shl_align m e (fexp prec emax (Zpos (digits2_pos m) + e))) as [mz ez].
  cbn [fst snd] in Hal. rewrite <- Hal. apply binary_round_aux_magnitude. lia.
Qed.

End Rounding.

(* ===================================================================== *)
(** * isInt and asInt                                                     *)
(* ===================================================================== *)

Section IntConversion.

Lemma to_int32_id z : minInt <= z <= maxInt -> to_int32 z = z.
Proof.
  unfold minInt, maxInt, to_int32, wrap_signed. intros H.
  change (2 ^ (32 - 1)) with 2147483648. change (2 ^ 32) with 4294967296.
  change (2 ^ 31) with 2147483648 in H.
  rewrite Z.mod_small by lia. lia.
Qed.

Lemma valid_double_bounds s m e :
  valid_double (S754_finite s m e) = true ->
  Zpos m < 2 ^ 53 /\ -1074 <= e.
Proof.
  unfold valid_double, valid_binary, bounded, canonical_mantissa.
  intros H. apply andb_true_iff in H as [Hc _]. apply Z.eqb_eq in Hc.
  unfold fexp, emin, prec64, emax64 in Hc.
  pose proof (@Zdigits2_bounds (Zpos m) eq_refl) as [_ Hhi].
  cbn [Zdigits2] in Hhi.
  split; [| lia].
  apply Z.lt_le_trans with (1 := Hhi).
  apply Z.pow_le_mono_r; lia.
Qed.

Lemma double_of_minInt :
  double_of_Z minInt = S754_finite true 4503599627370496 (-21).
Proof. vm_compute. reflexivity. Qed.

Lemma double_of_maxInt :
  double_of_Z maxInt = S754_finite false 9007199250546688 (-22).
Proof. vm_compute. reflexivity. Qed.

Lemma div_pow2_bound m k j :
  0 <= m < 2 ^ 53 -> 0 <= j <= 53 -> 53 - j <= k -> m / 2 ^ k < 2 ^ j.
Proof.
  intros Hm Hj Hk.
  assert (0 < 2 ^ k) by (apply Z.pow_pos_nonneg; lia).
  apply Z.div_lt_upper_bound; [assumption |].
  rewrite <- Z.pow_add_r by lia.
  apply Z.lt_le_trans with (2 ^ 53); [lia |].
  apply Z.pow_le_mono_r; lia.
Qed.

Lemma compare_cont_le p q :
  match PosDef.Pos.compare_cont Eq p q with Gt => false | _ => true end = true ->
  Zpos p <= Zpos q.
Proof.
  change (PosDef.Pos.compare_cont Eq p q) with (Pos.compare p q).
  intros H. apply Pos2Z.pos_le_pos. unfold Pos.le. intros Hgt.
  rewrite Hgt in H. discriminate H.
Qed.

Lemma compare_cont_ge p q :
  match CompOpp (PosDef.Pos.compare_cont Eq p q) with
  | Gt => false
  | _ => true
  end = true ->
  Zpos q <= Zpos p.
Proof.
  change (PosDef.Pos.compare_cont Eq p q) with (Pos.compare p q).
  rewrite <- Pos.compare_antisym. apply compare_cont_le.
Qed.

(** Inside [InRange(d, minInt, maxInt)] the truncation of a finite double
    is a 32-bit integer. *)
Lemma InRange_finite_fits s m e :
  valid_double (S754_finite s m e) = true ->
  InRange (S754_finite s m e) minInt maxInt = true ->
  minInt <= double_to_Z (S754_finite s m e) <= maxInt.
Proof.
  intros Hv Hr. destruct (valid_double_bounds _ _ _ Hv) as [Hm He].
  unfold InRange, integerToDouble, dge, dle in Hr.
  rewrite double_of_minInt, double_of_maxInt in Hr.
  apply andb_true_iff in Hr as [Hlo Hhi].
  unfold SFleb, SFcompare in Hlo, Hhi.
  unfold minInt, maxInt, double_to_Z.
  change (2 ^ 31) with 2147483648.
  destruct s; cbn [cond_Zopp].
  - (* negative *)
    clear Hhi. destruct (Z.compare_spec (-21) e) as [He21 | He21 | He21];
      try discriminate Hlo.
    + subst e. cbv beta iota in Hlo.
      change (0 <=? -21) with false. cbv beta iota.
      change (2 ^ (- -21)) with 2097152.
      apply compare_cont_ge in Hlo. clear Hv.
      assert (Zpos m / 2097152 <= 2147483648).
      { apply Z.div_le_upper_bound; lia. }
      assert (0 <= Zpos m / 2097152) by (apply Z.div_pos; lia).
      lia.
    + destruct (Z.leb_spec 0 e); [lia |].
      pose proof (@div_pow2_bound (Zpos m) (- e) 31 ltac:(lia) ltac:(lia) ltac:(lia)).
      assert (0 <= Zpos m / 2 ^ (- e)).
      { apply Z.div_pos; [lia | apply Z.pow_pos_nonneg; lia]. }
      change (2 ^ 31) with 2147483648 in *. lia.
  - (* positive *)
    clear Hlo. destruct (Z.compare_spec e (-22)) as [He22 | He22 | He22];
      try discriminate Hhi.
    + subst e. cbv beta iota in Hhi.
      change (0 <=? -22) with false. cbv beta iota.
      change (2 ^ (- -22)) with 4194304.
      apply compare_cont_le in Hhi. clear Hv.
      assert (Zpos m / 4194304 <= 2147483647).
      { apply Z.div_le_upper_bound; lia. }
      assert (0 <= Zpos m / 4194304) by (apply Z.div_pos; lia).
      lia.
    + destruct (Z.leb_spec 0 e); [lia |].
      pose proof (@div_pow2_bound (Zpos m) (- e) 30 ltac:(lia) ltac:(lia) ltac:(lia)).
      assert (0 <= Zpos m / 2 ^ (- e)).
      { apply Z.div_pos; [lia | apply Z.pow_pos_nonneg; lia]. }
      change (2 ^ 30) with 1073741824 in *. lia.
Qed.

Lemma InRange_int_not_finite d :
  isfinite d = false -> InRange d minInt maxInt = false.
Proof.
  unfold InRange, integerToDouble, dge, dle.
  rewrite double_of_minInt, double_of_maxInt.
  destruct d as [s | [|] | | s m e]; intros H; try discriminate H; reflexivity.
Qed.

Lemma InRange_int_zero s : InRange (S754_zero s) minInt maxInt = true.
Proof.
  unfold InRange, integerToDouble, dge, dle.
  rewrite double_of_minInt, double_of_maxInt. reflexivity.
Qed.

(** A double that rounding left with some magnitude is not 0.0. *)
Lemma magnitude_not_zero lo s x :
  magnitude_at_least lo s x -> deq x dzero = false.
Proof.
  destruct x as [? | [|] | | [|] m e]; simpl; intros H; try contradiction;
    reflexivity.
Qed.

(** [IsIntegral] on a finite double: the exponent is not negative, or the
    bits below the binary point are all zero. *)
Lemma IsIntegral_finite s m e :
  valid_double (S754_finite s m e) = true ->
  IsIntegral (S754_finite s m e) = true <->
  (0 <= e \/ Zpos m mod 2 ^ (- e) = 0).
Proof.
  intros Hv. destruct (valid_double_bounds _ _ _ Hv) as [_ He].
  unfold IsIntegral, modf.
  destruct (Z.leb_spec 0 e) as [Hpos | Hneg].
  - split; [intros _; left; exact Hpos | intros _; destruct s; reflexivity].
  - assert (Hmod : 0 <= Zpos m mod 2 ^ (- e)).
    { apply Z.mod_pos_bound, Z.pow_pos_nonneg; lia. }
    destruct (Zpos m mod 2 ^ (- e)) as [| r | r] eqn:Hr; [| | lia].
    + split; [intros _; right; reflexivity | intros _; destruct s; reflexivity].
    + assert (Hnz : deq (binary_normalize prec64 emax64
                           (cond_Zopp s (Zpos r)) e s) dzero = false).
      { assert (Hmag : emin prec64 emax64 < Zpos (digits2_pos r) + e).
        { unfold emin, prec64, emax64. lia. }
        destruct s; cbn [cond_Zopp Z.opp binary_normalize];
          eapply magnitude_not_zero;
          apply binary_round_magnitude; try exact Hmag; reflexivity. }
      rewrite Hnz. split; [discriminate | intros [H | H]; [lia | discriminate H]].
Qed.

(** A finite double is exactly the integer [r] just when [r] is its
    truncation and nothing was cut off. *)
Lemma double_is_Z_finite s m e r :
  double_is_Z (S754_finite s m e) r <->
  r = double_to_Z (S754_finite s m e) /\
  (0 <= e \/ Zpos m mod 2 ^ (- e) = 0).
Proof.
  unfold double_is_Z, double_to_Z.
  destruct (Z.leb_spec 0 e) as [Hpos | Hneg].
  - split; [intros ->; auto | intros [-> _]; reflexivity].
  - assert (Hk : 0 < 2 ^ (- e)) by (apply Z.pow_pos_nonneg; lia).
    set (k := 2 ^ (- e)) in *.
    split.
    + intros H.
      assert (Hm : Zpos m = cond_Zopp s r * k).
      { destruct s; cbn [cond_Zopp] in *; lia. }
      assert (Hdiv : Zpos m / k = cond_Zopp s r).
      { rewrite Hm. apply Z.div_mul. lia. }
      assert (Hmod : Zpos m mod k = 0).
      { rewrite Hm. apply Z.mod_mul. lia. }
      split; [| right; exact Hmod].
      rewrite Hdiv. destruct s; cbn [cond_Zopp]; lia.
    + intros [-> [H | H]]; [lia |].
      pose proof (Z.div_mod (Zpos m) k ltac:(lia)) as Hdm.
      rewrite H in Hdm.
      destruct s; cbn [cond_Zopp]; lia.
Qed.

Lemma IsIntegral_zero s : IsIntegral (S754_zero s) = true.
Proof. destruct s; reflexivity. Qed.

(** The [realValue] case: inside the range, [asInt] returns the
    truncation, and the truncation is the double itself exactly when
    [IsIntegral] holds. *)
Lemma real_isInt_iff d :
  valid_double d = true ->
  (InRange d minInt maxInt && IsIntegral d = true <->
   exists r,
     (JSON_ASSERT_MESSAGE (InRange d minInt maxInt) "double out of Int range" ;;;
      Ok (to_int32 (double_to_Z d))) = Ok r /\
     fits_int32 r /\ double_is_Z d r).
Proof.
  intros Hv. split.
  - intros H. apply andb_true_iff in H as [Hr Hi].
    exists (double_to_Z d). rewrite Hr. cbn [JSON_ASSERT_MESSAGE bind].
    destruct d as [s | s | | s m e].
    + repeat split; try reflexivity; unfold minInt, maxInt; simpl; lia.
    + rewrite InRange_int_not_finite in Hr by reflexivity. discriminate Hr.
    + rewrite InRange_int_not_finite in Hr by reflexivity. discriminate Hr.
    + pose proof (InRange_finite_fits _ _ _ Hv Hr) as Hfit.
      rewrite to_int32_id by exact Hfit.
      split; [reflexivity |]. split; [exact Hfit |].
      apply double_is_Z_finite. split; [reflexivity |].
      apply (proj1 (IsIntegral_finite _ _ _ Hv)). exact Hi.
  - intros (r & Hok & Hfit & Hrep).
    destruct (InRange d minInt maxInt) eqn:Hr; [| discriminate Hok].
    cbn [andb]. destruct d as [s | s | | s m e]; try contradiction.
    + apply IsIntegral_zero.
    + apply double_is_Z_finite in Hrep as [_ Hint].
      apply (proj2 (IsIntegral_finite _ _ _ Hv)). exact Hint.
Qed.

(** C3, as the code has it.  For a value of one of the three numeric
    variants, [isInt] is true exactly when [asInt] returns, without
    raising a logic error, a 32-bit integer that represents the value
    without loss.  For a boolean and for null, [isInt] is false although
    [asInt] returns 1 or 0 for them without an error.  For a string, an
    array and an object, [isInt] is false and [asInt] raises a logic
    error. *)
Theorem isInt_iff_asInt_lossless (v : Value) :
  wf_payload v ->
  match type v with
  | intValue | uintValue | realValue =>
      isInt v = true <->
      exists r, asInt v = Ok r /\ fits_int32 r /\ represents v r
  | boolValue | nullValue =>
      isInt v = false /\
      exists r, asInt v = Ok r /\ fits_int32 r /\ represents v r
  | stringValue | arrayValue | objectValue =>
      isInt v = false /\ exists e, asInt v = Throw (LogicError e)
  end.
Proof.
  destruct v as [p c st li]. unfold wf_payload, type, asInt, isInt, represents.
  cbn [payload]. destruct p; intros Hwf.
  - (* null *)
    split; [reflexivity |]. exists 0.
    unfold fits_int32, minInt, maxInt. repeat split; simpl; lia.
  - (* int *)
    unfold fits_int32. split.
    + intros H. exists v_int. rewrite H. cbn [JSON_ASSERT_MESSAGE bind].
      apply andb_true_iff in H as [H1 H2].
      apply Z.leb_le in H1. apply Z.leb_le in H2.
      rewrite to_int32_id by lia. auto.
    + intros (r & Hok & Hfit & ->).
      apply andb_true_iff. split; apply Z.leb_le; lia.
  - (* uint *)
    unfold fits_int32.
    change (to_uint32 maxInt) with 2147483647%N.
    split.
    + intros H. exists (Z.of_N v_uint). rewrite H. cbn [JSON_ASSERT_MESSAGE bind].
      apply N.leb_le in H.
      assert (Hfit : minInt <= Z.of_N v_uint <= maxInt).
      { unfold minInt, maxInt. change (2 ^ 31) with 2147483648. lia. }
      rewrite to_int32_id by exact Hfit. auto.
    + intros (r & Hok & Hfit & ->). apply N.leb_le.
      unfold maxInt in Hfit. change (2 ^ 31) with 2147483648 in Hfit. lia.
  - (* real *)
    rewrite <- (@real_isInt_iff v_real Hwf). unfold InRange, integerToDouble.
    reflexivity.
  - (* string *)
    split; [reflexivity | eexists; reflexivity].
  - (* bool *)
    split; [reflexivity |]. exists (if v_bool then 1 else 0).
    unfold fits_int32, minInt, maxInt.
    destruct v_bool; repeat split; simpl; lia.
  - split; [reflexivity | eexists; reflexivity].
  - split; [reflexivity | eexists; reflexivity].
Qed.

(** 7.0, that is 7 * 2^50 * 2^-50, is an int; so says [isInt], and
    [asInt] returns 7. *)
Lemma isInt_iff_asInt_lossless_witness :
  isInt (Value_of_double (S754_finite false 7881299347898368 (-50))) = true <->
  exists r,
    asInt (Value_of_double (S754_finite false 7881299347898368 (-50))) = Ok r /\
    fits_int32 r /\
    represents (Value_of_double (S754_finite false 7881299347898368 (-50))) r.
Proof.
  apply (@isInt_iff_asInt_lossless
           (Value_of_double (S754_finite false 7881299347898368 (-50)))).
  reflexivity.
Defined.

(** C3 as stated fails on null (and likewise on the booleans): [asInt]
    returns 0, which loses nothing of a null value, yet [isInt] is
    false. *)
Lemma isInt_null_counterexample :
  isInt (Value_of_type nullValue) = false /\
  asInt (Value_of_type nullValue) = Ok 0 /\
  fits_int32 0 /\
  represents (Value_of_type nullValue) 0.
Proof.
  unfold fits_int32, minInt, maxInt. repeat split; simpl; lia.
Qed.

End IntConversion.

(* ===================================================================== *)
(** * Conversion to double and the compatibility matrix                   *)
(* ===================================================================== *)

Section Convertible.

Lemma magnitude_weaken lo lo' s x :
  lo' <= lo -> magnitude_at_least lo s x -> magnitude_at_least lo' s x.
Proof.
  intros Hle. destruct x as [? | ? | | s' m e]; simpl; auto.
  intros [-> H]. split; [reflexivity | lia].
Qed.

Lemma to_int64_id z : minInt64 <= z <= maxInt64 -> to_int64 z = z.
Proof.
  unfold minInt64, maxInt64, to_int64, wrap_signed. intros H.
  change (2 ^ (64 - 1)) with 9223372036854775808.
  change (2 ^ 64) with 18446744073709551616.
  change (2 ^ 63) with 9223372036854775808 in H.
  rewrite Z.mod_small by lia. lia.
Qed.

(** [static_cast<double>] of an integer other than 0 is not 0.0. *)
Lemma double_of_Z_magnitude z :
  z <> 0 -> magnitude_at_least 1 (z <? 0) (double_of_Z z).
Proof.
  intros Hz. unfold double_of_Z.
  destruct z as [| p | p]; [contradiction | |];
    cbn [binary_normalize]; unfold Z.ltb; cbn [Z.compare];
    (eapply magnitude_weaken;
     [| apply (@binary_round_magnitude prec64 emax64 eq_refl)]);
    pose proof (@Zdigits2_pos (Zpos p) eq_refl) as Hd; cbn [Zdigits2] in Hd;
    unfold emin, prec64, emax64; lia.
Qed.

Lemma double_of_two :
  double_of_Z 2 = S754_finite false 4503599627370496 (-51).
Proof. vm_compute. reflexivity. Qed.

Lemma double_of_one :
  double_of_Z 1 = S754_finite false 4503599627370496 (-52).
Proof. vm_compute. reflexivity. Qed.

(** Doubling keeps the sign and does not lower the magnitude. *)
Lemma dmul_two_magnitude lo x :
  1 <= lo -> magnitude_at_least lo false x ->
  magnitude_at_least lo false (dmul x (double_of_Z 2)).
Proof.
  intros Hlo. rewrite double_of_two. unfold dmul.
  destruct x as [? | s | | s m e]; cbn [magnitude_at_least SFmul]; try contradiction.
  - intros ->. reflexivity.
  - intros [-> Hm]. cbn [xorb].
    assert (Hd : Zpos (digits2_pos (m * 4503599627370496))
                 = Zpos (digits2_pos m) + 52).
    { change (Zpos (digits2_pos (m * 4503599627370496)))
        with (Zdigits2 (Zpos (m * 4503599627370496))).
      rewrite Pos2Z.inj_mul. change (Zpos 4503599627370496) with (2 ^ 52).
      rewrite Zdigits2_mul_pow2 by lia. reflexivity. }
    eapply magnitude_weaken;
      [| apply (@binary_round_aux_magnitude prec64 emax64 eq_refl)];
      rewrite Hd; unfold emin, prec64, emax64; lia.
Qed.

Lemma shl_align_snd m e e' : e' <= e -> snd (shl_align m e e') = e'.
Proof.
  intros H. unfold shl_align.
  destruct (e' - e) as [| d | d] eqn:Hd; cbn [snd]; lia.
Qed.

(** Adding a double that is not negative does not lower the magnitude. *)
Lemma dadd_magnitude lo x y :
  1 <= lo -> magnitude_at_least lo false x ->
  (y = S754_zero false \/ exists m e, y = S754_finite false m e) ->
  magnitude_at_least lo false (dadd x y).
Proof.
  intros Hlo Hx Hy. unfold dadd.
  destruct x as [? | s | | s mx ex]; cbn [magnitude_at_least] in Hx;
    try contradiction.
  - subst s. destruct Hy as [-> | (m & e & ->)]; reflexivity.
  - destruct Hx as [-> Hm].
    destruct Hy as [-> | (my & ey & ->)]; [split; [reflexivity | exact Hm] |].
    cbn [SFadd cond_Zopp].
    pose proof (shl_align_magnitude mx ex (Z.min ex ey)) as Hal.
    rewrite shl_align_snd in Hal by lia.
    set (mx' := fst (shl_align mx ex (Z.min ex ey))) in *.
    set (my' := fst (shl_align my ey (Z.min ex ey))) in *.
    change (Zpos mx' + Zpos my') with (Zpos (mx' + my')).
    cbn [binary_normalize].
    assert (Hd : Zpos (digits2_pos mx') <= Zpos (digits2_pos (mx' + my'))).
    { apply (@Zdigits2_mono (Zpos mx') (Zpos (mx' + my'))); lia. }
    eapply magnitude_weaken;
      [| apply (@binary_round_magnitude prec64 emax64 eq_refl)];
      unfold emin, prec64, emax64; lia.
Qed.

Lemma float_round_trip_magnitude x :
  magnitude_at_least 1 false x ->
  magnitude_at_least 1 false (double_of_float (float_of_double x)).
Proof.
  destruct x as [? | s | | s m e]; cbn [magnitude_at_least]; try contradiction.
  - intros ->. reflexivity.
  - intros [-> Hm]. cbn [float_of_double].
    assert (H32 : magnitude_at_least 1 false (binary_round prec32 emax32 false m e)).
    { eapply magnitude_weaken;
        [| apply (@binary_round_magnitude prec32 emax32 eq_refl)];
        unfold emin, prec32, emax32; lia. }
    destruct (binary_round prec32 emax32 false m e) as [? | s' | | s' m' e'];
      cbn [magnitude_at_least] in H32; try contradiction.
    + subst s'. reflexivity.
    + destruct H32 as [-> Hm']. cbn [double_of_float].
      eapply magnitude_weaken;
        [| apply (@binary_round_magnitude prec64 emax64 eq_refl)];
        unfold emin, prec64, emax64; lia.
Qed.

(** The [uintValue] case of [asDouble]: a positive 64-bit value never
    comes out as 0.0. *)
Lemma integerToDouble_u64_magnitude u :
  (0 < u < 2 ^ 64)%N ->
  magnitude_at_least 1 false (integerToDouble_u64 u).
Proof.
  intros Hu. unfold integerToDouble_u64.
  change (2 ^ 64)%N with 18446744073709551616%N in Hu.
  assert (Hhalf : (u / 2 < 9223372036854775808)%N).
  { apply N.Div0.div_lt_upper_bound. lia. }
  assert (Hland : N.land u 1 = (u mod 2)%N) by exact (N.land_ones u 1).
  assert (Hbit : N.land u 1 = 0%N \/ N.land u 1 = 1%N).
  { rewrite Hland.
    pose proof (N.mod_upper_bound u 2 ltac:(lia)) as Hlt.
    generalize dependent (u mod 2)%N. intros r _ Hr. lia. }
  rewrite (@to_int64_id (Z.of_N (u / 2))).
  2:{ unfold minInt64, maxInt64. change (2 ^ 63) with 9223372036854775808.
      clear - Hhalf. generalize dependent (u / 2)%N. intros h Hh. lia. }
  rewrite (@to_int64_id (Z.of_N (N.land u 1))).
  2:{ unfold minInt64, maxInt64. change (2 ^ 63) with 9223372036854775808.
      destruct Hbit as [-> | ->]; simpl; lia. }
  assert (Hy : double_of_Z (Z.of_N (N.land u 1)) = S754_zero false \/
               exists m e, double_of_Z (Z.of_N (N.land u 1)) = S754_finite false m e).
  { destruct Hbit as [-> | ->]; [left; reflexivity |].
    right. change (Z.of_N 1) with 1. rewrite double_of_one. eauto. }
  destruct (N.eq_dec (u / 2) 0) as [Hz | Hnz].
  - (* u = 1 *)
    assert (Hone : N.land u 1 = 1%N).
    { destruct Hbit as [Hb | Hb]; [| exact Hb]. exfalso.
      rewrite Hland in Hb.
      pose proof (N.div_mod u 2 ltac:(lia)) as Hdm. rewrite Hz, Hb in Hdm. lia. }
    rewrite Hz, Hone. vm_compute. split; [reflexivity | discriminate].
  - apply dadd_magnitude; [lia | | exact Hy].
    apply dmul_two_magnitude; [lia |].
    assert (Hpos : Z.of_N (u / 2) <> 0).
    { clear - Hnz. generalize dependent (u / 2)%N. intros h Hh. lia. }
    pose proof (double_of_Z_magnitude Hpos) as Hmag.
    rewrite (proj2 (Z.ltb_ge _ _) (N2Z.is_nonneg (u / 2))) in Hmag.
    exact Hmag.
Qed.

(** [asDouble() == 0.0] says whether a numeric payload is zero. *)
Lemma asDouble_zero v :
  wf_payload v -> isNumeric v = true ->
  exists d, asDouble v = Ok d /\ deq d dzero = numeric_is_zero v.
Proof.
  destruct v as [p c st li].
  unfold wf_payload, isNumeric, isDouble, asDouble, numeric_is_zero, type.
  cbn [payload]. destruct p; intros Hwf Hnum; try discriminate Hnum.
  - (* int *)
    eexists. split; [reflexivity |].
    destruct (Z.eqb_spec v_int 0) as [-> | Hnz]; [reflexivity |].
    eapply magnitude_not_zero, double_of_Z_magnitude, Hnz.
  - (* uint *)
    eexists. split; [reflexivity |].
    destruct (N.eqb_spec v_uint 0) as [-> | Hnz]; [reflexivity |].
    eapply magnitude_not_zero, float_round_trip_magnitude,
      integerToDouble_u64_magnitude.
    split; [lia | exact Hwf].
  - (* real *)
    eexists. split; [reflexivity |].
    destruct v_real as [? | [|] | | [|] m e]; reflexivity.
Qed.

Variable format_double : string -> Z -> double -> option chars.

Lemma ValueType_eqb_refl t : ValueType_eqb t t = true.
Proof. destruct t; reflexivity. Qed.

(** C7. [isConvertibleTo] on the rows the matrix is stated for.  An array
    or an object converts to its own variant, to null exactly when it is
    empty, and to nothing else.  A numeric value (int, uint, real)
    converts to null exactly when its value is zero.  Boolean false
    converts to null, and so does a string whose text is empty.  Null
    converts to every variant. *)
Theorem isConvertibleTo_matrix (v : Value) :
  wf_payload v ->
  (forall m t, payload v = ArrayP m ->
     isConvertibleTo format_double v t
     = Ok (ValueType_eqb t arrayValue
           || ValueType_eqb t nullValue && is_empty m)) /\
  (forall m t, payload v = ObjectP m ->
     isConvertibleTo format_double v t
     = Ok (ValueType_eqb t objectValue
           || ValueType_eqb t nullValue && is_empty m)) /\
  (isNumeric v = true ->
     isConvertibleTo format_double v nullValue = Ok (numeric_is_zero v)) /\
  (forall b, payload v = BoolP b ->
     isConvertibleTo format_double v nullValue = Ok (negb b)) /\
  (forall text, type v = stringValue ->
     asString format_double v = Ok text ->
     isConvertibleTo format_double v nullValue = Ok (is_empty text)) /\
  (forall t, payload v = NullP ->
     isConvertibleTo format_double v t = Ok true).
Proof.
  intros Hwf. repeat match goal with |- _ /\ _ => split end.
  - intros m t Hp. destruct v as [p c st li]. cbn [payload] in Hp. subst p.
    destruct t; try reflexivity.
    unfold isConvertibleTo. cbn. destruct m; reflexivity.
  - intros m t Hp. destruct v as [p c st li]. cbn [payload] in Hp. subst p.
    destruct t; try reflexivity.
    unfold isConvertibleTo. cbn. destruct m; reflexivity.
  - intros Hnum. destruct (asDouble_zero v Hwf Hnum) as (d & Hd & Hz).
    unfold isConvertibleTo. rewrite Hnum, Hd. cbn [andR orR bind].
    rewrite Hz. destruct (numeric_is_zero v) eqn:Hzero; [reflexivity |].
    destruct v as [[] c st li]; try discriminate Hnum; reflexivity.
  - intros b Hp. destruct v as [p c st li]. cbn [payload] in Hp. subst p.
    destruct b; reflexivity.
  - intros text Ht Hs. destruct v as [[] c st li]; try discriminate Ht.
    unfold isConvertibleTo. rewrite Hs. cbn.
    destruct text; reflexivity.
  - intros t Hp. destruct v as [p c st li]. cbn [payload] in Hp. subst p.
    destruct t; reflexivity.
Qed.

End Convertible.

Lemma isConvertibleTo_matrix_witness :
  isConvertibleTo Printf.format_double (Value_of_uint64 0) nullValue = Ok true /\
  isConvertibleTo Printf.format_double (Value_of_uint64 18446744073709551615)
    nullValue = Ok false.
Proof.
  split.
  - exact (proj1 (proj2 (proj2
             (@isConvertibleTo_matrix Printf.format_double (Value_of_uint64 0)
                eq_refl))) eq_refl).
  - exact (proj1 (proj2 (proj2
             (@isConvertibleTo_matrix Printf.format_double
                (Value_of_uint64 18446744073709551615) eq_refl))) eq_refl).
Defined.

(* ===================================================================== *)
(** * The two directions of the ordering                                  *)
(* ===================================================================== *)

Section Ordering.

(** Induction on a value with the members of its map at hand. *)
Lemma Value_members_ind (P : Value -> Prop) :
  (forall p c st li,
     (forall m, p = ArrayP m \/ p = ObjectP m ->
                Forall (fun kv => P (snd kv)) m) ->
     P (mkValue p c st li)) ->
  forall v, P v.
Proof.
  intros Hstep. fix IH 1. intros [p c st li]. apply Hstep.
  destruct p as [| | | | | | members | members]; intros m [Hm | Hm];
    try discriminate Hm; injection Hm as <-;
    revert members; fix IHl 1; intros [| [k x] l]; constructor;
    solve [apply IH | apply IHl].
Qed.

Lemma lexicographical_compare_snd_eq {A} (lt gt : A -> A -> Result bool) l1 :
  forall l2,
    lexicographical_compare_snd lt gt l1 l2 = lexicographical_compare lt gt l1 l2.
Proof.
  induction l1 as [| x l1 IH]; intros [| y l2]; simpl; try reflexivity.
  destruct (lt x y) as [[|] | ?]; simpl; try reflexivity.
  destruct (gt x y) as [[|] | ?]; simpl; try reflexivity.
  apply IH.
Qed.

Lemma lexicographical_compare_ext {A} (lt gt lt' gt' : A -> A -> Result bool) :
  forall l1 l2,
    (Forall (fun x => forall y, lt x y = lt' x y /\ gt x y = gt' x y) l1 \/
     Forall (fun y => forall x, lt x y = lt' x y /\ gt x y = gt' x y) l2) ->
    lexicographical_compare lt gt l1 l2 = lexicographical_compare lt' gt' l1 l2.
Proof.
  induction l1 as [| x l1 IH]; intros [| y l2] H; simpl; try reflexivity.
  assert (Hxy : lt x y = lt' x y /\ gt x y = gt' x y).
  { destruct H as [H | H]; inversion H; subst; auto. }
  destruct Hxy as [-> ->].
  destruct (lt' x y) as [[|] | ?]; simpl; try reflexivity.
  destruct (gt' x y) as [[|] | ?]; simpl; try reflexivity.
  apply IH. destruct H as [H | H]; inversion H; subst; auto.
Qed.

(** [Value_gt this other] is [other < this]: the definition written by
    recursion on the right operand agrees with [operator<] with its
    operands exchanged. *)
Lemma Value_gt_flip (a : Value) :
  forall b, Value_gt a b = Value_lt b a /\ Value_gt b a = Value_lt a b.
Proof.
  induction a as [p c st li IH] using Value_members_ind.
  intros [q c' st' li'].
  assert (Hmaps : forall tm om,
            (p = ArrayP tm \/ p = ObjectP tm) ->
            map_less_snd Value_gt Value_lt om tm
              = map_less Value_lt Value_gt om tm /\
            map_less_snd Value_gt Value_lt tm om
              = map_less Value_lt Value_gt tm om).
  { intros tm om Hp. specialize (IH tm Hp).
    unfold map_less_snd, map_less. split.
    - destruct (negb (Nat.eqb (List.length om) (List.length tm))); [reflexivity |].
      rewrite lexicographical_compare_snd_eq.
      apply lexicographical_compare_ext. right.
      eapply Forall_impl; [| exact IH]. intros [k y] Hy [k' x].
      unfold pair_gt, pair_lt. cbn [fst snd] in *.
      destruct (Hy x) as [H1 H2]. rewrite H1, H2. auto.
    - destruct (negb (Nat.eqb (List.length tm) (List.length om))); [reflexivity |].
      rewrite lexicographical_compare_snd_eq.
      apply lexicographical_compare_ext. left.
      eapply Forall_impl; [| exact IH]. intros [k x] Hx [k' y].
      unfold pair_gt, pair_lt. cbn [fst snd] in *.
      destruct (Hx y) as [H1 H2]. rewrite H1, H2. auto. }
  destruct p, q; try (split; reflexivity).
  - destruct (Hmaps v_map v_map0 (or_introl eq_refl)) as [H1 H2].
    split; [exact H1 | exact H2].
  - destruct (Hmaps v_map v_map0 (or_intror eq_refl)) as [H1 H2].
    split; [exact H1 | exact H2].
Qed.

End Ordering.

(* ===================================================================== *)
(** * Unsigned integers to text, and integers through [asString]          *)
(* ===================================================================== *)

Section MoreIntegerText.

Import Utils.

Lemma valueToString_uint64_text (u : N) :
  (u < 2 ^ 64)%N ->
  exists s,
    valueToString_uint64 u = Ok s /\
    forallb is_digit s = true /\
    decimal_value s = Some (Z.of_N u) /\
    canonical_decimal s = true.
Proof.
  intros Hu. unfold valueToString_uint64.
  destruct (uintToString_fresh Hu) as (ds & Ht & Hc & Hne & Hd & Hv & Hhd).
  exists ds. unfold string_at. rewrite Ht, c_str_digits by exact Hd.
  destruct (Z.leb_spec 0 (current (uintToString u fresh_buffer))); [| lia].
  split; [reflexivity |]. split; [exact Hd |]. split.
  - rewrite decimal_value_digits by assumption. congruence.
  - apply canonical_digits; try assumption.
    intros H0. apply (Hhd H0).
Qed.

Lemma to_uint64_small n : 0 <= n < 2 ^ 64 -> Z.of_N (to_uint64 n) = n.
Proof.
  intros H. unfold to_uint64, wrap_unsigned.
  rewrite Z2N.id by (apply Z.mod_pos_bound; lia).
  apply Z.mod_small. exact H.
Qed.

Lemma valueToString_int64_text (n : Z) :
  minInt64 <= n <= maxInt64 ->
  exists s,
    valueToString_int64 n = Ok s /\
    decimal_value s = Some n /\
    canonical_decimal s = true.
Proof.
  unfold minInt64, maxInt64. intros Hn. unfold valueToString_int64.
  change (2 ^ 63) with 9223372036854775808 in Hn.
  assert (H64 : 2 ^ 64 = 18446744073709551616) by reflexivity.
  destruct (Z.eqb_spec n minInt64) as [Hmin | Hmin].
  - subst n. apply signed_text; vm_compute; reflexivity.
  - unfold minInt64 in Hmin. change (2 ^ 63) with 9223372036854775808 in Hmin.
    destruct (Z.ltb_spec n 0) as [Hneg | Hpos].
    + pose proof (@to_uint64_small (- n) ltac:(lia)) as Hu.
      apply signed_text; [| lia | lia].
      change (2 ^ 64)%N with 18446744073709551616%N. lia.
    + pose proof (@to_uint64_small n ltac:(lia)) as Hu.
      destruct (@valueToString_uint64_text (to_uint64 n))
        as (s & Hs & _ & Hv & Hcan).
      { change (2 ^ 64)%N with 18446744073709551616%N. lia. }
      exists s. unfold valueToString_uint64 in Hs.
      split; [exact Hs |]. split; [congruence | exact Hcan].
Qed.

(** X1. [valueToString(uint64_t)] returns, without tripping its assertion,
    the decimal numeral of its argument: digits only, denoting exactly
    the argument, with no leading zero except for ["0"] itself.
    [valueToString(uint32_t)] is the same function on a widened
    argument. *)
Theorem valueToString_uint64_exact (u : N) :
  (u < 2 ^ 64)%N ->
  exists s,
    valueToString_uint64 u = Ok s /\
    valueToString_uint32 u = Ok s /\
    forallb is_digit s = true /\
    decimal_value s = Some (Z.of_N u) /\
    canonical_decimal s = true.
Proof.
  intros Hu. destruct (valueToString_uint64_text Hu) as (s & Hs & H).
  exists s. split; [exact Hs |]. split; [exact Hs | exact H].
Qed.

Lemma valueToString_uint64_exact_witness :
  exists s,
    valueToString_uint64 18446744073709551615 = Ok s /\
    valueToString_uint32 18446744073709551615 = Ok s /\
    forallb is_digit s = true /\
    decimal_value s = Some 18446744073709551615 /\
    canonical_decimal s = true.
Proof.
  apply (@valueToString_uint64_exact 18446744073709551615). reflexivity.
Defined.

Variable format_double : string -> Z -> double -> option chars.

(** X2. [asString] on the values the integer and boolean constructors build:
    an [intValue] and a [uintValue] give the decimal numeral of the
    integer they were built from, a [boolValue] gives ["true"] or
    ["false"], and the null value gives the empty string; none of them
    raises. *)
Theorem asString_of_constructed (n : Z) (u : N) (b : bool) :
  minInt64 <= n <= maxInt64 ->
  (u < 2 ^ 64)%N ->
  (exists s, asString format_double (Value_of_int64 n) = Ok s /\
             decimal_value s = Some n /\ canonical_decimal s = true) /\
  (exists s, asString format_double (Value_of_uint64 u) = Ok s /\
             decimal_value s = Some (Z.of_N u) /\ canonical_decimal s = true) /\
  asString format_double (Value_of_bool b)
    = Ok (str (if b then "true" else "false")) /\
  asString format_double (Value_of_type nullValue) = Ok [].
Proof.
  intros Hn Hu. split; [| split; [| split]].
  - exact (valueToString_int64_text Hn).
  - destruct (valueToString_uint64_text Hu) as (s & Hs & _ & Hv & Hc).
    exists s. auto.
  - destruct b; reflexivity.
  - reflexivity.
Qed.

End MoreIntegerText.

Lemma asString_of_constructed_witness :
  (exists s, asString Printf.format_double (Value_of_int64 (-42)) = Ok s /\
             decimal_value s = Some (-42) /\ canonical_decimal s = true) /\
  (exists s, asString Printf.format_double (Value_of_uint64 42) = Ok s /\
             decimal_value s = Some 42 /\ canonical_decimal s = true) /\
  asString Printf.format_double (Value_of_bool true) = Ok (str "true") /\
  asString Printf.format_double (Value_of_type nullValue) = Ok [].
Proof.
  apply (@asString_of_constructed Printf.format_double (-42) 42%N true).
  - unfold minInt64, maxInt64. lia.
  - reflexivity.
Defined.

(* ===================================================================== *)
(** * Doubles to text, significant digits; the two buffer clean-ups       *)
(* ===================================================================== *)

Section RealText.

Import Utils.

Lemma find_fix_char_comma buf : find (map fix_char buf) "," = false.
Proof.
  unfold find. induction buf as [| c buf IH]; cbn [map existsb]; [reflexivity |].
  rewrite IH, orb_false_r. unfold fix_char.
  destruct (Ascii.eqb_spec c ",") as [-> | Hc]; [reflexivity |].
  destruct (Ascii.eqb_spec "," c) as [<- | _]; [contradiction | reflexivity].
Qed.

Lemma find_append buf rest c :
  find (buf ++ rest) c = find buf c || find rest c.
Proof. unfold find. apply existsb_app. Qed.

(** X3. [fixNumericLocale] turns every [','] of the range into ['.'], leaves
    the other chars and the length of the range as they are, and returns
    the end of the range; no [','] is left. *)
Theorem fixNumericLocale_replaces_commas (buf : chars) (begin : nat) :
  snd (fixNumericLocale buf begin) = (begin + List.length buf)%nat /\
  List.length (fst (fixNumericLocale buf begin)) = List.length buf /\
  (forall i, (i < List.length buf)%nat ->
     nth i (fst (fixNumericLocale buf begin)) NUL
     = if Ascii.eqb (nth i buf NUL) "," then "."%char else nth i buf NUL) /\
  find (fst (fixNumericLocale buf begin)) "," = false.
Proof.
  rewrite fixNumericLocale_map. cbn [fst snd].
  split; [reflexivity |]. split; [apply length_map |]. split.
  - intros i Hi. change NUL with (fix_char NUL) at 1.
    rewrite map_nth. reflexivity.
  - apply find_fix_char_comma.
Qed.

Variable format_double : string -> Z -> double -> option chars.

(** X4. [valueToString] of a finite double in significant-digits mode.
    When [snprintf("%.*g")] reports an error, the assertion on its result
    fails and a logic error is raised.  When it reports success, the
    result is its text with every [','] turned into ['.'], and [".0"]
    appended to it exactly when it holds neither a ['.'] nor an ['e']; it
    therefore always holds a ['.'] or an ['e'] and never a [','].
    [useSpecialFloats] plays no part for a finite double. *)
Theorem valueToString_significant_digits (value : double)
  (useSpecialFloats : bool) (precision : N) :
  isfinite value = true ->
  (snprintf_int
     (format_double "%.*g"%string (to_int32 (Z.of_N precision)) value) < 0 ->
   valueToString_double format_double value useSpecialFloats precision
     significantDigits
   = Throw (LogicError "assert json failed")) /\
  (forall printed,
     format_double "%.*g"%string (to_int32 (Z.of_N precision)) value
     = Some printed ->
     0 <= snprintf_int
            (format_double "%.*g"%string (to_int32 (Z.of_N precision))
               value) ->
     let text := map fix_char printed in
     let s := if find text "." || find text "e" then text
              else text ++ str ".0" in
     valueToString_double format_double value useSpecialFloats precision
       significantDigits = Ok s /\
     find s "." || find s "e" = true /\
     find s "," = false).
Proof.
  intros Hfin. split.
  - apply (@valueToString_snprintf_error format_double value useSpecialFloats
             precision significantDigits Hfin).
  - intros printed Hprinted Hlen text s.
    unfold valueToString_double. rewrite Hfin. cbn [negb].
    rewrite Hprinted in *. rewrite print_loop_whole by exact Hlen.
    cbn [bind].
    rewrite fixNumericLocale_map. cbv zeta. cbn [Nat.add]. fold text.
    replace (List.length printed)
      with (List.length text) by (unfold text; apply length_map).
    rewrite erase_nothing. subst s.
    split; [| split].
    + destruct (find text ".") eqn:Hdot; [reflexivity |].
      destruct (find text "e") eqn:He; reflexivity.
    + destruct (find text ".") eqn:Hdot; cbn [orb]; [rewrite Hdot; reflexivity |].
      destruct (find text "e") eqn:He; [rewrite He; apply orb_true_r |].
      rewrite find_append. rewrite Hdot. reflexivity.
    + destruct (find text "." || find text "e").
      * apply find_fix_char_comma.
      * rewrite find_append. unfold text. rewrite find_fix_char_comma.
        reflexivity.
Qed.

End RealText.

(** 3.0 with 17 significant digits: ["3"] becomes ["3.0"].  And with a C
    library whose [snprintf] reports an error, a logic error. *)
Lemma valueToString_significant_digits_witness :
  (Utils.valueToString_double Printf.format_double (double_of_Z 3) false 17
     significantDigits
   = Ok (str "3.0") /\
   Utils.find (str "3.0") "." || Utils.find (str "3.0") "e" = true /\
   Utils.find (str "3.0") "," = false) /\
  Utils.valueToString_double (fun _ _ _ => None) (double_of_Z 3) false 17
    significantDigits
  = Throw (LogicError "assert json failed").
Proof.
  split.
  - apply (proj2 (@valueToString_significant_digits Printf.format_double
                    (double_of_Z 3) false 17 eq_refl) (str "3")).
    + vm_compute. reflexivity.
    + vm_compute. discriminate.
  - apply (proj1 (@valueToString_significant_digits (fun _ _ _ => None)
                    (double_of_Z 3) false 17 eq_refl)).
    reflexivity.
Defined.

Section TrailingZeros.

Import Utils.

(** X5. [fixZerosInTheEnd] on any range.  The returned position lies in the
    range, and what lies between it and the end is a row of ['0']s,
    preceded, only when the precision is 0, by the ['.'] in front of
    them.  The trimming goes as far as it may: it stops at the beginning
    of the range, or behind a char that is not ['0'], or, for a nonzero
    precision, behind the ['0'] that follows a ['.']. *)
Theorem fixZerosInTheEnd_trims_zeros (buf : chars) (begin end_ : nat)
  (precision : N) :
  (begin <= end_)%nat ->
  let r := fixZerosInTheEnd buf begin end_ precision in
  (begin <= r <= end_)%nat /\
  (forall i, (r <= i < end_)%nat ->
     nth i buf NUL = "0"%char \/
     (precision = 0%N /\ i = r /\ nth i buf NUL = "."%char)) /\
  (r = begin \/
   nth (r - 1) buf NUL <> "0"%char \/
   (precision <> 0%N /\ (begin + 2 < r)%nat /\
    nth (r - 1) buf NUL = "0"%char /\ nth (r - 2) buf NUL = "."%char) \/
   (precision = 0%N /\ (r + 2 <= end_)%nat /\
    nth r buf NUL = "."%char /\ nth (r + 1) buf NUL = "0"%char)).
Proof.
  induction end_ as [| end1 IH]; intros Hle; cbn [fixZerosInTheEnd].
  - destruct (Nat.eqb_spec begin 0) as [-> | Hne]; cbv zeta;
      (split; [lia |]); (split; [intros i Hi; lia |]); left; lia.
  - destruct (Nat.eqb_spec begin (S end1)) as [-> | Hne]; cbv zeta.
    { split; [lia |]. split; [intros i Hi; lia |]. left; reflexivity. }
    assert (Hle1 : (begin <= end1)%nat) by lia. specialize (IH Hle1).
    cbv zeta in IH. destruct IH as (Hr & Hzeros & Hstop0).
    set (r1 := fixZerosInTheEnd buf begin end1 precision) in *.
    assert (Hstop :
              r1 = begin \/
              nth (r1 - 1) buf NUL <> "0"%char \/
              (precision <> 0%N /\ (begin + 2 < r1)%nat /\
               nth (r1 - 1) buf NUL = "0"%char /\
               nth (r1 - 2) buf NUL = "."%char) \/
              (precision = 0%N /\ (r1 + 2 <= S end1)%nat /\
               nth r1 buf NUL = "."%char /\ nth (r1 + 1) buf NUL = "0"%char)).
    { destruct Hstop0 as [H | [H | [H | (Hp & Hlt & H)]]]; auto.
      right; right; right. split; [exact Hp |]. split; [lia | exact H]. }
    clear Hstop0.
    destruct (Ascii.eqb_spec (nth end1 buf NUL) "0") as [H0 | H0]; cbn [negb].
    2:{ split; [lia |]. split; [intros i Hi; lia |].
        right; left. cbn [Nat.sub]. rewrite Nat.sub_0_r. exact H0. }
    destruct (Nat.eqb_spec begin end1) as [-> | Hb1]; cbn [negb andb].
    { split; [lia |]. split.
      - intros i Hi.
        assert (Hi' : i = end1 \/ (r1 <= i < end1)%nat) by lia.
        destruct Hi' as [-> | Hi']; [left; exact H0 | apply Hzeros, Hi'].
      - left. lia. }
    destruct (Nat.eqb_spec begin (end1 - 1)) as [Hb2 | Hb2]; cbn [negb andb].
    { split; [lia |]. split.
      - intros i Hi.
        assert (Hi' : i = end1 \/ (r1 <= i < end1)%nat) by lia.
        destruct Hi' as [-> | Hi']; [left; exact H0 | apply Hzeros, Hi'].
      - exact Hstop. }
    destruct (Ascii.eqb_spec (nth (end1 - 1) buf NUL) ".") as [Hdot | Hdot].
    + destruct (N.eqb_spec precision 0) as [Hp | Hp]; cbn [negb].
      * split; [lia |]. split.
        -- intros i Hi.
           assert (Hi' : i = (S end1 - 2)%nat \/ i = end1) by lia.
           destruct Hi' as [-> | ->].
           ++ right. replace (S end1 - 2)%nat with (end1 - 1)%nat by lia. auto.
           ++ left. exact H0.
        -- right; right; right. split; [exact Hp |]. split; [lia |].
           replace (S end1 - 2)%nat with (end1 - 1)%nat by lia.
           replace (end1 - 1 + 1)%nat with end1 by lia. auto.
      * split; [lia |]. split; [intros i Hi; lia |].
        right; right; left. split; [exact Hp |]. split; [lia |].
        replace (S end1 - 1)%nat with end1 by lia.
        replace (S end1 - 2)%nat with (end1 - 1)%nat by lia. auto.
    + split; [lia |]. split.
      * intros i Hi.
        assert (Hi' : i = end1 \/ (r1 <= i < end1)%nat) by lia.
        destruct Hi' as [-> | Hi']; [left; exact H0 | apply Hzeros, Hi'].
      * exact Hstop.
Qed.

End TrailingZeros.

Lemma fixZerosInTheEnd_trims_zeros_witness :
  let buf := str "12.5000" in
  let r := Utils.fixZerosInTheEnd buf 0 7 3 in
  (0 <= r <= 7)%nat /\
  (forall i, (r <= i < 7)%nat ->
     nth i buf NUL = "0"%char \/
     (3%N = 0%N /\ i = r /\ nth i buf NUL = "."%char)) /\
  (r = 0%nat \/
   nth (r - 1) buf NUL <> "0"%char \/
   (3%N <> 0%N /\ (0 + 2 < r)%nat /\
    nth (r - 1) buf NUL = "0"%char /\ nth (r - 2) buf NUL = "."%char) \/
   (3%N = 0%N /\ (r + 2 <= 7)%nat /\
    nth r buf NUL = "."%char /\ nth (r + 1) buf NUL = "0"%char)).
Proof.
  apply (@fixZerosInTheEnd_trims_zeros (str "12.5000") 0 7 3).
  apply Nat.le_0_l.
Defined.

(* ===================================================================== *)
(** * String values: construction and the views of the chars             *)
(* ===================================================================== *)

Section StringValues.

Variable new_chars : N -> bool.
Variable format_double : string -> Z -> double -> option chars.

Lemma firstn_strlen s : firstn (N.to_nat (strlen s)) s = c_str s.
Proof.
  induction s as [| c s IH]; [reflexivity |]. cbn [strlen c_str].
  destruct (Ascii.eqb c NUL); [reflexivity |].
  rewrite N2Nat.inj_succ. cbn [firstn]. rewrite IH. reflexivity.
Qed.

Lemma strlen_c_str s : strlen s = N.of_nat (List.length (c_str s)).
Proof.
  induction s as [| c s IH]; [reflexivity |]. cbn [strlen c_str].
  destruct (Ascii.eqb c NUL); [reflexivity |].
  cbn [List.length]. rewrite IH. lia.
Qed.

Lemma to_uint32_small z : 0 <= z < 2 ^ 32 -> to_uint32 z = Z.to_N z.
Proof.
  intros H. unfold to_uint32, wrap_unsigned. rewrite Z.mod_small by exact H.
  reflexivity.
Qed.

Lemma firstn_exact (X : Type) (l rest : list X) :
  firstn (List.length l) (l ++ rest) = l.
Proof.
  rewrite firstn_app, firstn_all, Nat.sub_diag. cbn [firstn].
  apply app_nil_r.
Qed.

(** What the three string constructors that copy their argument store:
    the chars and their number, behind the allocated flag. *)
Lemma prefixed_copy (value : chars) :
  Z.of_nat (List.length value) <= maxInt - 5 ->
  (forall n, new_chars n = true) ->
  duplicateAndPrefixStringValue new_chars value
    (to_uint32 (Z.of_nat (List.length value)))
  = Ok (Prefixed (N.of_nat (List.length value)) (value ++ [NUL])).
Proof.
  unfold maxInt. change (2 ^ 31 - 1 - 5) with 2147483642. intros Hlen Hnew.
  rewrite to_uint32_small
    by (change (2 ^ 32) with 4294967296; lia).
  replace (Z.to_N (Z.of_nat (List.length value)))
    with (N.of_nat (List.length value)) by lia.
  rewrite (@duplicateAndPrefixStringValue_limit new_chars) by apply Hnew.
  change (2 ^ 31 - 6)%N with 2147483642%N.
  destruct (N.leb_spec (N.of_nat (List.length value)) 2147483642) as [_ | H];
    [| lia].
  rewrite Nat2N.id, firstn_all. reflexivity.
Qed.

(** X6. A string value built from a range of chars or from a [std::string]
    of at most 2^31 - 6 chars gives the same chars back, embedded zeros
    included: [asString] returns them, [getString] returns their range,
    [getCStringLength] their number, and [asCString] points to them,
    followed by a terminator.  None of the four raises. *)
Theorem Value_of_string_round_trip (s : chars) :
  Z.of_nat (List.length s) <= maxInt - 5 ->
  (forall n, new_chars n = true) ->
  exists v,
    Value_of_string new_chars s = Ok v /\
    type v = stringValue /\
    asString format_double v = Ok s /\
    getString v = Some s /\
    getCStringLength v = Ok (N.of_nat (List.length s)) /\
    asCString v = Ok (Some (s ++ [NUL])).
Proof.
  intros Hlen Hnew. unfold Value_of_string.
  rewrite (prefixed_copy _ Hlen Hnew). cbn [bind].
  eexists. split; [reflexivity |]. split; [reflexivity |].
  unfold asString, getString, getCStringLength, asCString.
  cbn [store payload type initBasic unset_payload decodePrefixedString
       ValueType_eqb JSON_ASSERT_MESSAGE bind].
  rewrite Nat2N.id, firstn_exact. repeat split.
Qed.

(** X7. A string value built from a [const char*] holds the chars up to the
    first terminator, and a null pointer is refused with a logic error. *)
Theorem Value_of_cstr_copies_to_terminator (s : chars) :
  Z.of_N (strlen s) <= maxInt - 5 ->
  (forall n, new_chars n = true) ->
  (exists v,
     Value_of_cstr new_chars (Some s) = Ok v /\
     asString format_double v = Ok (c_str s) /\
     getString v = Some (c_str s) /\
     getCStringLength v = Ok (strlen s) /\
     asCString v = Ok (Some (c_str s ++ [NUL]))) /\
  Value_of_cstr new_chars None
  = Throw (LogicError "Null Value Passed to Value Constructor").
Proof.
  unfold maxInt. change (2 ^ 31 - 1 - 5) with 2147483642. intros Hlen Hnew.
  split; [| reflexivity].
  unfold Value_of_cstr. cbn [is_null negb JSON_ASSERT_MESSAGE bind deref].
  rewrite to_uint32_small
    by (change (2 ^ 32) with 4294967296; lia).
  rewrite N2Z.id.
  rewrite (@duplicateAndPrefixStringValue_limit new_chars) by apply Hnew.
  change (2 ^ 31 - 6)%N with 2147483642%N.
  destruct (N.leb_spec (strlen s) 2147483642) as [_ | H]; [| lia].
  cbn [bind]. rewrite firstn_strlen.
  eexists. split; [reflexivity |].
  unfold asString, getString, getCStringLength, asCString.
  cbn [store payload type initBasic unset_payload decodePrefixedString
       ValueType_eqb JSON_ASSERT_MESSAGE bind].
  rewrite strlen_c_str at 1 2. rewrite Nat2N.id, firstn_exact.
  repeat split.
Qed.

(** X8. A string value built from a [StaticString] shares the caller's
    buffer: [asCString] returns the very pointer and the views read the
    chars up to the terminator.  Built from a null pointer, it has a null
    [asCString], length 0 and no [getString] range. *)
Theorem Value_of_static_shares (s : chars) :
  (strlen s < 2 ^ 32)%N ->
  asCString (Value_of_static (Some s)) = Ok (Some s) /\
  asString format_double (Value_of_static (Some s)) = Ok (c_str s) /\
  getString (Value_of_static (Some s)) = Some (c_str s) /\
  getCStringLength (Value_of_static (Some s)) = Ok (strlen s) /\
  asCString (Value_of_static None) = Ok None /\
  getCStringLength (Value_of_static None) = Ok 0%N /\
  getString (Value_of_static None) = None.
Proof.
  intros Hlen.
  unfold asString, getString, getCStringLength, asCString, Value_of_static.
  cbn [store payload type initBasic unset_payload decodePrefixedString
       ValueType_eqb JSON_ASSERT_MESSAGE bind option_map].
  rewrite N.mod_small by exact Hlen. rewrite firstn_strlen.
  repeat split.
Qed.

End StringValues.

Lemma Value_of_string_round_trip_witness :
  exists v,
    Value_of_string (fun _ => true) ("a" :: NUL :: str "b")%char = Ok v /\
    type v = stringValue /\
    asString Printf.format_double v = Ok ("a" :: NUL :: str "b")%char /\
    getString v = Some ("a" :: NUL :: str "b")%char /\
    getCStringLength v = Ok 3%N /\
    asCString v = Ok (Some (("a" :: NUL :: str "b")%char ++ [NUL])).
Proof.
  apply (@Value_of_string_round_trip (fun _ => true) Printf.format_double
           ("a" :: NUL :: str "b")%char).
  - unfold maxInt. simpl. lia.
  - reflexivity.
Defined.

Lemma Value_of_cstr_copies_to_terminator_witness :
  (exists v,
     Value_of_cstr (fun _ => true) (Some ("a" :: NUL :: str "b")%char) = Ok v /\
     asString Printf.format_double v = Ok (str "a") /\
     getString v = Some (str "a") /\
     getCStringLength v = Ok 1%N /\
     asCString v = Ok (Some (str "a" ++ [NUL]))) /\
  Value_of_cstr (fun _ => true) None
  = Throw (LogicError "Null Value Passed to Value Constructor").
Proof.
  apply (@Value_of_cstr_copies_to_terminator (fun _ => true)
           Printf.format_double ("a" :: NUL :: str "b")%char).
  - unfold maxInt. simpl. lia.
  - reflexivity.
Defined.

Lemma Value_of_static_shares_witness :
  asCString (Value_of_static (Some (str "key" ++ [NUL])))
  = Ok (Some (str "key" ++ [NUL])) /\
  asString Printf.format_double (Value_of_static (Some (str "key" ++ [NUL])))
  = Ok (str "key").
Proof.
  pose proof (@Value_of_static_shares Printf.format_double (str "key" ++ [NUL])
                eq_refl) as (H1 & H2 & _).
  split; [exact H1 | exact H2].
Defined.

(* ===================================================================== *)
(** * The ordering of values                                              *)
(* ===================================================================== *)

Section SelfComparison.

Lemma CZString_lt_irrefl k : CZString_lt k k = Ok false.
Proof.
  unfold CZString_lt. destruct (m_cstr k) as [s |]; cbn [is_null negb andb].
  - cbn [JSON_ASSERT bind deref]. rewrite memcmp_refl. reflexivity.
  - rewrite N.ltb_irrefl. reflexivity.
Qed.

Lemma map_less_self (lt gt : Value -> Value -> Result bool) m :
  Forall (fun kv => lt (snd kv) (snd kv) = Ok false /\
                    gt (snd kv) (snd kv) = Ok false) m ->
  map_less lt gt m m = Ok false.
Proof.
  intros H. unfold map_less. rewrite Nat.eqb_refl. cbn [negb].
  induction H as [| [k x] m [Hlt Hgt] _ IH]; [reflexivity |].
  cbn [lexicographical_compare]. cbn [fst snd] in Hlt, Hgt.
  unfold pair_lt, pair_gt. cbn [fst snd].
  rewrite CZString_lt_irrefl, Hlt, Hgt. cbn [orR andR bind negb].
  exact IH.
Qed.

Lemma Value_lt_self v : Value_lt v v = Ok false.
Proof.
  induction v as [p c st li IH] using Value_members_ind.
  assert (Hmap : forall m, p = ArrayP m \/ p = ObjectP m ->
                           map_less Value_lt Value_gt m m = Ok false).
  { intros m Hp. apply map_less_self.
    eapply Forall_impl; [| exact (IH m Hp)].
    intros [k x] Hx. cbn [snd] in *.
    split; [exact Hx |]. rewrite (proj1 (Value_gt_flip x x)). exact Hx. }
  destruct p; cbn.
  - reflexivity.
  - rewrite Z.ltb_irrefl. reflexivity.
  - rewrite N.ltb_irrefl. reflexivity.
  - unfold dlt. rewrite SFltb_irrefl. reflexivity.
  - apply string_less_irrefl.
  - destruct v_bool; reflexivity.
  - apply Hmap. left; reflexivity.
  - apply Hmap. right; reflexivity.
Qed.

(** X9. No value is less than itself, whatever it holds and however deeply
    it is nested: [v < v] and [v > v] are false, [v <= v] and [v >= v]
    are true, [compare] gives 0, and none of them raises. *)
Theorem Value_self_comparison (v : Value) :
  Value_lt v v = Ok false /\
  Value_gt v v = Ok false /\
  Value_le v v = Ok true /\
  Value_ge v v = Ok true /\
  compare v v = Ok 0.
Proof.
  pose proof (Value_lt_self v) as Hlt.
  assert (Hgt : Value_gt v v = Ok false)
    by (rewrite (proj1 (Value_gt_flip v v)); exact Hlt).
  unfold Value_le, Value_ge, compare. rewrite Hlt, Hgt.
  repeat split.
Qed.

(** X10. [v == v] is true for the null value only: for every other value,
    scalar, array or object, [operator==] answers what [operator<]
    answers, false, and [operator!=] answers true. *)
Theorem Value_eq_self_only_null (v : Value) :
  Value_eq v v = Ok (isNull v) /\
  Value_ne v v = Ok (negb (isNull v)).
Proof.
  assert (H : Value_eq v v = Ok (isNull v)).
  { pose proof (Value_lt_self v) as Hlt.
    destruct v as [[] c st li]; try exact Hlt; reflexivity. }
  unfold Value_ne. rewrite H. split; reflexivity.
Qed.

(** X11. Values of two different variants are ordered by the variants alone,
    in the order of the enumeration (null, int, uint, real, string, bool,
    array, object): exactly one of [a < b] and [b < a] holds, they are
    not equal, and [compare] is never 0. *)
Theorem Value_lt_across_variants (a b : Value) :
  type a <> type b ->
  Value_lt a b = Ok (ValueType_value (type a) <? ValueType_value (type b)) /\
  Value_lt b a = Ok (negb (ValueType_value (type a)
                           <? ValueType_value (type b))) /\
  Value_eq a b = Ok false /\
  compare a b = Ok (if ValueType_value (type a) <? ValueType_value (type b)
                    then -1 else 1).
Proof.
  intros Ht.
  assert (Hab : Value_lt a b
                = Ok (ValueType_value (type a) <? ValueType_value (type b))).
  { destruct a as [[] ? ? ?], b as [[] ? ? ?];
      try reflexivity; exfalso; apply Ht; reflexivity. }
  assert (Hba : Value_lt b a
                = Ok (negb (ValueType_value (type a)
                            <? ValueType_value (type b)))).
  { destruct a as [[] ? ? ?], b as [[] ? ? ?];
      try reflexivity; exfalso; apply Ht; reflexivity. }
  split; [exact Hab |]. split; [exact Hba |]. split.
  - destruct a as [[] ? ? ?], b as [[] ? ? ?];
      try reflexivity; exfalso; apply Ht; reflexivity.
  - unfold compare. rewrite Hab, (proj1 (Value_gt_flip a b)), Hba. cbn [bind].
    destruct (ValueType_value (type a) <? ValueType_value (type b));
      reflexivity.
Qed.

End SelfComparison.

Lemma Value_lt_across_variants_witness :
  Value_lt (Value_of_int64 5) (Value_of_uint64 3) = Ok true /\
  Value_lt (Value_of_uint64 3) (Value_of_int64 5) = Ok false /\
  Value_eq (Value_of_int64 5) (Value_of_uint64 3) = Ok false /\
  compare (Value_of_int64 5) (Value_of_uint64 3) = Ok (-1).
Proof.
  apply (@Value_lt_across_variants (Value_of_int64 5) (Value_of_uint64 3)).
  discriminate.
Defined.

Section StringOrder.

Variable new_chars : N -> bool.

Lemma memcmp_none a b : memcmp a b 0 = 0.
Proof. destruct a; reflexivity. Qed.

Lemma memcmp_lexicographic a : forall b ra rb,
  (let comp := memcmp (a ++ ra) (b ++ rb)
                 (Nat.min (List.length a) (List.length b)) in
   if comp <? 0 then true
   else if 0 <? comp then false
   else (N.of_nat (List.length a) <? N.of_nat (List.length b))%N)
  = bytes_lt a b.
Proof.
  induction a as [| x a IH]; intros [| y b] ra rb.
  - cbn [List.length Nat.min]. rewrite memcmp_none. reflexivity.
  - cbn [List.length Nat.min]. rewrite memcmp_none. reflexivity.
  - cbn [List.length Nat.min]. rewrite memcmp_none. reflexivity.
  - cbn [List.length Nat.min memcmp bytes_lt app]. cbv zeta.
    destruct (N.ltb_spec (uchar x) (uchar y)) as [Hxy | Hxy]; [reflexivity |].
    destruct (N.ltb_spec (uchar y) (uchar x)) as [Hyx | Hyx].
    + cbn [Z.ltb Z.compare orb].
      destruct (N.eqb_spec (uchar x) (uchar y)); [lia | reflexivity].
    + cbn [orb]. destruct (N.eqb_spec (uchar x) (uchar y)); [| lia].
      cbn [andb]. rewrite <- (IH b ra rb). cbv zeta.
      replace (N.of_nat (S (List.length a)) <? N.of_nat (S (List.length b)))%N
        with (N.of_nat (List.length a) <? N.of_nat (List.length b))%N;
        [reflexivity |].
      destruct (N.ltb_spec (N.of_nat (List.length a)) (N.of_nat (List.length b)));
        symmetry; [apply N.ltb_lt | apply N.ltb_ge]; lia.
Qed.

Lemma string_less_prefixed a b ra rb :
  string_less true (Some (Prefixed (N.of_nat (List.length a)) (a ++ ra)))
              true (Some (Prefixed (N.of_nat (List.length b)) (b ++ rb)))
  = Ok (bytes_lt a b).
Proof.
  unfold string_less, decodePrefixedString. cbn [JSON_ASSERT bind].
  rewrite <- (memcmp_lexicographic a b ra rb). cbv zeta.
  replace (N.to_nat (N.min (N.of_nat (List.length a)) (N.of_nat (List.length b))))
    with (Nat.min (List.length a) (List.length b)) by lia.
  destruct (memcmp _ _ _ <? 0); [reflexivity |].
  destruct (0 <? memcmp _ _ _); reflexivity.
Qed.

Lemma bytes_lt_prefix a c t : bytes_lt a (a ++ c :: t) = true.
Proof.
  induction a as [| x a IH]; [reflexivity |]. cbn [app bytes_lt].
  rewrite N.ltb_irrefl, N.eqb_refl. exact IH.
Qed.

(** X12. Two string values built from copied chars are ordered as their
    chars are, byte by byte as unsigned chars, and a string that is a
    strict prefix of another one is less than it: the length breaks the
    tie, in contrast with the keys. *)
Theorem Value_lt_strings_lexicographic (a b : chars) :
  Z.of_nat (List.length a) <= maxInt - 5 ->
  Z.of_nat (List.length b) <= maxInt - 5 ->
  (forall n, new_chars n = true) ->
  exists va vb,
    Value_of_string new_chars a = Ok va /\
    Value_of_string new_chars b = Ok vb /\
    Value_lt va vb = Ok (bytes_lt a b) /\
    Value_gt va vb = Ok (bytes_lt b a) /\
    (forall c t, b = a ++ c :: t ->
       Value_lt va vb = Ok true /\ Value_lt vb va = Ok false).
Proof.
  intros Ha Hb Hnew. unfold Value_of_string.
  rewrite (@prefixed_copy new_chars a Ha Hnew),
    (@prefixed_copy new_chars b Hb Hnew). cbn [bind].
  eexists. eexists. split; [reflexivity |]. split; [reflexivity |].
  assert (Hlt : forall x y,
            Value_lt
              (store (initBasic stringValue true)
                 (StringP true
                    (Some (Prefixed (N.of_nat (List.length x)) (x ++ [NUL])))))
              (store (initBasic stringValue true)
                 (StringP true
                    (Some (Prefixed (N.of_nat (List.length y)) (y ++ [NUL])))))
            = Ok (bytes_lt x y)).
  { intros x y. cbn. apply string_less_prefixed. }
  split; [apply Hlt |]. split.
  - rewrite (proj1 (Value_gt_flip _ _)). apply Hlt.
  - intros c t ->. rewrite !Hlt. rewrite bytes_lt_prefix.
    split; [reflexivity |]. f_equal.
    clear. induction a as [| x a IH]; [reflexivity |]. cbn [app bytes_lt].
    rewrite N.ltb_irrefl, N.eqb_refl. exact IH.
Qed.

End StringOrder.

Lemma Value_lt_strings_lexicographic_witness :
  exists va vb,
    Value_of_string (fun _ => true) (str "a") = Ok va /\
    Value_of_string (fun _ => true) (str "ab") = Ok vb /\
    Value_lt va vb = Ok (bytes_lt (str "a") (str "ab")) /\
    Value_gt va vb = Ok (bytes_lt (str "ab") (str "a")) /\
    (forall c t, str "ab" = str "a" ++ c :: t ->
       Value_lt va vb = Ok true /\ Value_lt vb va = Ok false).
Proof.
  apply (@Value_lt_strings_lexicographic (fun _ => true) (str "a") (str "ab")).
  - unfold maxInt. simpl. lia.
  - unfold maxInt. simpl. lia.
  - reflexivity.
Defined.

(* ===================================================================== *)
(** * Keys: equality and copies                                           *)
(* ===================================================================== *)

Section MoreKeys.

Lemma uchar_inj x y : uchar x = uchar y -> x = y.
Proof.
  unfold uchar. intros H.
  rewrite <- (ascii_N_embedding x), <- (ascii_N_embedding y), H. reflexivity.
Qed.

Lemma memcmp_zero_iff n : forall a b,
  (n <= List.length a)%nat -> (n <= List.length b)%nat ->
  (memcmp a b n = 0 <-> firstn n a = firstn n b).
Proof.
  induction n as [| n IH]; intros a b Ha Hb.
  - rewrite memcmp_none. cbn [firstn]. tauto.
  - destruct a as [| x a]; [cbn [List.length] in Ha; lia |].
    destruct b as [| y b]; [cbn [List.length] in Hb; lia |].
    cbn [List.length] in Ha, Hb. cbn [memcmp firstn].
    destruct (N.ltb_spec (uchar x) (uchar y)) as [Hxy | Hxy].
    { split; [discriminate |]. intros H. injection H as -> _. lia. }
    destruct (N.ltb_spec (uchar y) (uchar x)) as [Hyx | Hyx].
    { split; [discriminate |]. intros H. injection H as -> _. lia. }
    assert (x = y) by (apply uchar_inj; lia). subst y.
    rewrite (IH a b) by lia. split; [intros ->; reflexivity |].
    intros H. injection H as H. exact H.
Qed.

(** Two keys that [operator==] finds equal are never ordered by
    [operator<]. *)
Lemma CZString_eq_then_not_lt (a b : CZString) :
  CZString_eq a b = Ok true -> CZString_lt a b = Ok false.
Proof.
  unfold CZString_eq, CZString_lt.
  destruct (m_cstr a) as [s |]; cbn [is_null negb andb].
  - destruct (N.eqb_spec (storage_length a) (storage_length b)) as [Hl | Hl];
      cbn [negb]; [| discriminate].
    destruct (m_cstr b) as [t |]; cbn [is_null negb JSON_ASSERT bind deref];
      [| discriminate].
    rewrite <- Hl, N.min_id. intros H. injection H as H.
    apply Z.eqb_eq in H. rewrite H. reflexivity.
  - intros H. injection H as H. apply N.eqb_eq in H. rewrite H.
    rewrite N.ltb_irrefl. reflexivity.
Qed.

(** X13. For two name keys, each with its chars behind a non-null pointer and
    a length of less than 2^30, [operator==] is true exactly when the
    lengths are equal and so are the chars; it does not raise. *)
Theorem CZString_eq_name_keys (sa sb : chars) (la lb : N)
  (pa pb : DuplicationPolicy) :
  (la < 2 ^ 30)%N -> (lb < 2 ^ 30)%N ->
  (N.to_nat la <= List.length sa)%nat ->
  (N.to_nat lb <= List.length sb)%nat ->
  exists r,
    CZString_eq (CZString_name (Some sa) la pa) (CZString_name (Some sb) lb pb)
    = Ok r /\
    (r = true <->
     la = lb /\ firstn (N.to_nat la) sa = firstn (N.to_nat lb) sb).
Proof.
  intros Hla Hlb Hsa Hsb. unfold CZString_eq.
  destruct (CZString_name_storage (Some sa) la pa) as [Ha _].
  destruct (CZString_name_storage (Some sb) lb pb) as [Hb _].
  rewrite Ha, Hb, !N.mod_small by assumption.
  cbn [m_cstr CZString_name is_null negb andb JSON_ASSERT bind deref].
  destruct (N.eqb_spec la lb) as [<- | Hne]; cbn [negb].
  - eexists. split; [reflexivity |].
    rewrite Z.eqb_eq, (memcmp_zero_iff _ _ Hsa Hsb). tauto.
  - exists false. split; [reflexivity |].
    split; [discriminate | intros [H _]; contradiction].
Qed.

Lemma storage_word_split w :
  storage_word (N.land w 3) (N.shiftr w 2) = w.
Proof.
  unfold storage_word. apply N.bits_inj. intros n.
  rewrite N.lor_spec, N.land_spec.
  destruct (N.ltb_spec n 2) as [Hn | Hn].
  - rewrite N.shiftl_spec_low by exact Hn. rewrite orb_false_r.
    assert (H3 : N.testbit 3 n = true).
    { assert (Hc : n = 0%N \/ n = 1%N) by lia.
      destruct Hc as [-> | ->]; reflexivity. }
    rewrite H3. apply andb_true_r.
  - rewrite N.shiftl_spec_high' by exact Hn.
    rewrite N.shiftr_spec', N.sub_add by exact Hn.
    assert (H3 : N.testbit 3 n = false).
    { change 3%N with (N.ones 2). apply N.ones_spec_high. exact Hn. }
    rewrite H3, andb_false_r. reflexivity.
Qed.

Lemma memcmp_copy n : forall s rest,
  (n <= List.length s)%nat -> memcmp (firstn n s ++ rest) s n = 0.
Proof.
  induction n as [| n IH]; intros s rest Hn.
  - apply memcmp_none.
  - destruct s as [| c s]; [cbn [List.length] in Hn; lia |].
    cbn [List.length] in Hn. cbn [firstn app memcmp].
    rewrite N.ltb_irrefl. apply IH. lia.
Qed.

Variable new_chars : N -> bool.

(** X14. The copy constructor of a key.  An index key and a static name key
    are copied as they are, pointer included.  A name key with one of the
    two duplicating policies gets a private copy of its chars (all of
    them: the 30-bit length is below the cap of the duplication), the
    policy [duplicate] and the same length.  In each case the copy
    equals its source under [operator==] and is not less than it. *)
Theorem CZString_copy_equals_source (k : CZString) :
  (forall n, new_chars n = true) ->
  (m_word k < 2 ^ 32)%N ->
  (forall s, m_cstr k = Some s ->
             (N.to_nat (storage_length k) <= List.length s)%nat) ->
  exists k',
    CZString_copy new_chars k = Ok k' /\
    CZString_length k' = CZString_length k /\
    CZString_eq k' k = Ok true /\
    CZString_lt k' k = Ok false /\
    (m_cstr k = None \/ isStaticString k = true -> k' = k) /\
    (forall s, m_cstr k = Some s -> isStaticString k = false ->
       m_cstr k' = Some (firstn (N.to_nat (storage_length k)) s ++ [NUL]) /\
       storage_policy k' = DuplicationPolicy_value duplicate).
Proof.
  intros Hnew Hword Hlen. destruct k as [cstr w].
  unfold CZString_length, isStaticString, storage_policy, storage_length in *.
  cbn [m_cstr m_word] in *.
  assert (Hl30 : (N.shiftr w 2 < 2 ^ 30)%N).
  { rewrite N.shiftr_div_pow2. apply N.Div0.div_lt_upper_bound.
    change (2 ^ 2 * 2 ^ 30)%N with (2 ^ 32)%N. exact Hword. }
  assert (Hshare : forall k, k = {| m_cstr := cstr; m_word := w |} ->
            CZString_eq k k = Ok true /\ CZString_lt k k = Ok false).
  { intros k _. split; [| apply CZString_lt_irrefl].
    unfold CZString_eq. destruct (m_cstr k); cbn [is_null negb andb].
    - rewrite N.eqb_refl. cbn [negb JSON_ASSERT bind deref].
      rewrite memcmp_refl. reflexivity.
    - rewrite N.eqb_refl. reflexivity. }
  unfold CZString_copy, storage_policy, storage_length. cbn [m_cstr m_word].
  change (DuplicationPolicy_value noDuplication) with 0%N.
  destruct cstr as [s |]; cbn [is_null negb andb].
  - destruct (N.eqb_spec (N.land w 3) 0) as [Hp | Hp]; cbn [negb bind].
    + (* static *)
      assert (Hk : storage_word (N.land 0 3) (N.shiftr w 2) = w).
      { change (N.land 0 3) with 0%N. rewrite <- Hp.
        apply storage_word_split. }
      rewrite Hk. eexists. split; [reflexivity |].
      split; [reflexivity |].
      destruct (Hshare _ eq_refl) as [He Hl].
      split; [exact He |]. split; [exact Hl |].
      split; [reflexivity |]. intros s' _ H. discriminate H.
    + (* duplicated *)
      rewrite (@duplicateStringValue_kept new_chars) by apply Hnew.
      change (2 ^ 31 - 2)%N with 2147483646%N.
      change (2 ^ 30)%N with 1073741824%N in Hl30.
      rewrite N.min_l by lia. cbn [bind deref].
      set (len := N.shiftr w 2) in *.
      assert (Hstore : N.shiftr (storage_word
                          (N.land (DuplicationPolicy_value duplicate) 3) len) 2
                       = len /\
                       N.land (storage_word
                          (N.land (DuplicationPolicy_value duplicate) 3) len) 3
                       = DuplicationPolicy_value duplicate).
      { pose proof (CZString_name_storage None len duplicate) as [H1 H2].
        unfold storage_length, storage_policy, CZString_name in H1, H2.
        cbn [m_word] in H1, H2.
        assert (Hmask : N.land len 1073741823 = len).
        { change 1073741823%N with (N.ones 30). rewrite N.land_ones.
          apply N.mod_small. exact Hl30. }
        rewrite Hmask in H1, H2. rewrite H1, H2.
        split; [apply N.mod_small; exact Hl30 | reflexivity]. }
      destruct Hstore as [Hs1 Hs2].
      eexists. split; [reflexivity |]. cbn [m_word m_cstr].
      split; [exact Hs1 |].
      pose proof (Hlen s eq_refl) as Hls.
      split; [| split; [| split]].
      * unfold CZString_eq, storage_length. cbn [m_cstr m_word is_null].
        rewrite Hs1. fold len. rewrite N.eqb_refl.
        cbn [negb andb JSON_ASSERT bind deref].
        rewrite memcmp_copy by exact Hls. reflexivity.
      * unfold CZString_lt, storage_length. cbn [m_cstr m_word is_null].
        rewrite Hs1. fold len. rewrite N.min_id.
        cbn [negb andb JSON_ASSERT bind deref].
        rewrite memcmp_copy by exact Hls. reflexivity.
      * intros [H | H]; discriminate H.
      * intros s' H _. injection H as <-. split; [reflexivity | exact Hs2].
  - (* index *)
    rewrite andb_false_r. cbn [bind].
    rewrite <- N.land_assoc. change (N.land 3 3) with 3%N.
    rewrite storage_word_split.
    eexists. split; [reflexivity |]. split; [reflexivity |].
    destruct (Hshare _ eq_refl) as [He Hl].
    split; [exact He |]. split; [exact Hl |].
    split; [reflexivity |]. intros s H. discriminate H.
Qed.

End MoreKeys.

Lemma CZString_eq_name_keys_witness :
  exists r,
    CZString_eq (CZString_name (Some (str "ab")) 2 duplicate)
                (CZString_name (Some (str "ab")) 2 noDuplication)
    = Ok r /\
    (r = true <->
     2%N = 2%N /\
     firstn (N.to_nat 2) (str "ab") = firstn (N.to_nat 2) (str "ab")).
Proof.
  apply (@CZString_eq_name_keys (str "ab") (str "ab") 2 2 duplicate
           noDuplication); try reflexivity; apply le_n.
Defined.

Lemma CZString_copy_equals_source_witness :
  exists k',
    CZString_copy (fun _ => true) (name_key "ab") = Ok k' /\
    CZString_length k' = CZString_length (name_key "ab") /\
    CZString_eq k' (name_key "ab") = Ok true /\
    CZString_lt k' (name_key "ab") = Ok false /\
    (m_cstr (name_key "ab") = None \/ isStaticString (name_key "ab") = true ->
     k' = name_key "ab") /\
    (forall s, m_cstr (name_key "ab") = Some s ->
       isStaticString (name_key "ab") = false ->
       m_cstr k'
       = Some (firstn (N.to_nat (storage_length (name_key "ab"))) s ++ [NUL]) /\
       storage_policy k' = DuplicationPolicy_value duplicate).
Proof.
  apply (@CZString_copy_equals_source (fun _ => true) (name_key "ab")).
  - reflexivity.
  - reflexivity.
  - intros s H. injection H as <-. simpl. lia.
Defined.

(* ===================================================================== *)
(** * The unsigned accessors and the conversion matrix                    *)
(* ===================================================================== *)

Section UnsignedAccess.

Lemma double_of_minus_one :
  double_of_Z (-1) = S754_finite true 4503599627370496 (-52).
Proof. vm_compute. reflexivity. Qed.

(** No double is at least 0 and at most -1. *)
Lemma InRange_zero_minus_one d : InRange d 0 (-1) = false.
Proof.
  unfold InRange, integerToDouble, dge, dle. rewrite double_of_minus_one.
  change (double_of_Z 0) with (S754_zero false).
  destruct d as [[|] | [|] | | [|] m e]; reflexivity.
Qed.

Lemma to_uint64_max z : (to_uint64 z <=? to_uint64 maxUInt)%N = true.
Proof.
  apply N.leb_le. unfold to_uint64, wrap_unsigned, maxUInt.
  change ((-1) mod 2 ^ 64) with 18446744073709551615.
  pose proof (Z.mod_pos_bound z (2 ^ 64) eq_refl) as H.
  change (2 ^ 64) with 18446744073709551616 in *. lia.
Qed.

Lemma isUInt_variants (v : Value) :
  wf_payload v ->
  isUInt v = match payload v with
             | IntP v_int => 0 <=? v_int
             | UIntP _ => true
             | _ => false
             end.
Proof.
  destruct v as [p c st li]. unfold wf_payload, isUInt. cbn [payload].
  destruct p; intros Hwf; try reflexivity.
  - rewrite to_uint64_max. apply andb_true_r.
  - apply N.leb_le. unfold to_uint64, wrap_unsigned, maxUInt.
    change (Z.to_N ((-1) mod 2 ^ 64)) with 18446744073709551615%N.
    change (2 ^ 64)%N with 18446744073709551616%N in Hwf. lia.
  - pose proof (InRange_zero_minus_one v_real) as H.
    unfold InRange, integerToDouble in H. unfold maxUInt. rewrite H.
    reflexivity.
Qed.

Lemma asUInt_variants_aux (v : Value) :
  wf_payload v ->
  isUInt v = match payload v with
             | IntP v_int => 0 <=? v_int
             | UIntP _ => true
             | _ => false
             end /\
  asUInt v = match payload v with
             | IntP v_int =>
                 if 0 <=? v_int then Ok (Z.to_N (v_int mod 2 ^ 32))
                 else Throw (LogicError "LargestInt out of UInt range")
             | UIntP v_uint => Ok (v_uint mod 2 ^ 32)%N
             | RealP _ => Throw (LogicError "double out of Int range")
             | NullP => Ok 0%N
             | BoolP v_bool => Ok (if v_bool then 1 else 0)%N
             | _ => Throw (LogicError "Type is not convertible to UInt")
             end.
Proof.
  intros Hwf. pose proof (isUInt_variants v Hwf) as Hu.
  split; [exact Hu |].
  unfold asUInt. rewrite Hu. destruct v as [[] c st li]; cbn [payload];
    try reflexivity.
  - destruct (0 <=? v_int); reflexivity.
  - cbn [JSON_ASSERT_MESSAGE bind]. f_equal.
    unfold to_uint32, wrap_unsigned.
    change (2 ^ 32) with (Z.of_N (2 ^ 32)). rewrite <- N2Z.inj_mod.
    apply N2Z.id.
  - unfold maxUInt. rewrite InRange_zero_minus_one. reflexivity.
Qed.


(** X15. [isUInt] and [asUInt] as the code has them, [maxUInt] being the
    [int32_t] -1.  [isUInt] holds for every [uintValue] and for every
    [intValue] that is not negative, whatever their size, and for no
    [realValue].  Accordingly [asUInt] never raises on a [uintValue] and
    returns it modulo 2^32, does the same on an [intValue] that is not
    negative, and raises a logic error on every [realValue]. *)
Theorem asUInt_by_variant (v : Value) :
  wf_payload v ->
  isUInt v = match payload v with
             | IntP v_int => 0 <=? v_int
             | UIntP _ => true
             | _ => false
             end /\
  asUInt v = match payload v with
             | IntP v_int =>
                 if 0 <=? v_int then Ok (Z.to_N (v_int mod 2 ^ 32))
                 else Throw (LogicError "LargestInt out of UInt range")
             | UIntP v_uint => Ok (v_uint mod 2 ^ 32)%N
             | RealP _ => Throw (LogicError "double out of Int range")
             | NullP => Ok 0%N
             | BoolP v_bool => Ok (if v_bool then 1 else 0)%N
             | _ => Throw (LogicError "Type is not convertible to UInt")
             end.
Proof. exact (@asUInt_variants_aux v). Qed.

Lemma asUInt64_variants_aux (v : Value) :
  wf_payload v ->
  asUInt64 v = match payload v with
               | IntP v_int =>
                   if 0 <=? v_int then Ok (Z.to_N v_int)
                   else Throw (LogicError "LargestInt out of UInt64 range")
               | UIntP v_uint => Ok v_uint
               | RealP _ => Throw (LogicError "double out of Int range")
               | NullP => Ok 0%N
               | BoolP v_bool => Ok (if v_bool then 1 else 0)%N
               | _ => Throw (LogicError "Type is not convertible to UInt64")
               end /\
  asLargestUInt v = asUInt64 v /\
  (forall v_real, payload v = RealP v_real ->
     isUInt64 v = dge v_real dzero && dle v_real maxUInt64AsDouble
                  && IsIntegral v_real) /\
  isUInt64 (Value_of_double (double_of_Z 1)) = true.
Proof.
  intros Hwf. split; [| split; [reflexivity | split]].
  - destruct v as [[] c st li]; unfold wf_payload in Hwf; cbn [payload] in Hwf;
      unfold asUInt64, isUInt64; cbn [payload]; try reflexivity.
    + destruct (Z.leb_spec 0 v_int) as [Hz | Hz];
        cbn [JSON_ASSERT_MESSAGE bind]; [| reflexivity].
      f_equal. unfold to_uint64, wrap_unsigned. f_equal.
      apply Z.mod_small. unfold maxInt64 in Hwf.
      change (2 ^ 63) with 9223372036854775808 in Hwf.
      change (2 ^ 64) with 18446744073709551616. lia.
    + f_equal. unfold to_uint64, wrap_unsigned.
      rewrite Z.mod_small; [apply N2Z.id |].
      change (2 ^ 64)%N with 18446744073709551616%N in Hwf.
      change (2 ^ 64) with 18446744073709551616. lia.
    + unfold maxUInt64. rewrite InRange_zero_minus_one. reflexivity.
  - intros v_real Hp. unfold isUInt64. rewrite Hp. reflexivity.
  - vm_compute. reflexivity.
Qed.


(** X16. [isUInt64] and [asUInt64]: an [intValue] is accepted when it is not
    negative and a [uintValue] always, and both are returned unchanged.
    A [realValue] is always refused by [asUInt64] with a logic error,
    [maxUInt64] being the [int64_t] -1, although [isUInt64] accepts the
    reals from 0 to 2^64 that have no fraction. *)
Theorem asUInt64_by_variant (v : Value) :
  wf_payload v ->
  asUInt64 v = match payload v with
               | IntP v_int =>
                   if 0 <=? v_int then Ok (Z.to_N v_int)
                   else Throw (LogicError "LargestInt out of UInt64 range")
               | UIntP v_uint => Ok v_uint
               | RealP _ => Throw (LogicError "double out of Int range")
               | NullP => Ok 0%N
               | BoolP v_bool => Ok (if v_bool then 1 else 0)%N
               | _ => Throw (LogicError "Type is not convertible to UInt64")
               end /\
  asLargestUInt v = asUInt64 v /\
  (forall v_real, payload v = RealP v_real ->
     isUInt64 v = dge v_real dzero && dle v_real maxUInt64AsDouble
                  && IsIntegral v_real) /\
  isUInt64 (Value_of_double (double_of_Z 1)) = true.
Proof. exact (@asUInt64_variants_aux v). Qed.

(** X17. What a typed constructor stores, the accessor of the same type gives
    back: a signed or unsigned 64-bit integer, a double and a boolean
    without condition, a signed integer through [asInt] when it fits 32
    bits, an unsigned one through [asUInt] when it is below 2^32. *)
Theorem accessor_round_trip (n : Z) (u : N) (d : double) (b : bool) :
  minInt64 <= n <= maxInt64 ->
  (u < 2 ^ 64)%N ->
  asInt64 (Value_of_int64 n) = Ok n /\
  asLargestInt (Value_of_int64 n) = Ok n /\
  asUInt64 (Value_of_uint64 u) = Ok u /\
  asLargestUInt (Value_of_uint64 u) = Ok u /\
  asDouble (Value_of_double d) = Ok d /\
  asBool (Value_of_bool b) = Ok b /\
  (minInt <= n <= maxInt -> asInt (Value_of_int64 n) = Ok n) /\
  ((u < 2 ^ 32)%N -> asUInt (Value_of_uint64 u) = Ok u).
Proof.
  intros Hn Hu.
  assert (H64 : asInt64 (Value_of_int64 n) = Ok n).
  { unfold asInt64, Value_of_int64. cbn [store payload]. f_equal.
    unfold minInt64, maxInt64 in Hn. unfold to_int64, wrap_signed.
    change (2 ^ (64 - 1)) with 9223372036854775808.
    change (2 ^ 64) with 18446744073709551616.
    change (2 ^ 63) with 9223372036854775808 in Hn.
    rewrite Z.mod_small by lia. lia. }
  assert (HU64 : asUInt64 (Value_of_uint64 u) = Ok u).
  { apply (proj1 (@asUInt64_variants_aux (Value_of_uint64 u) Hu)). }
  split; [exact H64 |]. split; [exact H64 |].
  split; [exact HU64 |]. split; [exact HU64 |].
  split; [reflexivity |]. split; [reflexivity |]. split.
  - intros H32. unfold asInt, isInt, Value_of_int64. cbn [store payload].
    destruct (Z.leb_spec minInt n); [| lia].
    destruct (Z.leb_spec n maxInt); [| lia].
    cbn [andb JSON_ASSERT_MESSAGE bind]. f_equal. apply to_int32_id. lia.
  - intros H32.
    destruct (@asUInt_variants_aux (Value_of_uint64 u) Hu) as [_ H].
    rewrite H. cbn [Value_of_uint64 store payload]. f_equal.
    apply N.mod_small. exact H32.
Qed.

End UnsignedAccess.

Lemma asUInt_by_variant_witness :
  isUInt (Value_of_int64 4294967301) = true /\
  asUInt (Value_of_int64 4294967301) = Ok 5%N.
Proof.
  apply (@asUInt_by_variant (Value_of_int64 4294967301)).
  unfold wf_payload, minInt64, maxInt64. simpl. lia.
Defined.

Lemma asUInt64_by_variant_witness :
  asUInt64 (Value_of_double (double_of_Z 1))
  = Throw (LogicError "double out of Int range") /\
  asLargestUInt (Value_of_double (double_of_Z 1))
  = asUInt64 (Value_of_double (double_of_Z 1)) /\
  (forall v_real,
     payload (Value_of_double (double_of_Z 1)) = RealP v_real ->
     isUInt64 (Value_of_double (double_of_Z 1))
     = dge v_real dzero && dle v_real maxUInt64AsDouble && IsIntegral v_real) /\
  isUInt64 (Value_of_double (double_of_Z 1)) = true.
Proof.
  apply (@asUInt64_by_variant (Value_of_double (double_of_Z 1))).
  reflexivity.
Defined.

Lemma accessor_round_trip_witness :
  asInt64 (Value_of_int64 (-7)) = Ok (-7) /\
  asLargestInt (Value_of_int64 (-7)) = Ok (-7) /\
  asUInt64 (Value_of_uint64 7) = Ok 7%N /\
  asLargestUInt (Value_of_uint64 7) = Ok 7%N /\
  asDouble (Value_of_double dzero) = Ok dzero /\
  asBool (Value_of_bool true) = Ok true /\
  (minInt <= -7 <= maxInt -> asInt (Value_of_int64 (-7)) = Ok (-7)) /\
  ((7 < 2 ^ 32)%N -> asUInt (Value_of_uint64 7) = Ok 7%N).
Proof.
  apply (@accessor_round_trip (-7) 7%N dzero true).
  - unfold minInt64, maxInt64. lia.
  - reflexivity.
Defined.

Section Matrix.

Variable format_double : string -> Z -> double -> option chars.

Lemma with_range_absorbed (a b c : bool) : a && b && c || a && b = a && b.
Proof. destruct a, b, c; reflexivity. Qed.

(** X18. The rows of [isConvertibleTo] for the numeric and boolean targets
    say exactly whether the accessor of that target returns: a value is
    convertible to [intValue] just when [asInt] returns rather than
    raises, to [uintValue] just when [asUInt] does, to [realValue] just
    when [asDouble] and [asFloat] do, and to [boolValue] just when
    [asBool] does. *)
Theorem isConvertibleTo_iff_accessor_returns (v : Value) :
  isConvertibleTo format_double v intValue = Ok (returns (asInt v)) /\
  isConvertibleTo format_double v uintValue = Ok (returns (asUInt v)) /\
  isConvertibleTo format_double v realValue = Ok (returns (asDouble v)) /\
  isConvertibleTo format_double v realValue = Ok (returns (asFloat v)) /\
  isConvertibleTo format_double v boolValue = Ok (returns (asBool v)).
Proof.
  destruct v as [p c st li].
  unfold isConvertibleTo, asInt, asUInt, asDouble, asFloat, asBool,
    isNumeric, isDouble, type.
  cbn [payload].
  split; [| split; [| split; [| split]]].
  - destruct p; try reflexivity.
    + rewrite !orb_false_r. destruct (isInt _); reflexivity.
    + rewrite !orb_false_r. destruct (isInt _); reflexivity.
    + unfold isInt. cbn [payload]. unfold InRange, integerToDouble.
      rewrite with_range_absorbed. rewrite !orb_false_r.
      destruct (dge v_real (double_of_Z minInt) && dle v_real (double_of_Z maxInt));
        reflexivity.
  - destruct p; try reflexivity.
    + rewrite !orb_false_r. destruct (isUInt _); reflexivity.
    + rewrite !orb_false_r. destruct (isUInt _); reflexivity.
    + unfold isUInt. cbn [payload]. unfold InRange, integerToDouble.
      rewrite with_range_absorbed. rewrite !orb_false_r.
      destruct (dge v_real (double_of_Z 0) && dle v_real (double_of_Z maxUInt));
        reflexivity.
  - destruct p; reflexivity.
  - destruct p; reflexivity.
  - destruct p; reflexivity.
Qed.

End Matrix.

(* ===================================================================== *)
(** * [isInt64] against [asInt64]                                         *)
(* ===================================================================== *)

Section Int64Conversion.

Lemma double_of_minInt64 :
  double_of_Z minInt64 = S754_finite true 4503599627370496 11.
Proof. vm_compute. reflexivity. Qed.

Lemma double_of_maxInt64 :
  double_of_Z maxInt64 = S754_finite false 4503599627370496 11.
Proof. vm_compute. reflexivity. Qed.

Lemma compare_cont_lt p q :
  match PosDef.Pos.compare_cont Eq p q with Lt => true | _ => false end = true ->
  Zpos p < Zpos q.
Proof.
  change (PosDef.Pos.compare_cont Eq p q) with (Pos.compare p q).
  destruct (Pos.compare_spec p q) as [H | H | H]; try discriminate.
  intros _. apply Pos2Z.pos_lt_pos. exact H.
Qed.

Lemma to_int64_range z : minInt64 <= to_int64 z <= maxInt64.
Proof.
  unfold minInt64, maxInt64, to_int64, wrap_signed.
  change (2 ^ (64 - 1)) with 9223372036854775808.
  change (2 ^ 63) with 9223372036854775808.
  pose proof (Z.mod_pos_bound (z + 9223372036854775808) (2 ^ 64) eq_refl) as H.
  change (2 ^ 64) with 18446744073709551616 in *. lia.
Qed.

Lemma mul_pow2_bound m e j :
  0 <= m < 2 ^ 53 -> 0 <= e <= j -> m * 2 ^ e < 2 ^ (53 + j).
Proof.
  intros Hm He. rewrite Z.pow_add_r by lia.
  assert (0 < 2 ^ e) by (apply Z.pow_pos_nonneg; lia).
  assert (2 ^ e <= 2 ^ j) by (apply Z.pow_le_mono_r; lia).
  apply Z.lt_le_trans with (2 ^ 53 * 2 ^ e).
  - apply Z.mul_lt_mono_pos_r; lia.
  - apply Z.mul_le_mono_nonneg_l; lia.
Qed.

Lemma truncation_bound m e :
  0 <= m < 2 ^ 53 -> e <= 10 ->
  0 <= (if 0 <=? e then m * 2 ^ e else m / 2 ^ (- e)) < 2 ^ 63.
Proof.
  intros Hm He. destruct (Z.leb_spec 0 e) as [Hpos | Hneg].
  - pose proof (@mul_pow2_bound m e 10 Hm ltac:(lia)) as H.
    change (2 ^ (53 + 10)) with (2 ^ 63) in H.
    assert (0 <= 2 ^ e) by (apply Z.pow_nonneg; lia).
    split; [apply Z.mul_nonneg_nonneg; lia | exact H].
  - assert (Hk : 0 < 2 ^ (- e)) by (apply Z.pow_pos_nonneg; lia).
    split; [apply Z.div_pos; lia |].
    apply Z.le_lt_trans with m.
    + apply Z.div_le_upper_bound; [exact Hk |].
      replace m with (1 * m) at 1 by lia.
      apply Z.mul_le_mono_nonneg_r; lia.
    + apply Z.lt_trans with (2 ^ 53); [lia | reflexivity].
Qed.

(** Between [double(minInt64)] and, strictly, [double(maxInt64)] the
    truncation of a finite double is a 64-bit integer. *)
Lemma Int64_range_finite s m e :
  valid_double (S754_finite s m e) = true ->
  dge (S754_finite s m e) (double_of_Z minInt64) = true ->
  dlt (S754_finite s m e) (double_of_Z maxInt64) = true ->
  minInt64 <= double_to_Z (S754_finite s m e) <= maxInt64.
Proof.
  intros Hv Hlo Hhi. destruct (valid_double_bounds _ _ _ Hv) as [Hm He].
  unfold dge, dlt in Hlo, Hhi.
  rewrite double_of_minInt64 in Hlo. rewrite double_of_maxInt64 in Hhi.
  unfold SFleb, SFltb, SFcompare in Hlo, Hhi.
  unfold minInt64, maxInt64, double_to_Z.
  destruct s; cbn [cond_Zopp].
  - clear Hhi. destruct (Z.compare_spec 11 e) as [He11 | He11 | He11];
      try discriminate Hlo.
    + subst e. cbv beta iota in Hlo. apply compare_cont_ge in Hlo.
      change (0 <=? 11) with true. cbv beta iota.
      change (2 ^ 11) with 2048. change (2 ^ 63) with 9223372036854775808.
      lia.
    + pose proof (@truncation_bound (Zpos m) e ltac:(lia) ltac:(lia)) as H.
      lia.
  - clear Hlo. destruct (Z.compare_spec e 11) as [He11 | He11 | He11];
      try discriminate Hhi.
    + subst e. cbv beta iota in Hhi. apply compare_cont_lt in Hhi.
      change (0 <=? 11) with true. cbv beta iota.
      change (2 ^ 11) with 2048. change (2 ^ 63) with 9223372036854775808.
      lia.
    + pose proof (@truncation_bound (Zpos m) e ltac:(lia) ltac:(lia)) as H.
      lia.
Qed.

Lemma SFltb_SFleb x y : SFltb x y = true -> SFleb x y = true.
Proof.
  unfold SFltb, SFleb. destruct (SFcompare x y) as [[| |] |];
    try discriminate; reflexivity.
Qed.

(** Conversely, a finite double inside [InRange(d, minInt64, maxInt64)]
    whose truncation is a 64-bit integer is strictly below
    [double(maxInt64)]. *)
Lemma compare_cont_le_lt p q :
  match PosDef.Pos.compare_cont Eq p q with Gt => false | _ => true end = true ->
  Zpos p <> Zpos q ->
  match PosDef.Pos.compare_cont Eq p q with Lt => true | _ => false end = true.
Proof.
  change (PosDef.Pos.compare_cont Eq p q) with (Pos.compare p q).
  destruct (Pos.compare_spec p q) as [H | H | H]; try discriminate.
  - intros _ Hne. subst q. contradiction.
  - reflexivity.
Qed.

Lemma Int64_below_limit s m e :
  dle (S754_finite s m e) (double_of_Z maxInt64) = true ->
  double_to_Z (S754_finite s m e) <= maxInt64 ->
  dlt (S754_finite s m e) (double_of_Z maxInt64) = true.
Proof.
  unfold dle, dlt. rewrite double_of_maxInt64.
  unfold SFleb, SFltb, SFcompare, maxInt64, double_to_Z.
  destruct s; [reflexivity |]. cbn [cond_Zopp]. intros Hle Hfit.
  destruct (Z.compare_spec e 11) as [He11 | He11 | He11];
    try discriminate Hle; [| reflexivity].
  subst e. cbv beta iota in Hle |- *.
  apply compare_cont_le_lt; [exact Hle |].
  intros Heq. change (0 <=? 11) with true in Hfit. cbv beta iota in Hfit.
  rewrite Heq in Hfit. apply Hfit. reflexivity.
Qed.

Lemma Int64_range_not_finite d :
  isfinite d = false ->
  dge d (double_of_Z minInt64) && dlt d (double_of_Z maxInt64) = false.
Proof.
  unfold dge, dlt. rewrite double_of_minInt64, double_of_maxInt64.
  destruct d as [s | [|] | | s m e]; intros H; try discriminate H; reflexivity.
Qed.

Lemma real_isInt64_iff d :
  valid_double d = true ->
  (dge d (double_of_Z minInt64) && dlt d (double_of_Z maxInt64)
   && IsIntegral d = true <->
   exists r,
     (JSON_ASSERT_MESSAGE (InRange d minInt64 maxInt64)
        "double out of Int range" ;;;
      Ok (to_int64 (double_to_Z d))) = Ok r /\
     fits_int64 r /\ double_is_Z d r).
Proof.
  intros Hv. split.
  - intros H. apply andb_true_iff in H as [Hr Hi].
    pose proof Hr as Hr'. apply andb_true_iff in Hr' as [Hlo Hhi].
    exists (double_to_Z d).
    assert (Hin : InRange d minInt64 maxInt64 = true).
    { unfold InRange, integerToDouble. rewrite Hlo. cbn [andb].
      apply SFltb_SFleb. exact Hhi. }
    rewrite Hin. cbn [JSON_ASSERT_MESSAGE bind].
    destruct d as [s | s | | s m e].
    + repeat split; try reflexivity; unfold minInt64, maxInt64; simpl; lia.
    + rewrite Int64_range_not_finite in Hr by reflexivity. discriminate Hr.
    + rewrite Int64_range_not_finite in Hr by reflexivity. discriminate Hr.
    + pose proof (Int64_range_finite _ _ _ Hv Hlo Hhi) as Hfit.
      rewrite to_int64_id by exact Hfit.
      split; [reflexivity |]. split; [exact Hfit |].
      apply double_is_Z_finite. split; [reflexivity |].
      apply (proj1 (IsIntegral_finite _ _ _ Hv)). exact Hi.
  - intros (r & Hok & Hfit & Hrep).
    destruct (InRange d minInt64 maxInt64) eqn:Hr; [| discriminate Hok].
    cbn [JSON_ASSERT_MESSAGE bind] in Hok. injection Hok as Hok.
    unfold InRange, integerToDouble in Hr.
    apply andb_true_iff in Hr as [Hlo Hhi].
    destruct d as [s | s | | s m e]; try contradiction.
    + rewrite IsIntegral_zero, andb_true_r.
      rewrite double_of_minInt64, double_of_maxInt64. reflexivity.
    + apply double_is_Z_finite in Hrep as [Hr Hint].
      rewrite Hlo. cbn [andb].
      rewrite (proj2 (IsIntegral_finite _ _ _ Hv) Hint), andb_true_r.
      apply Int64_below_limit; [exact Hhi |].
      rewrite <- Hr. apply Hfit.
Qed.

Lemma uint_as_int64 u :
  (u < 2 ^ 64)%N -> to_uint64 (to_int64 (Z.of_N u)) = u.
Proof.
  intros Hu. unfold to_uint64, to_int64, wrap_unsigned, wrap_signed.
  change (2 ^ (64 - 1)) with 9223372036854775808.
  change (2 ^ 64)%N with 18446744073709551616%N in Hu.
  rewrite <- (N2Z.id u) at 2. f_equal.
  rewrite Zminus_mod_idemp_l.
  replace (Z.of_N u + 9223372036854775808 - 9223372036854775808)
    with (Z.of_N u) by lia.
  apply Z.mod_small. change (2 ^ 64) with 18446744073709551616. lia.
Qed.

(** X19. [isInt64] against [asInt64].  For a value of one of the three
    numeric variants, [isInt64] is true exactly when [asInt64] returns,
    without raising a logic error, a 64-bit integer that represents the
    value without loss; this holds although [asInt64] lets the real 2^63
    through its range check, because [isInt64] rejects it.  For a boolean
    and for null, [isInt64] is false although [asInt64] returns for
    them.  For a string, an array and an object, [isInt64] is false and
    [asInt64] raises a logic error. *)
Theorem isInt64_iff_asInt64_lossless (v : Value) :
  wf_payload v ->
  match type v with
  | intValue | uintValue | realValue =>
      isInt64 v = true <->
      exists r, asInt64 v = Ok r /\ fits_int64 r /\ represents v r
  | boolValue | nullValue =>
      isInt64 v = false /\ exists r, asInt64 v = Ok r
  | _ =>
      isInt64 v = false /\
      asInt64 v = Throw (LogicError "Type is not convertible to Int64")
  end.
Proof.
  destruct v as [p c st li]. unfold wf_payload, type. cbn [payload].
  destruct p; intros Hwf.
  - split; [reflexivity | exists 0; reflexivity].
  - unfold isInt64, asInt64, represents. cbn [payload].
    split; [intros _ | reflexivity].
    exists v_int. rewrite to_int64_id by exact Hwf.
    split; [reflexivity |]. split; [exact Hwf | reflexivity].
  - unfold asInt64, isInt64, represents. cbn [payload].
    rewrite uint_as_int64 by exact Hwf.
    change (to_uint64 maxInt64) with 9223372036854775807%N.
    destruct (N.leb_spec v_uint 9223372036854775807) as [Hle | Hgt].
    + split; [intros _ | reflexivity].
      assert (Hfit : fits_int64 (Z.of_N v_uint)).
      { unfold fits_int64, minInt64, maxInt64.
        change (2 ^ 63) with 9223372036854775808. lia. }
      exists (Z.of_N v_uint). cbn [JSON_ASSERT_MESSAGE bind].
      rewrite to_int64_id by exact Hfit.
      split; [reflexivity |]. split; [exact Hfit | reflexivity].
    + split; [discriminate |]. intros (r & H & _). discriminate H.
  - unfold isInt64, asInt64, represents. cbn [payload].
    apply real_isInt64_iff. exact Hwf.
  - split; [reflexivity | reflexivity].
  - split; [reflexivity | exists (if v_bool then 1 else 0); reflexivity].
  - split; reflexivity.
  - split; reflexivity.
Qed.

End Int64Conversion.

Lemma isInt64_iff_asInt64_lossless_witness :
  isInt64 (Value_of_uint64 9223372036854775808) = true <->
  exists r, asInt64 (Value_of_uint64 9223372036854775808) = Ok r /\
            fits_int64 r /\ represents (Value_of_uint64 9223372036854775808) r.
Proof.
  apply (@isInt64_iff_asInt64_lossless (Value_of_uint64 9223372036854775808)).
  reflexivity.
Defined.

(* ===================================================================== *)
(** * Whole reals: [isUInt64] and [isIntegral]                            *)
(* ===================================================================== *)

Section WholeReals.

Lemma maxUInt64AsDouble_value :
  maxUInt64AsDouble = S754_finite false 4503599627370496 12.
Proof. vm_compute. reflexivity. Qed.

(** A double above the subnormal range carries all 53 bits. *)
Lemma valid_double_normal s m e :
  valid_double (S754_finite s m e) = true -> -1074 < e -> 2 ^ 52 <= Zpos m.
Proof.
  unfold valid_double, valid_binary, bounded, canonical_mantissa.
  intros H He. apply andb_true_iff in H as [Hc _]. apply Z.eqb_eq in Hc.
  unfold fexp, emin, prec64, emax64 in Hc.
  pose proof (@Zdigits2_bounds (Zpos m) eq_refl) as [Hlo _].
  cbn [Zdigits2] in Hlo.
  replace (Zpos (digits2_pos m)) with 53 in Hlo by lia.
  exact Hlo.
Qed.

Lemma compare_cont_of_le p q :
  Zpos p <= Zpos q ->
  match PosDef.Pos.compare_cont Eq p q with Gt => false | _ => true end = true.
Proof.
  change (PosDef.Pos.compare_cont Eq p q) with (Pos.compare p q).
  intros H. unfold Z.le in H. cbn [Z.compare] in H.
  destruct (Pos.compare p q);
    [reflexivity | reflexivity | exfalso; apply H; reflexivity].
Qed.

(** A finite double lies between 0 and [maxUInt64AsDouble] exactly when
    its truncation lies between 0 and 2^64 and it is not negative. *)
Lemma UInt64_range_finite s m e :
  valid_double (S754_finite s m e) = true ->
  dge (S754_finite s m e) (double_of_Z 0)
  && dle (S754_finite s m e) maxUInt64AsDouble = true <->
  s = false /\ double_to_Z (S754_finite s m e) <= 2 ^ 64.
Proof.
  intros Hv. destruct (valid_double_bounds _ _ _ Hv) as [Hm He].
  unfold dge, dle. rewrite maxUInt64AsDouble_value.
  change (double_of_Z 0) with (S754_zero false).
  unfold SFleb, SFcompare, double_to_Z.
  destruct s; cbn [cond_Zopp andb].
  { split; [discriminate | intros [H _]; discriminate H]. }
  destruct (Z.compare_spec e 12) as [He12 | He12 | He12].
  - subst e. cbv beta iota. change (0 <=? 12) with true. cbv beta iota.
    change (2 ^ 12) with 4096. change (2 ^ 64) with 18446744073709551616.
    split.
    + intros H. apply compare_cont_le in H. split; [reflexivity | lia].
    + intros [_ H]. apply compare_cont_of_le. lia.
  - split; [intros _ | reflexivity]. split; [reflexivity |].
    destruct (Z.leb_spec 0 e) as [Hpos | Hneg].
    + pose proof (@mul_pow2_bound (Zpos m) e 11 ltac:(lia) ltac:(lia)) as H.
      change (2 ^ (53 + 11)) with (2 ^ 64) in H. lia.
    + pose proof (@truncation_bound (Zpos m) e ltac:(lia) ltac:(lia)) as H.
      destruct (Z.leb_spec 0 e); [lia |].
      apply Z.le_trans with (2 ^ 63); [lia | discriminate].
  - split; [discriminate |]. intros [_ H]. exfalso.
    pose proof (@valid_double_normal false m e Hv ltac:(lia)) as Hn.
    destruct (Z.leb_spec 0 e) as [_ | Hneg]; [| lia].
    assert (H13 : 2 ^ 13 <= 2 ^ e) by (apply Z.pow_le_mono_r; lia).
    assert (Hprod : 2 ^ 52 * 2 ^ 13 <= Zpos m * 2 ^ e).
    { apply Z.mul_le_mono_nonneg; [discriminate | exact Hn | discriminate
                                  | exact H13]. }
    change (2 ^ 52 * 2 ^ 13) with (2 ^ 65) in Hprod.
    apply (Z.lt_irrefl (2 ^ 64)).
    apply Z.lt_le_trans with (2 ^ 65); [reflexivity |].
    apply Z.le_trans with (1 := Hprod). exact H.
Qed.

Lemma UInt64_range_not_finite d :
  isfinite d = false ->
  dge d (double_of_Z 0) && dle d maxUInt64AsDouble = false.
Proof.
  unfold dge, dle. rewrite maxUInt64AsDouble_value.
  change (double_of_Z 0) with (S754_zero false).
  destruct d as [s | [|] | | s m e]; intros H; try discriminate H; reflexivity.
Qed.

Lemma whole_real_iff d :
  valid_double d = true ->
  (dge d (double_of_Z 0) && dle d maxUInt64AsDouble && IsIntegral d = true <->
   exists r, 0 <= r <= 2 ^ 64 /\ double_is_Z d r).
Proof.
  intros Hv. destruct d as [s | s | | s m e].
  - rewrite IsIntegral_zero, andb_true_r. rewrite maxUInt64AsDouble_value.
    split; [intros _ | intros _; destruct s; reflexivity].
    exists 0. split; [split; [apply Z.le_refl | discriminate] | reflexivity].
  - rewrite UInt64_range_not_finite by reflexivity.
    split; [discriminate | intros (r & _ & H); contradiction].
  - rewrite UInt64_range_not_finite by reflexivity.
    split; [discriminate | intros (r & _ & H); contradiction].
  - rewrite andb_true_iff, (UInt64_range_finite _ _ _ Hv),
      (IsIntegral_finite _ _ _ Hv).
    split.
    + intros [[Hs Hle] Hint]. exists (double_to_Z (S754_finite s m e)).
      split; [| apply double_is_Z_finite; auto].
      split; [| exact Hle]. subst s. unfold double_to_Z. cbn [cond_Zopp].
      destruct (Z.leb_spec 0 e).
      * apply Z.mul_nonneg_nonneg; [discriminate | apply Z.pow_nonneg; lia].
      * apply Z.div_pos; [discriminate | apply Z.pow_pos_nonneg; lia].
    + intros (r & [Hr0 Hr64] & Hrep).
      apply double_is_Z_finite in Hrep as [Hr Hint].
      split; [| exact Hint]. split; [| rewrite <- Hr; exact Hr64].
      destruct s; [| reflexivity]. exfalso.
      unfold double_to_Z in Hr. cbn [cond_Zopp] in Hr.
      assert (0 < (if 0 <=? e then Zpos m * 2 ^ e else Zpos m / 2 ^ (- e))).
      { destruct Hint as [Hpos | Hmod].
        - destruct (Z.leb_spec 0 e); [| lia].
          apply Z.mul_pos_pos; [reflexivity | apply Z.pow_pos_nonneg; lia].
        - destruct (Z.leb_spec 0 e).
          + apply Z.mul_pos_pos; [reflexivity | apply Z.pow_pos_nonneg; lia].
          + assert (Hk : 0 < 2 ^ (- e)) by (apply Z.pow_pos_nonneg; lia).
            pose proof (Z.div_mod (Zpos m) (2 ^ (- e)) ltac:(lia)) as Hdm.
            rewrite Hmod in Hdm.
            destruct (Z.lt_trichotomy 0 (Zpos m / 2 ^ (- e))) as [Hp | [Hz | Hn]];
              [exact Hp | |].
            * rewrite <- Hz in Hdm. lia.
            * pose proof (Z.div_pos (Zpos m) (2 ^ (- e)) ltac:(lia) Hk). lia. }
      lia.
Qed.

(** X20. [isIntegral] and [isUInt64] on a real.  The two agree on every real
    value, and they hold exactly when the double is a whole number from 0
    to 2^64, both ends included: a negative whole real is not integral
    for [isIntegral], and the real 2^64, which is not a 64-bit unsigned
    integer, is one for [isUInt64].  On the integer variants [isIntegral]
    always holds. *)
Theorem isIntegral_whole_reals (v : Value) :
  wf_payload v ->
  match payload v with
  | RealP v_real =>
      isIntegral v = isUInt64 v /\
      (isIntegral v = true <->
       exists r, 0 <= r <= 2 ^ 64 /\ double_is_Z v_real r)
  | IntP _ | UIntP _ => isIntegral v = true
  | _ => isIntegral v = false
  end.
Proof.
  destruct v as [p c st li]. unfold wf_payload. cbn [payload].
  destruct p; intros Hwf; try reflexivity.
  split; [reflexivity |].
  unfold isIntegral. cbn [payload]. apply whole_real_iff. exact Hwf.
Qed.

End WholeReals.

Lemma isIntegral_whole_reals_witness :
  isIntegral (Value_of_double maxUInt64AsDouble)
  = isUInt64 (Value_of_double maxUInt64AsDouble) /\
  (isIntegral (Value_of_double maxUInt64AsDouble) = true <->
   exists r, 0 <= r <= 2 ^ 64 /\ double_is_Z maxUInt64AsDouble r).
Proof.
  apply (@isIntegral_whole_reals (Value_of_double maxUInt64AsDouble)).
  reflexivity.
Defined.

(* ===================================================================== *)
(** * Swapping, counting members and comments                            *)
(* ===================================================================== *)

Section Swapping.

(** The comparisons look at what two values hold and at nothing else:
    comments and offsets play no part. *)
Lemma comparisons_see_payload (a a' b b' : Value) :
  payload a = payload a' -> payload b = payload b' ->
  Value_lt a b = Value_lt a' b' /\ Value_eq a b = Value_eq a' b'.
Proof.
  destruct a as [p c st li], a' as [p' c' st' li'],
           b as [q d su lj], b' as [q' d' su' lj'].
  cbn [payload]. intros <- <-.
  split; destruct p, q; reflexivity.
Qed.

(** X21. [swapPayload] exchanges what two values hold and leaves the
    comments and the offsets of each in place, while [swap] exchanges the
    two values entirely.  As the comparisons look at what a value holds
    and at nothing else, each value compares, after [swapPayload], as the
    other one did before, on either side of [operator<], [operator==] and
    [compare].  Doing [swapPayload] twice gives the two values back. *)
Theorem swapPayload_exchanges_compared_part (a b x : Value) :
  let (a', b') := swapPayload a b in
  (m_comments a', m_start a', m_limit a') = (m_comments a, m_start a, m_limit a) /\
  (m_comments b', m_start b', m_limit b') = (m_comments b, m_start b, m_limit b) /\
  payload a' = payload b /\ payload b' = payload a /\
  Value_lt a' x = Value_lt b x /\ Value_lt x a' = Value_lt x b /\
  Value_lt b' x = Value_lt a x /\ Value_lt x b' = Value_lt x a /\
  Value_eq a' x = Value_eq b x /\ Value_eq x b' = Value_eq x a /\
  compare a' b' = compare b a /\
  swapPayload a' b' = (a, b) /\
  swap a b = (b, a).
Proof.
  destruct (swapPayload a b) as [a' b'] eqn:Hswap.
  assert (Ha : payload a' = payload b)
    by (destruct a, b; injection Hswap as <- <-; reflexivity).
  assert (Hb : payload b' = payload a)
    by (destruct a, b; injection Hswap as <- <-; reflexivity).
  split; [destruct a, b; injection Hswap as <- <-; reflexivity |].
  split; [destruct a, b; injection Hswap as <- <-; reflexivity |].
  split; [exact Ha |]. split; [exact Hb |].
  split; [apply (comparisons_see_payload a' b x x Ha eq_refl) |].
  split; [apply (comparisons_see_payload x x a' b eq_refl Ha) |].
  split; [apply (comparisons_see_payload b' a x x Hb eq_refl) |].
  split; [apply (comparisons_see_payload x x b' a eq_refl Hb) |].
  split; [apply (comparisons_see_payload a' b x x Ha eq_refl) |].
  split; [apply (comparisons_see_payload x x b' a eq_refl Hb) |].
  split.
  - unfold compare.
    rewrite (proj1 (comparisons_see_payload a' b b' a Ha Hb)).
    rewrite (proj1 (Value_gt_flip a' b')), (proj1 (Value_gt_flip b a)).
    rewrite (proj1 (comparisons_see_payload b' a a' b Hb Ha)).
    reflexivity.
  - split; destruct a, b; injection Hswap as <- <-; reflexivity.
Qed.

End Swapping.

Section Members.

Lemma to_uint32_zero_iff z :
  0 <= z < 2 ^ 32 -> (to_uint32 z = 0%N <-> z = 0).
Proof.
  intros H. unfold to_uint32, wrap_unsigned.
  rewrite Z.mod_small by exact H. lia.
Qed.

(** X22. [size] and [empty].  A scalar and a string have size 0 and are not
    empty; null has size 0 and is empty.  An object has as many members
    as its map (below 2^32) and is empty just when it has none.  An
    array has the size its greatest index gives, that index plus one, and
    is empty just when it has no element, as long as that index is not
    the last 32-bit number, 2^32 - 1, for which the size wraps to 0. *)
Theorem size_and_empty (v : Value) :
  match payload v with
  | NullP => size v = 0%N /\ empty v = true
  | ObjectP v_map =>
      Z.of_nat (List.length v_map) < 2 ^ 32 ->
      size v = N.of_nat (List.length v_map) /\
      empty v = is_empty v_map
  | ArrayP v_map =>
      forall greatest element,
        last v_map (greatest, element) = (greatest, element) ->
        (m_index greatest < 2 ^ 32 - 1)%N ->
        size v = (if is_empty v_map then 0 else m_index greatest + 1)%N /\
        empty v = is_empty v_map
  | _ => size v = 0%N /\ empty v = false
  end.
Proof.
  destruct v as [p c st li]. cbn [payload].
  destruct p; try (split; reflexivity).
  - (* array *)
    intros greatest element Hlast Hidx.
    unfold empty, size, isNull, isArray, isObject, type. cbn [payload].
    change (ValueType_eqb arrayValue nullValue) with false.
    change (ValueType_eqb arrayValue arrayValue) with true.
    cbn [orb].
    destruct v_map as [| kv rest]; [split; reflexivity |].
    cbn [is_empty negb].
    assert (Hl : last (map (fun entry => Some (fst entry)) (kv :: rest)) None
                 = Some greatest).
    { clear Hidx. revert kv Hlast. induction rest as [| kv' rest IH];
        intros kv Hlast.
      - cbn in Hlast |- *. rewrite Hlast. reflexivity.
      - change (last (kv :: kv' :: rest) (greatest, element))
          with (last (kv' :: rest) (greatest, element)) in Hlast.
        change (last (map (fun entry => Some (fst entry)) (kv :: kv' :: rest))
                  None)
          with (last (map (fun entry => Some (fst entry)) (kv' :: rest)) None).
        apply IH. exact Hlast. }
    rewrite Hl.
    assert (H32 : 0 <= Z.of_N (m_index greatest) + 1 < 2 ^ 32).
    { change (2 ^ 32 - 1)%N with 4294967295%N in Hidx.
      change (2 ^ 32) with 4294967296. lia. }
    rewrite (to_uint32_small H32).
    replace (Z.to_N (Z.of_N (m_index greatest) + 1))
      with (m_index greatest + 1)%N by lia.
    split; [reflexivity |]. apply N.eqb_neq. lia.
  - (* object *)
    intros Hlen.
    unfold empty, size, isNull, isArray, isObject, type. cbn [payload].
    change (ValueType_eqb objectValue nullValue) with false.
    change (ValueType_eqb objectValue arrayValue) with false.
    change (ValueType_eqb objectValue objectValue) with true.
    cbn [orb].
    rewrite to_uint32_small by lia.
    replace (Z.to_N (Z.of_nat (List.length v_map)))
      with (N.of_nat (List.length v_map)) by lia.
    split; [reflexivity |].
    destruct v_map; [reflexivity |]. cbn [List.length is_empty].
    apply N.eqb_neq. lia.
Qed.

End Members.

Lemma size_and_empty_witness :
  size (mkValue (ArrayP [(CZString_index 0, Value_of_int64 1);
                         (CZString_index 4, Value_of_int64 2)]) None 0 0)
  = 5%N /\
  empty (mkValue (ArrayP [(CZString_index 0, Value_of_int64 1);
                          (CZString_index 4, Value_of_int64 2)]) None 0 0)
  = false.
Proof.
  apply (@size_and_empty
           (mkValue (ArrayP [(CZString_index 0, Value_of_int64 1);
                             (CZString_index 4, Value_of_int64 2)]) None 0 0)
           (CZString_index 4) (Value_of_int64 2)).
  - reflexivity.
  - reflexivity.
Defined.

Section CommentSlots.

Lemma assign_slot_length array slot comment :
  List.length (assign_slot array slot comment) = List.length array.
Proof.
  revert slot; induction array as [| c array IH]; intros [| slot];
    cbn [assign_slot List.length]; auto.
Qed.

Lemma nth_assign_slot array : forall slot slot' comment,
  (slot < List.length array)%nat ->
  nth slot' (assign_slot array slot comment) []
  = if Nat.eqb slot slot' then comment else nth slot' array [].
Proof.
  induction array as [| c array IH]; intros slot slot' comment Hlt;
    [cbn [List.length] in Hlt; lia |].
  destruct slot as [| slot], slot' as [| slot']; cbn [assign_slot nth Nat.eqb];
    try reflexivity.
  apply IH. cbn [List.length] in Hlt. lia.
Qed.

Lemma CommentPlacement_value_inj a b :
  CommentPlacement_value a = CommentPlacement_value b -> a = b.
Proof. destruct a, b; intros H; try reflexivity; discriminate H. Qed.

(** X23. The comment slots.  Setting one of the three slots stores the text:
    [get] returns it for that slot and [has] tells whether it is not
    empty, while the two other slots keep what they had; the array of
    three strings is allocated on the first [set] and keeps its size.
    Setting the slot [numberOfCommentPlacement] changes nothing, and
    without any [set] every slot reads as empty. *)
Theorem Comments_set_then_get (this : Comments) (slot other : CommentPlacement)
  (comment : chars) :
  Comments_wf this ->
  Comments_wf (Comments_set this slot comment) /\
  (slot <> numberOfCommentPlacement ->
   Comments_get (Comments_set this slot comment) slot = comment /\
   Comments_has (Comments_set this slot comment) slot
   = negb (is_empty comment) /\
   (other <> slot ->
    Comments_get (Comments_set this slot comment) other
    = Comments_get this other /\
    Comments_has (Comments_set this slot comment) other
    = Comments_has this other)) /\
  Comments_set this numberOfCommentPlacement comment = this /\
  Comments_get None other = [] /\
  Comments_has None other = false.
Proof.
  intros Hwf.
  assert (Hset : slot <> numberOfCommentPlacement ->
            exists array,
              List.length array = 3%nat /\
              Comments_set this slot comment
              = Some (assign_slot array (CommentPlacement_value slot) comment) /\
              (forall p, Comments_get this p
                         = nth (CommentPlacement_value p) array []) /\
              (forall p, Comments_has this p
                         = negb (is_empty (nth (CommentPlacement_value p)
                                             array [])))).
  { intros Hslot. unfold Comments_set.
    destruct slot; try contradiction;
      cbn [CommentPlacement_value Nat.leb];
      (destruct this as [array |];
       [exists array; repeat split; exact Hwf
       | exists new_Array; repeat split;
         intros p; destruct p; reflexivity]). }
  split; [| split; [| split; [| split]]].
  - destruct slot;
      try (destruct (Hset ltac:(discriminate)) as (array & Hlen & -> & _);
           cbn [Comments_wf]; rewrite assign_slot_length; exact Hlen).
    exact Hwf.
  - intros Hslot. destruct (Hset Hslot) as (array & Hlen & Heq & Hget & Hhas).
    rewrite Heq. cbn [Comments_get Comments_has].
    assert (Hlt : (CommentPlacement_value slot < List.length array)%nat).
    { rewrite Hlen. destruct slot; try contradiction;
        cbn [CommentPlacement_value]; lia. }
    rewrite !(nth_assign_slot _ _ _ Hlt), !Nat.eqb_refl.
    split; [reflexivity |]. split; [reflexivity |].
    intros Hother.
    destruct (Nat.eqb_spec (CommentPlacement_value slot)
                (CommentPlacement_value other)) as [He | _].
    + apply CommentPlacement_value_inj in He. congruence.
    + rewrite Hget, Hhas. split; reflexivity.
  - reflexivity.
  - reflexivity.
  - reflexivity.
Qed.

End CommentSlots.

Lemma Comments_set_then_get_witness :
  Comments_get (Comments_set None commentAfter (str "note")) commentAfter
  = str "note" /\
  Comments_has (Comments_set None commentAfter (str "note")) commentBefore
  = false.
Proof.
  pose proof (@Comments_set_then_get None commentAfter commentBefore
                (str "note") I) as (_ & H & _).
  destruct (H ltac:(discriminate)) as (Hget & _ & Hother).
  destruct (Hother ltac:(discriminate)) as (_ & Hhas).
  split; [exact Hget | exact Hhas].
Defined.

(* ===================================================================== *)
(** * The ordering never raises and is asymmetric                         *)
(* ===================================================================== *)

Section Asymmetry.

Lemma memcmp_antisym n : forall a b, memcmp b a n = - memcmp a b n.
Proof.
  induction n as [| n IH]; intros a b.
  - rewrite !memcmp_none. reflexivity.
  - destruct a as [| x a], b as [| y b]; try reflexivity.
    cbn [memcmp].
    destruct (N.ltb_spec (uchar x) (uchar y)) as [Hxy | Hxy];
      destruct (N.ltb_spec (uchar y) (uchar x)) as [Hyx | Hyx];
      try reflexivity; [lia | apply IH].
Qed.

Lemma SFcompare_antisym a b :
  SFcompare b a = option_map CompOpp (SFcompare a b).
Proof.
  destruct a as [sa | sa | | sa ma ea], b as [sb | sb | | sb mb eb];
    cbn [SFcompare option_map CompOpp];
    try (destruct sa; reflexivity); try (destruct sb; reflexivity);
    try (destruct sa, sb; reflexivity); try reflexivity.
  change (PosDef.Pos.compare_cont Eq ma mb) with (Pos.compare ma mb).
  change (PosDef.Pos.compare_cont Eq mb ma) with (Pos.compare mb ma).
  rewrite (Z.compare_antisym ea eb), (Pos.compare_antisym ma mb).
  destruct sa, sb; try reflexivity;
    destruct (ea ?= eb); cbn [CompOpp]; try reflexivity;
    destruct (Pos.compare ma mb); reflexivity.
Qed.

Lemma dlt_one_way a b : one_way (Ok (dlt a b)) (Ok (dlt b a)).
Proof.
  exists (dlt a b), (dlt b a). split; [reflexivity |]. split; [reflexivity |].
  unfold dlt, SFltb. rewrite (SFcompare_antisym a b).
  destruct (SFcompare a b) as [[| |] |]; reflexivity.
Qed.

Lemma string_less_one_way ta ts oa os :
  one_way (string_less ta ts oa os) (string_less oa os ta ts).
Proof.
  unfold string_less.
  destruct ts as [tb |], os as [ob |]; cbn [is_null negb];
    try (eexists; eexists; split; [reflexivity |]; split; reflexivity).
  destruct (decodePrefixedString ta tb) as [tl tstr].
  destruct (decodePrefixedString oa ob) as [ol ostr].
  cbn [JSON_ASSERT bind]. rewrite (N.min_comm ol tl).
  rewrite (memcmp_antisym (N.to_nat (N.min tl ol)) tstr ostr).
  set (comp := memcmp tstr ostr (N.to_nat (N.min tl ol))).
  destruct (Z.ltb_spec comp 0), (Z.ltb_spec 0 comp),
           (Z.ltb_spec (- comp) 0), (Z.ltb_spec 0 (- comp)); try lia;
    (eexists; eexists; split; [reflexivity |]; split; [reflexivity |]);
    try reflexivity.
  destruct (N.ltb_spec tl ol), (N.ltb_spec ol tl); try reflexivity. lia.
Qed.

(** Two keys of the same kind. *)
Lemma CZString_lt_one_way k k' :
  is_null (m_cstr k) = is_null (m_cstr k') ->
  one_way (CZString_lt k k') (CZString_lt k' k).
Proof.
  unfold CZString_lt. intros Hkind.
  destruct (m_cstr k) as [s |], (m_cstr k') as [s' |];
    try discriminate Hkind; cbn [is_null negb andb JSON_ASSERT bind deref].
  - rewrite (N.min_comm (storage_length k') (storage_length k)).
    rewrite (memcmp_antisym _ s s').
    set (ret := memcmp s s' _).
    destruct (Z.ltb_spec ret 0), (Z.ltb_spec (- ret) 0); try lia;
      eexists; eexists; split; try reflexivity; split; reflexivity.
  - exists (m_index k <? m_index k')%N, (m_index k' <? m_index k)%N.
    split; [reflexivity |]. split; [reflexivity |].
    destruct (N.ltb_spec (m_index k) (m_index k')),
             (N.ltb_spec (m_index k') (m_index k)); try reflexivity. lia.
Qed.

Lemma pair_lt_one_way (lt : Value -> Value -> Result bool) x y :
  is_null (m_cstr (fst x)) = is_null (m_cstr (fst y)) ->
  one_way (lt (snd x) (snd y)) (lt (snd y) (snd x)) ->
  one_way (pair_lt lt x y) (pair_lt lt y x).
Proof.
  intros Hkind (r & r' & Hr & Hr' & Hrr).
  destruct (CZString_lt_one_way _ _ Hkind) as (c & c' & Hc & Hc' & Hcc).
  unfold pair_lt. rewrite Hc, Hc', Hr, Hr'. cbn [orR andR bind].
  destruct c, c'; try discriminate Hcc; cbn [negb];
    eexists; eexists; split; try reflexivity; split; try reflexivity.
  exact Hrr.
Qed.

Lemma lexicographical_compare_one_way {A} (lt : A -> A -> Result bool) l1 :
  forall l2,
    (forall x y, In x l1 -> In y l2 -> one_way (lt x y) (lt y x)) ->
    one_way (lexicographical_compare lt (fun x y => lt y x) l1 l2)
            (lexicographical_compare lt (fun x y => lt y x) l2 l1).
Proof.
  induction l1 as [| x l1 IH]; intros [| y l2] H; cbn [lexicographical_compare];
    try (eexists; eexists; split; [reflexivity |]; split; reflexivity).
  destruct (H x y (or_introl eq_refl) (or_introl eq_refl))
    as (r & r' & Hr & Hr' & Hrr).
  rewrite Hr, Hr'. cbn [bind].
  destruct r, r'; try discriminate Hrr; cbn [bind];
    try (eexists; eexists; split; [reflexivity |]; split; reflexivity).
  apply IH. intros x' y' Hx Hy. apply H; right; assumption.
Qed.

Lemma map_less_flip m1 m2 :
  map_less Value_lt Value_gt m1 m2
  = if negb (Nat.eqb (List.length m1) (List.length m2))
    then Ok (Nat.ltb (List.length m1) (List.length m2))
    else lexicographical_compare (pair_lt Value_lt)
           (fun x y => pair_lt Value_lt y x) m1 m2.
Proof.
  unfold map_less. destruct (negb _); [reflexivity |].
  apply lexicographical_compare_ext. left.
  apply Forall_forall. intros [k x] _ [k' y]. split; [reflexivity |].
  unfold pair_gt, pair_lt. cbn [fst snd].
  rewrite (proj1 (Value_gt_flip x y)). reflexivity.
Qed.

Lemma map_less_one_way m1 m2 :
  (forall x y, In x m1 -> In y m2 ->
     is_null (m_cstr (fst x)) = is_null (m_cstr (fst y)) /\
     one_way (Value_lt (snd x) (snd y)) (Value_lt (snd y) (snd x))) ->
  one_way (map_less Value_lt Value_gt m1 m2) (map_less Value_lt Value_gt m2 m1).
Proof.
  intros H. rewrite !map_less_flip.
  rewrite (Nat.eqb_sym (List.length m2) (List.length m1)).
  destruct (Nat.eqb_spec (List.length m1) (List.length m2)) as [He | Hne];
    cbn [negb].
  - apply lexicographical_compare_one_way. intros x y Hx Hy.
    destruct (H x y Hx Hy) as [Hk Hv]. apply pair_lt_one_way; assumption.
  - eexists; eexists; split; [reflexivity |]; split; [reflexivity |].
    destruct (Nat.ltb_spec (List.length m1) (List.length m2)),
             (Nat.ltb_spec (List.length m2) (List.length m1));
      try reflexivity. lia.
Qed.

Lemma Value_lt_one_way (a : Value) :
  forall b, keys_wf a = true -> keys_wf b = true ->
            one_way (Value_lt a b) (Value_lt b a).
Proof.
  induction a as [p c st li IH] using Value_members_ind.
  intros [q c' st' li'] Ha Hb.
  assert (Hmaps : forall (kind : CZString -> bool) tm om,
            (forall k k', kind k = true -> kind k' = true ->
                          is_null (m_cstr k) = is_null (m_cstr k')) ->
            (p = ArrayP tm \/ p = ObjectP tm) ->
            forallb (fun entry => kind (fst entry) && keys_wf (snd entry)) tm
            = true ->
            forallb (fun entry => kind (fst entry) && keys_wf (snd entry)) om
            = true ->
            one_way (map_less Value_lt Value_gt tm om)
                    (map_less Value_lt Value_gt om tm)).
  { intros kind tm om Hkind Hp Htm Hom. apply map_less_one_way.
    intros x y Hx Hy.
    pose proof (proj1 (forallb_forall _ _) Htm x Hx) as Hkx.
    pose proof (proj1 (forallb_forall _ _) Hom y Hy) as Hky.
    apply andb_true_iff in Hkx as [Hkx Hwx].
    apply andb_true_iff in Hky as [Hky Hwy].
    split; [apply Hkind; assumption |].
    exact (proj1 (Forall_forall _ _) (IH tm Hp) x Hx (snd y) Hwx Hwy). }
  destruct p, q;
    try (cbn; eexists; eexists; split; [reflexivity |]; split; reflexivity).
  - cbn. exists (v_int <? v_int0), (v_int0 <? v_int).
    split; [reflexivity |]. split; [reflexivity |].
    destruct (Z.ltb_spec v_int v_int0), (Z.ltb_spec v_int0 v_int);
      try reflexivity. lia.
  - cbn. exists (v_uint <? v_uint0)%N, (v_uint0 <? v_uint)%N.
    split; [reflexivity |]. split; [reflexivity |].
    destruct (N.ltb_spec v_uint v_uint0), (N.ltb_spec v_uint0 v_uint);
      try reflexivity. lia.
  - cbn. apply dlt_one_way.
  - cbn. apply string_less_one_way.
  - cbn. exists (negb v_bool && v_bool0), (negb v_bool0 && v_bool).
    split; [reflexivity |]. split; [reflexivity |].
    destruct v_bool, v_bool0; reflexivity.
  - cbn [keys_wf] in Ha, Hb.
    apply (Hmaps (fun k => is_null (m_cstr k)) v_map v_map0);
      [| left; reflexivity | exact Ha | exact Hb].
    intros k k' -> ->. reflexivity.
  - cbn [keys_wf] in Ha, Hb.
    apply (Hmaps (fun k => negb (is_null (m_cstr k))) v_map v_map0);
      [| right; reflexivity | exact Ha | exact Hb].
    intros k k' Hk Hk'. apply negb_true_iff in Hk, Hk'. congruence.
Qed.

(** X24. On values whose arrays are keyed by indices and whose objects are
    keyed by names, at every depth, [operator<] never raises, in either
    direction, and [a < b] and [b < a] are never both true; [compare]
    then returns -1, 0 or 1 and changes sign with the order of its
    operands. *)
Theorem Value_lt_asymmetric (a b : Value) :
  keys_wf a = true -> keys_wf b = true ->
  exists r r',
    Value_lt a b = Ok r /\ Value_lt b a = Ok r' /\ r && r' = false /\
    compare a b = Ok (if r then -1 else if r' then 1 else 0) /\
    compare b a = Ok (if r then 1 else if r' then -1 else 0).
Proof.
  intros Ha Hb.
  destruct (Value_lt_one_way a b Ha Hb) as (r & r' & Hr & Hr' & Hrr).
  exists r, r'. split; [exact Hr |]. split; [exact Hr' |].
  split; [exact Hrr |].
  unfold compare.
  rewrite (proj1 (Value_gt_flip a b)), (proj1 (Value_gt_flip b a)), Hr, Hr'.
  cbn [bind]. destruct r, r'; try discriminate Hrr; split; reflexivity.
Qed.

End Asymmetry.

Lemma Value_lt_asymmetric_witness :
  exists r r',
    Value_lt (mkValue (ArrayP [(CZString_index 0, Value_of_int64 1)]) None 0 0)
             (mkValue (ArrayP [(CZString_index 0, Value_of_int64 2)]) None 0 0)
    = Ok r /\
    Value_lt (mkValue (ArrayP [(CZString_index 0, Value_of_int64 2)]) None 0 0)
             (mkValue (ArrayP [(CZString_index 0, Value_of_int64 1)]) None 0 0)
    = Ok r' /\
    r && r' = false /\
    compare (mkValue (ArrayP [(CZString_index 0, Value_of_int64 1)]) None 0 0)
            (mkValue (ArrayP [(CZString_index 0, Value_of_int64 2)]) None 0 0)
    = Ok (if r then -1 else if r' then 1 else 0) /\
    compare (mkValue (ArrayP [(CZString_index 0, Value_of_int64 2)]) None 0 0)
            (mkValue (ArrayP [(CZString_index 0, Value_of_int64 1)]) None 0 0)
    = Ok (if r then 1 else if r' then -1 else 0).
Proof.
  apply (@Value_lt_asymmetric
           (mkValue (ArrayP [(CZString_index 0, Value_of_int64 1)]) None 0 0)
           (mkValue (ArrayP [(CZString_index 0, Value_of_int64 2)]) None 0 0));
    reflexivity.
Defined.

(* ===================================================================== *)
(** * Integers through [asDouble] and back                                *)
(* ===================================================================== *)

Section ExactRounding.

Variables prec emax : Z.

(** A mantissa that already sits at its canonical exponent is left as it
    is by the rounding. *)
Lemma binary_round_aux_canonical s m e :
  fexp prec emax (Zpos (digits2_pos m) + e) = e ->
  e <= emax - prec ->
  binary_round_aux prec emax s (Zpos m) e loc_Exact = S754_finite s m e.
Proof using Type.
  intros Hc He. unfold binary_round_aux, shr_fexp. cbn [Zdigits2].
  rewrite Hc, Z.sub_diag.
  cbn [shr shr_record_of_loc shr_m loc_of_shr_record round_nearest_even
       Zdigits2].
  rewrite Hc, Z.sub_diag. cbn [shr shr_record_of_loc shr_m].
  destruct (Z.leb_spec e (emax - prec)); [reflexivity | lia].
Qed.

(** A mantissa that needs no right shift is rounded exactly: the result
    has the canonical exponent and the same value. *)
Lemma binary_round_exact s m e :
  fexp prec emax (Zpos (digits2_pos m) + e) <= e ->
  fexp prec emax (Zpos (digits2_pos m) + e) <= emax - prec ->
  exists m',
    binary_round prec emax s m e
    = S754_finite s m' (fexp prec emax (Zpos (digits2_pos m) + e)) /\
    Zpos m' = Zpos m * 2 ^ (e - fexp prec emax (Zpos (digits2_pos m) + e)) /\
    Zpos (digits2_pos m') + fexp prec emax (Zpos (digits2_pos m) + e)
    = Zpos (digits2_pos m) + e.
Proof using Type.
  intros Hle Hmax. unfold binary_round, shl_align.
  set (e' := fexp prec emax (Zpos (digits2_pos m) + e)) in *.
  destruct (e' - e) as [| d | d] eqn:Hd; try lia.
  - assert (He : e' = e) by lia. exists m. rewrite He.
    split; [apply binary_round_aux_canonical; fold e'; lia |].
    rewrite Z.sub_diag. split; [lia | reflexivity].
  - exists (Pos.iter xO m d).
    assert (Hdig : Zpos (digits2_pos (Pos.iter xO m d))
                   = Zpos (digits2_pos m) + Zpos d).
    { change (Zpos (digits2_pos (Pos.iter xO m d)))
        with (Zdigits2 (Zpos (Pos.iter xO m d))).
      rewrite iter_xO_pow2, Zdigits2_mul_pow2 by lia. reflexivity. }
    split; [| split].
    + apply binary_round_aux_canonical; [| exact Hmax].
      rewrite Hdig. replace (Zpos (digits2_pos m) + Zpos d + e')
        with (Zpos (digits2_pos m) + e) by lia.
      reflexivity.
    + rewrite iter_xO_pow2. f_equal. f_equal. lia.
    + rewrite Hdig. lia.
Qed.

End ExactRounding.

Section IntegerDoubles.

(** [static_cast<double>] of an integer of less than 54 bits is exact. *)
Lemma double_of_Z_exact n :
  - 2 ^ 53 < n < 2 ^ 53 ->
  valid_double (double_of_Z n) = true /\
  double_is_Z (double_of_Z n) n /\
  (n <> 0 ->
   exists m e, double_of_Z n = S754_finite (n <? 0) m e /\ -52 <= e <= 0 /\
               Zpos m = Z.abs n * 2 ^ (- e)).
Proof.
  intros Hn.
  assert (Hpos : forall s (p : positive),
            Zpos p < 2 ^ 53 ->
            exists m e,
              binary_round prec64 emax64 s p 0 = S754_finite s m e /\
              -52 <= e <= 0 /\ Zpos m = Zpos p * 2 ^ (- e) /\
              valid_double (S754_finite s m e) = true).
  { intros s p Hp.
    pose proof (@Zdigits2_bounds (Zpos p) eq_refl) as [Hlo _].
    pose proof (@Zdigits2_pos (Zpos p) eq_refl) as Hd1.
    cbn [Zdigits2] in Hlo, Hd1.
    assert (Hd : Zpos (digits2_pos p) <= 53).
    { destruct (Z.le_gt_cases (Zpos (digits2_pos p)) 53) as [H | H];
        [exact H | exfalso].
      assert (2 ^ 53 <= 2 ^ (Zpos (digits2_pos p) - 1))
        by (apply Z.pow_le_mono_r; lia).
      lia. }
    assert (Hf : fexp prec64 emax64 (Zpos (digits2_pos p) + 0)
                 = Zpos (digits2_pos p) - 53).
    { unfold fexp, emin, prec64, emax64. lia. }
    destruct (@binary_round_exact prec64 emax64 s p 0) as (m & Hr & Hm & Hdig).
    { rewrite Hf. lia. }
    { rewrite Hf. unfold prec64, emax64. lia. }
    rewrite Hf in Hr, Hm, Hdig.
    exists m, (Zpos (digits2_pos p) - 53).
    split; [exact Hr |]. split; [lia |]. split.
    - rewrite Hm; f_equal; f_equal; lia.
    - unfold valid_double, valid_binary, bounded, canonical_mantissa.
      apply andb_true_iff. split.
      + apply Z.eqb_eq. unfold fexp, emin, prec64, emax64. lia.
      + apply Z.leb_le. unfold prec64, emax64. lia. }
  assert (Hval : forall s (p : positive) m e,
            -52 <= e <= 0 -> Zpos m = Zpos p * 2 ^ (- e) ->
            double_is_Z (S754_finite s m e) (cond_Zopp s (Zpos p))).
  { intros s p m e He Hm. unfold double_is_Z.
    destruct (Z.leb_spec 0 e) as [H0 | H0].
    - assert (e = 0) by lia. subst e. rewrite Hm.
      change (2 ^ (- 0)) with 1. change (2 ^ 0) with 1.
      rewrite !Z.mul_1_r. reflexivity.
    - rewrite Hm. destruct s; cbn [cond_Zopp]; lia. }
  destruct n as [| p | p]; unfold double_of_Z, binary_normalize.
  - split; [reflexivity |]. split; [reflexivity |]. intros H. contradiction.
  - destruct (Hpos false p ltac:(lia)) as (m & e & Hr & He & Hm & Hv).
    rewrite Hr. split; [exact Hv |]. split.
    + apply (Hval false p m e He Hm).
    + intros _. exists m, e. auto.
  - destruct (Hpos true p ltac:(lia)) as (m & e & Hr & He & Hm & Hv).
    rewrite Hr. split; [exact Hv |]. split.
    + apply (Hval true p m e He Hm).
    + intros _. exists m, e. auto.
Qed.

Lemma small_exponent_in_range s m e :
  e < 11 ->
  dge (S754_finite s m e) (double_of_Z minInt64) = true /\
  dlt (S754_finite s m e) (double_of_Z maxInt64) = true.
Proof.
  intros He. unfold dge, dlt.
  rewrite double_of_minInt64, double_of_maxInt64.
  unfold SFleb, SFltb, SFcompare.
  destruct s.
  - destruct (Z.compare_spec 11 e); try (exfalso; lia); split; reflexivity.
  - destruct (Z.compare_spec e 11); try (exfalso; lia); split; reflexivity.
Qed.

(** X25. An integer of less than 54 bits survives the trip through a double:
    [asDouble] of the [intValue] is exactly the integer, the
    [realValue] built from that double passes [isInt64], and its
    [asInt64] gives the integer back.  A [uintValue] does not share
    this: its [asDouble] goes through [float], and 16777217 comes back as
    16777216.0. *)
Theorem integer_through_double (n : Z) :
  - 2 ^ 53 < n < 2 ^ 53 ->
  (exists d,
     asDouble (Value_of_int64 n) = Ok d /\
     double_is_Z d n /\
     isInt64 (Value_of_double d) = true /\
     asInt64 (Value_of_double d) = Ok n) /\
  asDouble (Value_of_uint64 16777217) = Ok (double_of_Z 16777216).
Proof.
  intros Hn. split; [| vm_compute; reflexivity].
  destruct (double_of_Z_exact Hn) as (Hv & Hz & Hshape).
  exists (double_of_Z n). split; [reflexivity |]. split; [exact Hz |].
  assert (Hin : dge (double_of_Z n) (double_of_Z minInt64)
                && dlt (double_of_Z n) (double_of_Z maxInt64)
                && IsIntegral (double_of_Z n) = true).
  { destruct (Z.eq_dec n 0) as [-> | Hnz]; [reflexivity |].
    destruct (Hshape Hnz) as (m & e & Hd & He & Hm).
    rewrite Hd in Hv, Hz |- *.
    destruct (@small_exponent_in_range (n <? 0) m e ltac:(lia)) as [-> ->].
    cbn [andb]. apply (proj2 (IsIntegral_finite _ _ _ Hv)).
    apply double_is_Z_finite in Hz. apply Hz. }
  split; [exact Hin |].
  destruct (proj1 (@real_isInt64_iff (double_of_Z n) Hv) Hin)
    as (r & Hr & _ & Hrep).
  unfold asInt64, Value_of_double. cbn [store payload]. rewrite Hr.
  f_equal.
  destruct (double_of_Z n) as [? | ? | | s m e]; try contradiction.
  - cbn [double_is_Z] in Hrep, Hz. congruence.
  - apply double_is_Z_finite in Hrep as [-> _].
    apply double_is_Z_finite in Hz as [-> _]. reflexivity.
Qed.

End IntegerDoubles.

Lemma integer_through_double_witness :
  (exists d,
     asDouble (Value_of_int64 (-9007199254740991)) = Ok d /\
     double_is_Z d (-9007199254740991) /\
     isInt64 (Value_of_double d) = true /\
     asInt64 (Value_of_double d) = Ok (-9007199254740991)) /\
  asDouble (Value_of_uint64 16777217) = Ok (double_of_Z 16777216).
Proof.
  apply (@integer_through_double (-9007199254740991)).
  split; reflexivity.
Defined.

(* ===================================================================== *)
(** * Keys as a strict order; default values                              *)
(* ===================================================================== *)

Section KeyOrder.

Lemma memcmp_negative_trans a : forall b c la lb lc,
  memcmp a b (Nat.min la lb) < 0 ->
  memcmp b c (Nat.min lb lc) < 0 ->
  memcmp a c (Nat.min la lc) < 0.
Proof.
  induction a as [| x a IH]; intros b c la lb lc Hab Hbc.
  - destruct (Nat.min la lb); cbn [memcmp] in Hab; lia.
  - destruct b as [| y b].
    { destruct (Nat.min la lb); cbn [memcmp] in Hab; lia. }
    destruct c as [| z c].
    { destruct (Nat.min lb lc); cbn [memcmp] in Hbc; lia. }
    destruct la as [| la]; [rewrite memcmp_none in Hab; lia |].
    destruct lb as [| lb];
      [rewrite Nat.min_0_r, memcmp_none in Hab; lia |].
    destruct lc as [| lc];
      [rewrite Nat.min_0_r, memcmp_none in Hbc; lia |].
    cbn [Nat.min memcmp] in Hab, Hbc |- *.
    destruct (N.ltb_spec (uchar x) (uchar y)) as [Hxy | Hxy].
    + destruct (N.ltb_spec (uchar y) (uchar z)) as [Hyz | Hyz].
      * destruct (N.ltb_spec (uchar x) (uchar z)); lia.
      * destruct (N.ltb_spec (uchar z) (uchar y)); [lia |].
        destruct (N.ltb_spec (uchar x) (uchar z)); lia.
    + destruct (N.ltb_spec (uchar y) (uchar x)) as [Hyx | Hyx]; [lia |].
      destruct (N.ltb_spec (uchar y) (uchar z)) as [Hyz | Hyz].
      * destruct (N.ltb_spec (uchar x) (uchar z)); lia.
      * destruct (N.ltb_spec (uchar z) (uchar y)); [lia |].
        destruct (N.ltb_spec (uchar x) (uchar z)); [lia |].
        destruct (N.ltb_spec (uchar z) (uchar x)); [lia |].
        exact (IH b c la lb lc Hab Hbc).
Qed.

(** X26. [operator<] is a strict order on the keys of one kind: no key is
    less than itself, two keys are never each less than the other, and
    the relation is transitive; two keys that [operator==] finds equal
    are not ordered.  For the first two keys being of the same kind (both
    index keys or both name keys) is enough. *)
Theorem CZString_lt_strict_order (k1 k2 k3 : CZString) :
  is_null (m_cstr k1) = is_null (m_cstr k2) ->
  CZString_lt k1 k1 = Ok false /\
  (CZString_lt k1 k2 = Ok true -> CZString_lt k2 k1 = Ok false) /\
  (CZString_lt k1 k2 = Ok true -> CZString_lt k2 k3 = Ok true ->
   CZString_lt k1 k3 = Ok true) /\
  (CZString_eq k1 k2 = Ok true ->
   CZString_lt k1 k2 = Ok false /\ CZString_lt k2 k1 = Ok false).
Proof.
  intros Hkind. split; [apply CZString_lt_irrefl |]. split; [| split].
  - intros H12. destruct (CZString_lt_one_way _ _ Hkind)
      as (r & r' & Hr & Hr' & Hrr).
    rewrite Hr'. rewrite H12 in Hr. injection Hr as <-.
    cbn [andb] in Hrr. rewrite Hrr. reflexivity.
  - unfold CZString_lt.
    destruct (m_cstr k1) as [s1 |], (m_cstr k2) as [s2 |];
      try discriminate Hkind; cbn [is_null negb andb JSON_ASSERT bind deref].
    + destruct (m_cstr k3) as [s3 |];
        cbn [is_null negb andb JSON_ASSERT bind deref];
        [| intros _ H; discriminate H].
      rewrite !N2Nat.inj_min.
      destruct (Z.ltb_spec (memcmp s1 s2
                  (Nat.min (N.to_nat (storage_length k1))
                     (N.to_nat (storage_length k2)))) 0) as [H12 | H12];
        [| discriminate].
      destruct (Z.ltb_spec (memcmp s2 s3
                  (Nat.min (N.to_nat (storage_length k2))
                     (N.to_nat (storage_length k3)))) 0) as [H23 | H23];
        [| intros _ H; discriminate H].
      intros _ _.
      pose proof (memcmp_negative_trans _ _ _ _ _ _ H12 H23) as H13.
      destruct (Z.ltb_spec (memcmp s1 s3
                  (Nat.min (N.to_nat (storage_length k1))
                     (N.to_nat (storage_length k3)))) 0); [reflexivity | lia].
    + intros H12 H23. injection H12 as H12. injection H23 as H23.
      apply N.ltb_lt in H12, H23. f_equal. apply N.ltb_lt. lia.
  - intros Heq. pose proof (CZString_eq_then_not_lt _ _ Heq) as H12.
    split; [exact H12 |].
    destruct (CZString_lt_one_way _ _ Hkind) as (r & r' & Hr & Hr' & _).
    rewrite Hr'. f_equal.
    revert Heq Hr'. unfold CZString_eq, CZString_lt.
    destruct (m_cstr k1) as [s1 |], (m_cstr k2) as [s2 |];
      try discriminate Hkind; cbn [is_null negb andb JSON_ASSERT bind deref].
    + destruct (N.eqb_spec (storage_length k1) (storage_length k2)) as [Hl | Hl];
        cbn [negb]; [| discriminate].
      rewrite Hl, N.min_id. intros H. injection H as H. apply Z.eqb_eq in H.
      rewrite (memcmp_antisym _ s1 s2), H. intros H'. injection H' as <-.
      reflexivity.
    + intros H. injection H as H. apply N.eqb_eq in H. rewrite H.
      rewrite N.ltb_irrefl. intros H'. injection H' as <-. reflexivity.
Qed.

End KeyOrder.

Lemma CZString_lt_strict_order_witness :
  CZString_lt (name_key "a") (name_key "a") = Ok false /\
  (CZString_lt (name_key "a") (name_key "b") = Ok true ->
   CZString_lt (name_key "b") (name_key "a") = Ok false) /\
  (CZString_lt (name_key "a") (name_key "b") = Ok true ->
   CZString_lt (name_key "b") (name_key "c") = Ok true ->
   CZString_lt (name_key "a") (name_key "c") = Ok true) /\
  (CZString_eq (name_key "a") (name_key "b") = Ok true ->
   CZString_lt (name_key "a") (name_key "b") = Ok false /\
   CZString_lt (name_key "b") (name_key "a") = Ok false).
Proof.
  apply (@CZString_lt_strict_order (name_key "a") (name_key "b") (name_key "c")).
  reflexivity.
Defined.

Section Defaults.

Variable format_double : string -> Z -> double -> option chars.

(** X27. [Value(ValueType)] builds, for each variant, the value of that
    variant that stands for nothing: it has the requested type and no
    members, it is convertible to null, and it is empty exactly for
    null, array and object; only the null one is false in a boolean
    context. *)
Theorem Value_of_type_default (t : ValueType) :
  type (Value_of_type t) = t /\
  size (Value_of_type t) = 0%N /\
  isConvertibleTo format_double (Value_of_type t) nullValue = Ok true /\
  isConvertibleTo format_double (Value_of_type t) t = Ok true /\
  empty (Value_of_type t)
  = (ValueType_eqb t nullValue || ValueType_eqb t arrayValue
     || ValueType_eqb t objectValue) /\
  operator_bool (Value_of_type t) = negb (ValueType_eqb t nullValue).
Proof. destruct t; repeat split. Qed.

End Defaults.


Section StringRow.

Import Utils.

Variable format_double : string -> Z -> double -> option chars.

(** [valueToString(double)] returns for every double that is not finite,
    and for every finite one that [snprintf] prints without reporting
    an error: the assertion on its result holds then, and the loop
    around it ends. *)
Lemma valueToString_double_returns value useSpecialFloats precision
  precisionType :
  (isfinite value = true ->
   0 <= snprintf_int
          (format_double
             (match precisionType with
              | significantDigits => "%.*g"
              | decimalPlaces => "%.*f"
              end)%string (to_int32 (Z.of_N precision)) value)) ->
  returns (valueToString_double format_double value useSpecialFloats precision
             precisionType) = true.
Proof.
  intros Hok. unfold valueToString_double.
  destruct (isfinite value); cbn [negb]; [| reflexivity].
  specialize (Hok eq_refl).
  destruct (format_double _ _ value) as [text |];
    [| exfalso; apply Hok; reflexivity].
  rewrite print_loop_whole by exact Hok. cbn [bind].
  rewrite fixNumericLocale_map.
  destruct precisionType; reflexivity.
Qed.

(** X28. The [stringValue] row of [isConvertibleTo] says whether [asString]
    returns, for every value whose string pointer, if it has one, is not
    null, and whose real, if it is a finite one, is printed by
    [snprintf("%.17g")] without an error: numbers of the three numeric
    variants, booleans, strings and null are converted without raising,
    arrays and objects raise a logic error.  For a finite real on which
    [snprintf] reports an error, the row says true and [asString] raises
    the logic error of the failed assertion. *)
Theorem isConvertibleTo_string_iff_asString_returns (v : Value) :
  wf_payload v ->
  (forall allocated, payload v <> StringP allocated None) ->
  ((forall v_real, payload v = RealP v_real -> isfinite v_real = true ->
      0 <= snprintf_int (format_double "%.*g" 17 v_real)) ->
   isConvertibleTo format_double v stringValue
   = Ok (returns (asString format_double v)) /\
   (returns (asString format_double v) = false ->
    asString format_double v
    = Throw (LogicError "Type is not convertible to string"))) /\
  (forall v_real, payload v = RealP v_real -> isfinite v_real = true ->
     snprintf_int (format_double "%.*g" 17 v_real) < 0 ->
     isConvertibleTo format_double v stringValue = Ok true /\
     asString format_double v = Throw (LogicError "assert json failed")).
Proof.
  destruct v as [p c st li]. unfold wf_payload. cbn [payload].
  intros Hwf Hptr. split.
  - intros Hprint.
    unfold isConvertibleTo, asString, isNumeric, isDouble, type.
    cbn [payload].
    destruct p; try (split; [reflexivity | try discriminate; reflexivity]).
    + destruct (valueToString_int64_text Hwf) as (s & -> & _).
      split; [reflexivity | discriminate].
    + destruct (valueToString_uint64_text Hwf) as (s & -> & _).
      split; [reflexivity | discriminate].
    + unfold valueToString_double3.
      rewrite valueToString_double_returns by (apply Hprint; reflexivity).
      split; [reflexivity | discriminate].
    + destruct v_string as [buf |]; [| exfalso; apply (Hptr allocated eq_refl)].
      destruct (decodePrefixedString allocated buf).
      split; [reflexivity | discriminate].
  - intros v_real -> Hfin Hneg. split; [reflexivity |].
    unfold asString, valueToString_double3. cbn [payload].
    apply valueToString_snprintf_error; assumption.
Qed.

End StringRow.

(** The real 3.0 with the reference conversion; and with a C library
    whose [snprintf] reports an error. *)
Lemma isConvertibleTo_string_iff_asString_returns_witness :
  (isConvertibleTo Printf.format_double (Value_of_double (double_of_Z 3))
     stringValue
   = Ok (returns (asString Printf.format_double
                    (Value_of_double (double_of_Z 3)))) /\
   (returns (asString Printf.format_double (Value_of_double (double_of_Z 3)))
    = false ->
    asString Printf.format_double (Value_of_double (double_of_Z 3))
    = Throw (LogicError "Type is not convertible to string"))) /\
  (isConvertibleTo (fun _ _ _ => None) (Value_of_double (double_of_Z 3))
     stringValue = Ok true /\
   asString (fun _ _ _ => None) (Value_of_double (double_of_Z 3))
   = Throw (LogicError "assert json failed")).
Proof.
  split.
  - apply (proj1 (@isConvertibleTo_string_iff_asString_returns
                    Printf.format_double (Value_of_double (double_of_Z 3))
                    eq_refl (fun allocated H => ltac:(discriminate H)))).
    intros v_real H _. vm_compute in H. injection H as <-.
    vm_compute. discriminate.
  - apply (proj2 (@isConvertibleTo_string_iff_asString_returns
                    (fun _ _ _ => None) (Value_of_double (double_of_Z 3))
                    eq_refl (fun allocated H => ltac:(discriminate H)))
             (double_of_Z 3)); reflexivity.
Defined.

(* ===================================================================== *)
(** * The width of the length fields                                      *)
(* ===================================================================== *)

Section LengthFields.

(** X29. A key built from a pointer, a length and a policy gives back the
    pointer and the policy, and the length modulo 2^30, the thirty bits
    of its field: a longer length is cut down silently.  A key built
    from an index gives back the index and has no pointer. *)
Theorem CZString_name_fields (cstr : option chars) (length index : N)
  (allocate : DuplicationPolicy) :
  CZString_data (CZString_name cstr length allocate) = cstr /\
  CZString_length (CZString_name cstr length allocate) = (length mod 2 ^ 30)%N /\
  isStaticString (CZString_name cstr length allocate)
  = (match allocate with noDuplication => true | _ => false end) /\
  CZString_data (CZString_index index) = None /\
  m_index (CZString_index index) = index.
Proof.
  destruct (CZString_name_storage cstr length allocate) as [Hl Hp].
  split; [reflexivity |]. split; [exact Hl |]. split; [| split; reflexivity].
  unfold isStaticString. rewrite Hp. destruct allocate; reflexivity.
Qed.

Variable new_chars : N -> bool.
Variable format_double : string -> Z -> double -> option chars.

(** X30. The length of the chars handed to a string constructor is cast to
    [unsigned].  With the length so reduced modulo 2^32, more than
    2^31 - 6 chars are refused with a logic error, and otherwise that
    many leading chars are kept: all of them for an input of at most
    2^31 - 6 chars, fewer for an input of 2^32 chars or more. *)
Theorem Value_of_string_length (s : chars) :
  (forall n, new_chars n = true) ->
  let length := to_uint32 (Z.of_nat (List.length s)) in
  (2 ^ 31 - 6 < length ->
   Value_of_string new_chars s
   = Throw (LogicError
       "in Json::Value::duplicateAndPrefixStringValue(): length too big for prefixing"))%N /\
  (length <= 2 ^ 31 - 6 ->
   exists v,
     Value_of_string new_chars s = Ok v /\
     asString format_double v = Ok (firstn (N.to_nat length) s) /\
     getCStringLength v = Ok length)%N.
Proof.
  intros Hnew length. unfold Value_of_string. fold length.
  rewrite (@duplicateAndPrefixStringValue_limit new_chars) by apply Hnew.
  assert (Hlen : (N.to_nat length <= List.length s)%nat).
  { unfold length, to_uint32, wrap_unsigned.
    pose proof (Z.mod_le (Z.of_nat (List.length s)) (2 ^ 32)
                  (Nat2Z.is_nonneg _) eq_refl) as Hle.
    pose proof (Z.mod_pos_bound (Z.of_nat (List.length s)) (2 ^ 32) eq_refl).
    lia. }
  split; intros Hl.
  - destruct (N.leb_spec length (2 ^ 31 - 6)) as [H | H]; [lia | reflexivity].
  - destruct (N.leb_spec length (2 ^ 31 - 6)) as [H | H]; [| lia].
    cbn [bind]. eexists. split; [reflexivity |].
    unfold asString, getCStringLength.
    cbn [store payload type initBasic unset_payload decodePrefixedString
         ValueType_eqb JSON_ASSERT_MESSAGE bind].
    split; [| reflexivity]. f_equal.
    rewrite firstn_app, firstn_firstn, Nat.min_id.
    rewrite length_firstn, Nat.min_l by exact Hlen.
    rewrite Nat.sub_diag. cbn [firstn]. apply app_nil_r.
Qed.

End LengthFields.

Lemma Value_of_string_length_witness :
  (2 ^ 31 - 6 < to_uint32 (Z.of_nat (List.length (str "abc"))) ->
   Value_of_string (fun _ => true) (str "abc")
   = Throw (LogicError
       "in Json::Value::duplicateAndPrefixStringValue(): length too big for prefixing"))%N /\
  (to_uint32 (Z.of_nat (List.length (str "abc"))) <= 2 ^ 31 - 6 ->
   exists v,
     Value_of_string (fun _ => true) (str "abc") = Ok v /\
     asString Printf.format_double v
     = Ok (firstn (N.to_nat (to_uint32 (Z.of_nat (List.length (str "abc")))))
             (str "abc")) /\
     getCStringLength v = Ok (to_uint32 (Z.of_nat (List.length (str "abc")))))%N.
Proof.
  apply (@Value_of_string_length (fun _ => true) Printf.format_double
           (str "abc")).
  reflexivity.
Defined.
